(** * Tithing API: the transaction extraction and aggregation pipeline

    A shallow embedding of [app/main.py] (a FastAPI service that reads a
    Wells Fargo CSV export, keeps the deposits whose description contains a
    needle and whose date lies in a range, sums them and computes a tithe),
    together with the parts of the Python runtime the pipeline relies on:
    [str] methods, [datetime.strptime] for the two formats used, and the
    [decimal] module under its default context.

    Conventions of the embedding.
    - Text is a Rocq [string] whose characters are read as the code points
      U+0000..U+00FF.  On that range [str.strip], [str.lower], [repr] and
      the regular-expression class [\d] are modelled exactly; text with
      code points above U+00FF is outside the model.
    - [decimal.Decimal] is modelled with its sign, coefficient and
      exponent, infinities and NaNs, and arithmetic rounds as the default
      context does: 28 significant digits, ROUND_HALF_EVEN,
      Emax = 999999, Emin = -999999, traps on InvalidOperation and
      Overflow.  The definitions follow the reference implementation
      [_pydecimal.py], digit strings being replaced by the natural numbers
      they denote.
    - A Python exception is a value of [PyExn]; a function that can raise
      returns [result].
    - Writing a number in full is the one operation of the program whose
      memory is not proportional to the data it already holds:
      [format(x, ".2f")] of a number of large exponent raises [ValueError]
      beyond the limit of the C library and [MemoryError] when the
      allocator refuses the digits.  How many digits the allocator grants
      is not fixed by the source: it is the parameter [heap] of the
      definitions that write numbers, counted beyond the [Emax + 3]
      digits that any number of the context needs.  Every other
      allocation is taken to succeed.
    - [csv.reader] and the UTF-8 decoder are library code: the pipeline is
      stated over an arbitrary reader (a [Variable] of the section
      [Endpoint]), and the row loop over the rows it delivers. *)

From Stdlib Require Import ZArith NArith List String Ascii Bool Lia Sorted.
From Stdlib Require Import DecimalString DecimalN.
Import ListNotations.

Local Open Scope Z_scope.

(** The outcome of a Python call: a value, or an exception raised. *)
Inductive result (E A : Type) : Type :=
| Ok (a : A)
| Raise (e : E).

Arguments Ok {E A} a.
Arguments Raise {E A} e.

(* ===================================================================== *)
(** * Python [str] on code points below 256 *)
(* ===================================================================== *)

Module PyStr.

Definition ord (c : ascii) : N := N_of_ascii c.

Definition in_range (lo hi : N) (c : ascii) : bool :=
  ((lo <=? ord c) && (ord c <=? hi))%N.

(** [str.isspace] for one character: TAB..CR, FS..US, SPACE, NEL, NBSP. *)
Definition isspace (c : ascii) : bool :=
  in_range 9 13 c || in_range 28 32 c || (ord c =? 133)%N || (ord c =? 160)%N.

(** The class [\d] and [str.isdecimal]: only the ASCII digits below 256. *)
Definition isdigit (c : ascii) : bool := in_range 48 57 c.

Definition digit_val (c : ascii) : N := (ord c - 48)%N.

Fixpoint lstrip (s : string) : string :=
  match s with
  | EmptyString => EmptyString
  | String c t => if isspace c then lstrip t else s
  end.

Fixpoint rstrip (s : string) : string :=
  match s with
  | EmptyString => EmptyString
  | String c t =>
      match rstrip t with
      | EmptyString => if isspace c then EmptyString else String c EmptyString
      | t' => String c t'
      end
  end.

(** [s.strip()] *)
Definition strip (s : string) : string := rstrip (lstrip s).

Definition lower_char (c : ascii) : ascii :=
  if in_range 65 90 c
     || (in_range 192 222 c && negb (ord c =? 215)%N)
  then ascii_of_N (ord c + 32) else c.

(** [s.lower()] *)
Fixpoint lower (s : string) : string :=
  match s with
  | EmptyString => EmptyString
  | String c t => String (lower_char c) (lower t)
  end.

(** [s.replace(c, empty)] for a one-character [c]: every [c] is dropped. *)
Fixpoint remove_char (x : ascii) (s : string) : string :=
  match s with
  | EmptyString => EmptyString
  | String c t => if Ascii.eqb c x then remove_char x t
                  else String c (remove_char x t)
  end.

(** [s.startswith(p)] *)
Definition startswith (p s : string) : bool := String.prefix p s.

(** [needle in hay] *)
Fixpoint contains (needle hay : string) : bool :=
  String.prefix needle hay ||
  match hay with
  | EmptyString => false
  | String _ t => contains needle t
  end.

(** [str(n)] for a natural number. *)
Definition str_of_N (n : N) : string := NilEmpty.string_of_uint (N.to_uint n).

(** [int(s)] for a string of ASCII digits (most significant first). *)
Fixpoint int_of_digits_acc (acc : N) (s : string) : N :=
  match s with
  | EmptyString => acc
  | String c t => int_of_digits_acc (10 * acc + digit_val c)%N t
  end.

Definition int_of_digits (s : string) : N := int_of_digits_acc 0 s.

(** The longest prefix of digits and what follows it: the match of [\d*]. *)
Fixpoint span_digits (s : string) : string * string :=
  match s with
  | EmptyString => (EmptyString, EmptyString)
  | String c t =>
      if isdigit c then let (d, r) := span_digits t in (String c d, r)
      else (EmptyString, s)
  end.

Fixpoint all_digits (s : string) : bool :=
  match s with
  | EmptyString => true
  | String c t => isdigit c && all_digits t
  end.

(** Every character of the text satisfies [p]. *)
Fixpoint forall_chars (p : ascii -> bool) (s : string) : bool :=
  match s with
  | EmptyString => true
  | String c t => p c && forall_chars p t
  end.

(** The characters [format] writes for a finite number. *)
Definition money_char (c : ascii) : bool :=
  isdigit c || Ascii.eqb c "." || Ascii.eqb c "-".

(** ["%0<w>d" % n]: pad on the left with zeros up to width [w]. *)
Fixpoint zeros (k : nat) : string :=
  match k with
  | O => EmptyString
  | S k' => String "0" (zeros k')
  end.

Definition zfill (w : nat) (n : N) : string :=
  let s := str_of_N n in
  (zeros (w - String.length s) ++ s)%string.

Definition backslash : ascii := ascii_of_N 92.
Definition dquote : ascii := ascii_of_N 34.
Definition squote : ascii := ascii_of_N 39.

Definition hex_digit (n : N) : ascii :=
  if (n <? 10)%N then ascii_of_N (48 + n) else ascii_of_N (87 + n).

(** [str.isprintable] for one character. *)
Definition isprintable (c : ascii) : bool :=
  negb (in_range 0 31 c || in_range 127 160 c || (ord c =? 173)%N).

Definition has_char (x : ascii) (s : string) : bool :=
  negb (String.eqb (remove_char x s) s).

(** One character of [repr(s)], [q] being the quote chosen. *)
Definition repr_char (q c : ascii) : string :=
  if Ascii.eqb c q || Ascii.eqb c backslash
  then String backslash (String c EmptyString)
  else if (ord c =? 9)%N then String backslash "t"
  else if (ord c =? 10)%N then String backslash "n"
  else if (ord c =? 13)%N then String backslash "r"
  else if isprintable c then String c EmptyString
  else String backslash (String "x"
         (String (hex_digit (ord c / 16)) (String (hex_digit (ord c mod 16)) EmptyString))).

Fixpoint repr_body (q : ascii) (s : string) : string :=
  match s with
  | EmptyString => EmptyString
  | String c t => (repr_char q c ++ repr_body q t)%string
  end.

(** [repr(s)], the [{s!r}] of an f-string: single quotes unless the text
    has a single quote and no double quote. *)
Definition repr (s : string) : string :=
  let q : ascii := if has_char squote s && negb (has_char dquote s)
                   then dquote else squote in
  (String q (repr_body q s) ++ String q EmptyString)%string.

End PyStr.

(* ===================================================================== *)
(** * [datetime.date] and [datetime.strptime] *)
(* ===================================================================== *)

Module PyDate.

Import PyStr.

Record date : Type := mkdate { year : Z; month : Z; day : Z }.

Definition is_leap (y : Z) : bool :=
  (y mod 4 =? 0) && (negb (y mod 100 =? 0) || (y mod 400 =? 0)).

Definition days_in_month (y m : Z) : Z :=
  if m =? 2 then (if is_leap y then 29 else 28)
  else if (m =? 4) || (m =? 6) || (m =? 9) || (m =? 11) then 30
  else 31.

(** The check of the [date] constructor: MINYEAR = 1, MAXYEAR = 9999. *)
Definition make_date (y m d : Z) : option date :=
  if (1 <=? y) && (y <=? 9999) && (1 <=? m) && (m <=? 12)
     && (1 <=? d) && (d <=? days_in_month y m)
  then Some (mkdate y m d) else None.

(** [a <= b] on dates. *)
Definition date_le (a b : date) : bool :=
  (year a <? year b)
  || ((year a =? year b)
      && ((month a <? month b)
          || ((month a =? month b) && (day a <=? day b)))).

(** [a < b] on dates. *)
Definition date_lt (a b : date) : bool := negb (date_le b a).

(** [d.isoformat()] *)
Definition isoformat (d : date) : string :=
  (zfill 4 (Z.to_N (year d)) ++ "-" ++ zfill 2 (Z.to_N (month d)) ++ "-"
   ++ zfill 2 (Z.to_N (day d)))%string.

(** ** The regular expressions of [_strptime.TimeRE]

    Each directive is a matcher in continuation-passing style: it tries
    its alternatives in the order of the pattern and hands the value and
    the rest of the text to [k]; when [k] fails the next alternative is
    tried, which is the backtracking of [re.match]. *)

Section Matchers.
Context {A : Type}.

Definition orelse (a b : option A) : option A :=
  match a with Some _ => a | None => b end.

Definition val (c : ascii) : Z := Z.of_N (digit_val c).

(** One character in the digit range [lo]..[hi]. *)
Definition one_digit (lo hi : N) (s : string) (k : Z -> string -> option A)
  : option A :=
  match s with
  | String c r => if in_range (48 + lo) (48 + hi) c then k (val c) r else None
  | EmptyString => None
  end.

(** A first character [c0] followed by a digit in [lo]..[hi]. *)
Definition lead_digit (c0 : ascii) (lo hi : N) (s : string)
           (k : Z -> string -> option A) : option A :=
  match s with
  | String c (String c1 r) =>
      if Ascii.eqb c c0 && in_range (48 + lo) (48 + hi) c1
      then k (if isdigit c0 then 10 * val c0 + val c1 else val c1) r
      else None
  | _ => None
  end.

(** [%m]: [1[0-2]|0[1-9]|[1-9]] *)
Definition re_m (s : string) (k : Z -> string -> option A) : option A :=
  orelse (lead_digit "1" 0 2 s k)
    (orelse (lead_digit "0" 1 9 s k) (one_digit 1 9 s k)).

(** [%d]: [3[0-1]|[1-2]\d|0[1-9]|[1-9]| [1-9]]; the second alternative
    is tried for a first digit 1 and then for a first digit 2. *)
Definition re_d (s : string) (k : Z -> string -> option A) : option A :=
  orelse (lead_digit "3" 0 1 s k)
    (orelse (lead_digit "1" 0 9 s k)
       (orelse (lead_digit "2" 0 9 s k)
          (orelse (lead_digit "0" 1 9 s k)
             (orelse (one_digit 1 9 s k) (lead_digit " " 1 9 s k))))).

(** [%Y]: four digits. *)
Definition re_Y (s : string) (k : Z -> string -> option A) : option A :=
  match s with
  | String a (String b (String c (String d r))) =>
      if isdigit a && isdigit b && isdigit c && isdigit d
      then k (1000 * val a + 100 * val b + 10 * val c + val d) r
      else None
  | _ => None
  end.

(** A literal character of the format. *)
Definition re_lit (c0 : ascii) (s : string) (k : string -> option A)
  : option A :=
  match s with
  | String c r => if Ascii.eqb c c0 then k r else None
  | EmptyString => None
  end.
End Matchers.

(** The fields a format may set, with the defaults of [_strptime]:
    year 1900, month 1, day 1. *)
Record parsed : Type := mkparsed { p_year : Z; p_month : Z; p_day : Z }.

Definition unset : parsed := mkparsed 1900 1 1.

(** The pattern [TimeRE] compiles a format to, run against the text: a
    directive is its expression above, any other character matches
    itself.  The formats covered are those made of [%Y], [%m], [%d], each
    at most once, and of literal characters that are not blanks; the
    program uses two of them. *)
Fixpoint match_format (fmt s : string) (acc : parsed)
  : option (parsed * string) :=
  match fmt with
  | EmptyString => Some (acc, s)
  | String "%" (String "Y" fmt') =>
      re_Y s (fun y r => match_format fmt' r (mkparsed y (p_month acc) (p_day acc)))
  | String "%" (String "m" fmt') =>
      re_m s (fun m r => match_format fmt' r (mkparsed (p_year acc) m (p_day acc)))
  | String "%" (String "d" fmt') =>
      re_d s (fun d r => match_format fmt' r (mkparsed (p_year acc) (p_month acc) d))
  | String "%" _ => None
  | String c fmt' => re_lit c s (fun r => match_format fmt' r acc)
  end.

(** [datetime.strptime(s, fmt).date()]: the pattern must match a prefix of
    the text, the whole text must be consumed (else "unconverted data
    remains") and the fields must form a date.  [None] is the
    [ValueError]. *)
Definition strptime (s fmt : string) : option date :=
  match match_format fmt s unset with
  | Some (p, EmptyString) => make_date (p_year p) (p_month p) (p_day p)
  | _ => None
  end.

End PyDate.

(* ===================================================================== *)
(** * [decimal.Decimal] under the default context *)
(* ===================================================================== *)

Module PyDecimal.

Import PyStr.

(** [_sign], [int(_int)], [_exp]; the two infinities; quiet and signaling
    NaNs with their payload. *)
Inductive Decimal : Type :=
| Finite (sign : bool) (coef : N) (exp : Z)
| Infinity (sign : bool)
| NaN (sign : bool) (signaling : bool) (payload : N).

(** The signals the default context traps: each is raised as the
    exception of the same name. *)
Inductive Signal : Type := InvalidOperation | Overflow.

Inductive Rounding : Type := ROUND_HALF_UP | ROUND_HALF_EVEN.

(** [getcontext()]: prec=28, rounding=ROUND_HALF_EVEN, Emin=-999999,
    Emax=999999, clamp=0. *)
Definition prec : Z := 28.
Definition Emax : Z := 999999.
Definition Emin : Z := -999999.
Definition Etiny : Z := Emin - prec + 1.
Definition Etop : Z := Emax - prec + 1.
Definition ctx_rounding : Rounding := ROUND_HALF_EVEN.

Definition pow10 (k : Z) : N := (10 ^ Z.to_N k)%N.

Fixpoint ndigits_fuel (fuel : nat) (c : N) : Z :=
  match fuel with
  | O => 1
  | S f => if (c <? 10)%N then 1 else 1 + ndigits_fuel f (c / 10)%N
  end.

(** [len(self._int)]: the number of decimal digits of the coefficient
    (1 for zero). *)
Definition ndigits (c : N) : Z := ndigits_fuel (N.to_nat (N.size c)) c.

(** [self.adjusted()] of a finite number. *)
Definition adjusted (c : N) (e : Z) : Z := e + ndigits c - 1.

(** [_round_half_up] and [_round_half_even] on a coefficient that loses
    its last [k] digits: [true] when the kept part is incremented. *)
Definition round_up (r : Rounding) (c : N) (k : Z) : bool :=
  let p := pow10 k in
  let rem := (c mod p)%N in
  match r with
  | ROUND_HALF_UP => (p <=? 2 * rem)%N
  | ROUND_HALF_EVEN =>
      (p <? 2 * rem)%N || ((p =? 2 * rem)%N && N.odd (c / p))
  end.

(** The kept part incremented or not: the coefficient after rounding away
    [k] digits. *)
Definition round_coef (r : Rounding) (c : N) (k : Z) : N :=
  let q := (c / pow10 k)%N in
  if round_up r c k then (q + 1)%N else q.

(** [self._rescale(exp, rounding)] *)
Definition _rescale (d : Decimal) (e' : Z) (r : Rounding) : Decimal :=
  match d with
  | Finite s c e =>
      if (c =? 0)%N then Finite s 0 e'
      else if e' <=? e then Finite s (c * pow10 (e - e'))%N e'
      else Finite s (round_coef r c (e' - e)) e'
  | _ => d
  end.

(** [self._fix_nan(context)]: the payload keeps at most [prec] digits. *)
Definition _fix_nan (d : Decimal) : Decimal :=
  match d with
  | NaN s sg p => NaN s sg (p mod pow10 prec)%N
  | _ => d
  end.

(** [self._fix(context)]: round to the context precision and check the
    exponent range.  Only Overflow is trapped; Rounded, Inexact, Subnormal,
    Underflow and Clamped only set flags. *)
Definition _fix (d : Decimal) : result Signal Decimal :=
  match d with
  | NaN _ _ _ => Ok (_fix_nan d)
  | Infinity _ => Ok d
  | Finite s c e =>
      if (c =? 0)%N then Ok (Finite s 0 (Z.min (Z.max e Etiny) Emax))
      else
        let exp_min := ndigits c + e - prec in
        if Etop <? exp_min then Raise Overflow
        else
          let exp_min := Z.max exp_min Etiny in
          if e <? exp_min then
            let up := round_up ctx_rounding c (exp_min - e) in
            let q := round_coef ctx_rounding c (exp_min - e) in
            let carry := up && (prec <? ndigits q) in
            let q' := if carry then (q / 10)%N else q in
            let e' := if carry then exp_min + 1 else exp_min in
            if Etop <? e' then Raise Overflow else Ok (Finite s q' e')
          else Ok d
  end.

(** [self._check_nans(other, context)]: [Some] when an operand is a NaN. *)
Definition _check_nans (a b : Decimal) : option (result Signal Decimal) :=
  match a, b with
  | NaN _ true _, _ => Some (Raise InvalidOperation)
  | _, NaN _ true _ => Some (Raise InvalidOperation)
  | NaN _ false _, _ => Some (Ok (_fix_nan a))
  | _, NaN _ false _ => Some (Ok (_fix_nan b))
  | _, _ => None
  end.

(** [_normalize(op1, op2, prec)]: both coefficients brought to a common
    exponent; an operand too small to matter is replaced by a one just
    below the precision of the other. *)
Definition _normalize (c1 : N) (e1 : Z) (c2 : N) (e2 : Z) : N * N * Z :=
  if e1 <? e2 then
    let exp := e2 + Z.min (-1) (ndigits c2 - prec - 2) in
    let '(c1', e1') :=
      if ndigits c1 + e1 - 1 <? exp then (1%N, exp) else (c1, e1) in
    (c1', (c2 * pow10 (e2 - e1'))%N, e1')
  else
    let exp := e1 + Z.min (-1) (ndigits c1 - prec - 2) in
    let '(c2', e2') :=
      if ndigits c2 + e2 - 1 <? exp then (1%N, exp) else (c2, e2) in
    ((c1 * pow10 (e1 - e2'))%N, c2', e2').

(** [self + other] *)
Definition add (a b : Decimal) : result Signal Decimal :=
  match _check_nans a b with
  | Some r => r
  | None =>
      match a, b with
      | Infinity sa, Infinity sb =>
          if Bool.eqb sa sb then Ok a else Raise InvalidOperation
      | Infinity _, _ => Ok a
      | _, Infinity _ => Ok b
      | Finite sa ca ea, Finite sb cb eb =>
          let exp := Z.min ea eb in
          if (ca =? 0)%N && (cb =? 0)%N then _fix (Finite (sa && sb) 0 exp)
          else if (ca =? 0)%N then
            _fix (_rescale b (Z.max exp (eb - prec - 1)) ctx_rounding)
          else if (cb =? 0)%N then
            _fix (_rescale a (Z.max exp (ea - prec - 1)) ctx_rounding)
          else
            let '(ca', cb', e') := _normalize ca ea cb eb in
            if Bool.eqb sa sb then _fix (Finite sa (ca' + cb')%N e')
            else if (ca' =? cb')%N then _fix (Finite false 0 exp)
            else if (ca' <? cb')%N then _fix (Finite sb (cb' - ca')%N e')
            else _fix (Finite sa (ca' - cb')%N e')
      | _, _ => Ok a
      end
  end.

(** [self * other] *)
Definition mul (a b : Decimal) : result Signal Decimal :=
  match _check_nans a b with
  | Some r => r
  | None =>
      match a, b with
      | Infinity sa, Infinity sb => Ok (Infinity (xorb sa sb))
      | Infinity sa, Finite sb cb _ =>
          if (cb =? 0)%N then Raise InvalidOperation
          else Ok (Infinity (xorb sa sb))
      | Finite sa ca _, Infinity sb =>
          if (ca =? 0)%N then Raise InvalidOperation
          else Ok (Infinity (xorb sa sb))
      | Finite sa ca ea, Finite sb cb eb =>
          _fix (Finite (xorb sa sb) (ca * cb)%N (ea + eb))
      | _, _ => Ok a
      end
  end.

(** [self.quantize(exp, rounding=r)] *)
Definition quantize (a q : Decimal) (r : Rounding) : result Signal Decimal :=
  match _check_nans a q with
  | Some res => res
  | None =>
      match a, q with
      | Infinity _, Infinity _ => Ok a
      | Infinity _, _ => Raise InvalidOperation
      | _, Infinity _ => Raise InvalidOperation
      | Finite s c e, Finite _ _ eq =>
          if negb ((Etiny <=? eq) && (eq <=? Emax)) then Raise InvalidOperation
          else if (c =? 0)%N then _fix (Finite s 0 eq)
          else if Emax <? adjusted c e then Raise InvalidOperation
          else if prec <? adjusted c e - eq + 1 then Raise InvalidOperation
          else
            match _rescale a eq r with
            | Finite s' c' e' =>
                if Emax <? adjusted c' e' then Raise InvalidOperation
                else if prec <? ndigits c' then Raise InvalidOperation
                else _fix (Finite s' c' e')
            | other => Ok other
            end
      | _, _ => Ok a
      end
  end.

(** [self <= 0]: comparing a NaN signals InvalidOperation. *)
Definition le_zero (a : Decimal) : result Signal bool :=
  match a with
  | NaN _ _ _ => Raise InvalidOperation
  | Infinity s => Ok s
  | Finite s c _ => Ok ((c =? 0)%N || s)
  end.

Definition sign_str (s : bool) : string := if s then "-"%string else EmptyString.

(** The two ways [format] fails: the [ValueError] of the C library
    ("format specification exceeds internal limits of _decimal") and
    [MemoryError]. *)
Inductive FormatError : Type := ExceedsLimits | NoMemory.

(** [MPD_MAX_PREC] of the C library on a 64-bit build. *)
Definition MPD_MAX_PREC : Z := 999999999999999999.

(** The digits the allocator grants to one number: the [Emax + 3] that a
    number of the context needs when it is written in full, and [heap]
    more. *)
Definition max_digits (heap : N) : Z := Emax + 3 + Z.of_N heap.

(** [format(self, ".2f")]: the value is rescaled to two places with the
    rounding of the context, whatever its number of digits.  A coefficient
    that is not zero and has to be shifted left by [e + 2] places then has
    [ndigits c + (e + 2)] digits: the library refuses more than
    [MPD_MAX_PREC + 1] of them before it allocates, and the allocator
    refuses more than [max_digits heap]. *)
Definition format_2f (heap : N) (d : Decimal) : result FormatError string :=
  match d with
  | NaN s sg p =>
      Ok (sign_str s ++ (if sg then "sNaN" else "NaN")
          ++ (if (p =? 0)%N then EmptyString else str_of_N p))%string
  | Infinity s => Ok (sign_str s ++ "Infinity")%string
  | Finite _ c e =>
      let shift := e - -2 in
      if negb (c =? 0)%N && (0 <=? shift) && (MPD_MAX_PREC + 1 <? ndigits c + shift)
      then Raise ExceedsLimits
      else if negb (c =? 0)%N && (0 <? shift) && (max_digits heap <? ndigits c + shift)
      then Raise NoMemory
      else
        match _rescale d (-2) ctx_rounding with
        | Finite s q _ =>
            Ok (sign_str s ++ str_of_N (q / 100) ++ "." ++ zfill 2 (q mod 100))%string
        | _ => Ok EmptyString
        end
  end.

(** The coefficient [_rescale] gives a finite number at exponent [-2]. *)
Definition cents (r : Rounding) (c : N) (e : Z) : N :=
  if (c =? 0)%N then 0%N
  else if -2 <=? e then (c * pow10 (e - -2))%N
  else round_coef r c (-2 - e).

(** ** [Decimal(text)]

    The text is stripped, underscores are dropped, and the remainder must
    match the numeric-string pattern of the module (sign, digits with an
    optional point and exponent, or Inf/Infinity, or NaN/sNaN with a
    payload; letters in either case).  [None] is the InvalidOperation the
    constructor raises. *)

(** The bounds of the exact constructor of the C implementation on a
    64-bit build: MAX_EMAX, and the Etiny of the maximal context. *)
Definition MAX_EMAX : Z := 999999999999999999.
Definition MIN_ETINY : Z := -1999999999999999997.

Definition split_sign (s : string) : bool * string :=
  match s with
  | String "-" r => (true, r)
  | String "+" r => (false, r)
  | _ => (false, s)
  end.

Definition nonempty (s : string) : bool :=
  match s with EmptyString => false | _ => true end.

(** What follows the letter E: [[-+]?\d+] up to the end of the text. *)
Definition parse_exponent (s : string) : option Z :=
  let (neg, r) := split_sign s in
  if nonempty r && all_digits r
  then Some (if neg then - Z.of_N (int_of_digits r) else Z.of_N (int_of_digits r))
  else None.

Definition within_limits (c : N) (e : Z) : bool :=
  (MIN_ETINY <=? e)
  && (if (c =? 0)%N then e <=? MAX_EMAX else adjusted c e <=? MAX_EMAX).

Definition parse_number (sg : bool) (s : string) : option Decimal :=
  let (ip, r1) := span_digits s in
  let (fp, r2) :=
    match r1 with
    | String "." t => span_digits t
    | _ => (EmptyString, r1)
    end in
  if nonempty ip || nonempty fp then
    let ex :=
      match r2 with
      | EmptyString => Some 0
      | String c t =>
          if Ascii.eqb (lower_char c) "e" then parse_exponent t else None
      end in
    match ex with
    | Some x =>
        let c := int_of_digits (ip ++ fp) in
        let e := x - Z.of_nat (String.length fp) in
        if within_limits c e then Some (Finite sg c e) else None
    | None => None
    end
  else None.

Definition parse_special (sg : bool) (s : string) : option Decimal :=
  let l := lower s in
  if String.eqb l "inf" || String.eqb l "infinity" then Some (Infinity sg)
  else
    match l with
    | String "n" (String "a" (String "n" diag)) =>
        if all_digits diag then Some (NaN sg false (int_of_digits diag)) else None
    | String "s" (String "n" (String "a" (String "n" diag))) =>
        if all_digits diag then Some (NaN sg true (int_of_digits diag)) else None
    | _ => None
    end.

Definition Decimal_of_string (s : string) : option Decimal :=
  let (sg, r) := split_sign (remove_char "_" (strip s)) in
  match parse_number sg r with
  | Some d => Some d
  | None => parse_special sg r
  end.

End PyDecimal.

(* ===================================================================== *)
(** * [app/main.py] *)
(* ===================================================================== *)

Module App.

Import PyStr PyDate PyDecimal.

(** The exceptions that occur: [HTTPException(status_code, detail)], the
    two trapped signals of [decimal], [csv.Error], and the [ValueError] and
    [MemoryError] of [format]. *)
Inductive PyExn : Type :=
| HTTPException (status_code : Z) (detail : string)
| DecimalException (sig : Signal)
| CsvError (msg : string)
| ValueError (msg : string)
| MemoryError.

Definition bind {E A B} (x : result E A) (f : A -> result E B) : result E B :=
  match x with
  | Ok a => f a
  | Raise e => Raise e
  end.

(** A [decimal] operation inside application code: a trapped signal is an
    exception. *)
Definition lift {A} (x : result Signal A) : result PyExn A :=
  match x with
  | Ok a => Ok a
  | Raise sg => Raise (DecimalException sg)
  end.

(** The exception a failure of [format] is in application code. *)
Definition format_exn (fe : FormatError) : PyExn :=
  match fe with
  | ExceedsLimits =>
      ValueError "format specification exceeds internal limits of _decimal"
  | NoMemory => MemoryError
  end.

(** [f"{x:.2f}"] inside application code. *)
Definition lift_format {A} (x : result FormatError A) : result PyExn A :=
  match x with
  | Ok a => Ok a
  | Raise fe => Raise (format_exn fe)
  end.

Notation "x <- c ;; k" := (bind c (fun x => k))
  (at level 61, c at next level, right associativity).

(** [type(ex).__name__] and [str(ex)] of a [decimal] exception. *)
Definition signal_name (sg : Signal) : string :=
  match sg with
  | InvalidOperation => "InvalidOperation"
  | Overflow => "Overflow"
  end.

Definition signal_str (sg : Signal) : string :=
  ("[<class 'decimal." ++ signal_name sg ++ "'>]")%string.

(** [Decimal("0")] and [Decimal("0.01")] *)
Definition Decimal_0 : Decimal := Finite false 0 0.
Definition Decimal_0_01 : Decimal := Finite false 1 (-2).

Definition tail (s : string) : string :=
  match s with
  | EmptyString => EmptyString
  | String _ t => t
  end.

(** [parse_decimal(s)]; [None] is Python's [None]. *)
Definition parse_decimal (s : option string) : result PyExn Decimal :=
  match s with
  | None => Ok Decimal_0
  | Some s =>
      let s := remove_char "," (strip s) in
      let s := if startswith "+" s then tail s else s in
      match Decimal_of_string s with
      | Some d => Ok d
      | None =>
          Raise (HTTPException 400 ("Invalid amount value: " ++ repr s))
      end
  end.

Definition DATE_FMT : string := "%m/%d/%Y".

(** [parse_date(s)] *)
Definition parse_date (s : string) : result PyExn date :=
  match strptime (strip s) DATE_FMT with
  | Some d => Ok d
  | None =>
      Raise (HTTPException 400
               ("Invalid date value (expected MM/DD/YYYY): " ++ repr s))
  end.

(** [compute_tithe(total, rate)] *)
Definition compute_tithe (total rate : Decimal) : result Signal Decimal :=
  match mul total rate with
  | Ok p => quantize p Decimal_0_01 ROUND_HALF_UP
  | Raise sg => Raise sg
  end.

(** ** The row decoder *)

Definition Row : Type := list string.

(** [enumerate(reader, start=idx)] *)
Fixpoint enumerate (idx : N) (reader : list Row) : list (N * Row) :=
  match reader with
  | [] => []
  | row :: rest => (idx, row) :: enumerate (idx + 1) rest
  end.

Definition is_empty (row : Row) : bool :=
  match row with [] => true | _ => false end.

(** [row + [empty] * (5 - len(row))] when [len(row) < 5] *)
Definition pad (row : Row) : Row :=
  if (List.length row <? 5)%nat
  then row ++ repeat EmptyString (5 - List.length row)
  else row.

(** The generator [iter_csv_rows], over the rows the reader delivers:
    blank rows are numbered but not yielded, short rows are padded. *)
Fixpoint iter_numbered (rows : list (N * Row)) : list (N * Row) :=
  match rows with
  | [] => []
  | (idx, row) :: rest =>
      if is_empty row then iter_numbered rest
      else (idx, pad row) :: iter_numbered rest
  end.

Definition iter_csv_rows (reader : list Row) : list (N * Row) :=
  iter_numbered (enumerate 1 reader).

(** ** The loop of [tithing] *)

(** One entry of [matches]. *)
Record MatchRecord : Type := mkMatch {
  m_date : string;
  m_amount : string;
  m_description : string
}.

(** The three variables the loop updates. *)
Record LoopState : Type := mkState {
  matches : list MatchRecord;
  total : Decimal;
  errors : list string
}.

(** What the loop reads and never writes. *)
Record Filter : Type := mkFilter {
  start_date : date;
  end_date : date;
  needle : string;
  case_insensitive : bool
}.

Definition field (i : nat) (fields : Row) : string := nth i fields EmptyString.

(** The body of the [try], from a total of [tot]: the total when control
    leaves the body, and how it leaves it: [Ok None] when the row is passed
    over ([continue], or the needle is absent), [Ok (Some m)] when [m] is
    appended, [Raise] when an exception leaves the body.  The amount is
    added to the total before the record is built, so that an exception of
    [format] leaves the body with the amount already added. *)
Definition try_row (heap : N) (f : Filter) (tot : Decimal) (line_no : N)
           (row : Row) : Decimal * result PyExn (option MatchRecord) :=
  let fields := firstn 5 (row ++ repeat EmptyString 5) in
  let date_str := field 0 fields in
  let amount_str := field 1 fields in
  let desc := field 4 fields in
  match parse_date date_str with
  | Raise e => (tot, if (line_no =? 1)%N then Ok None else Raise e)
  | Ok txn_date =>
      if negb (date_le (start_date f) txn_date && date_le txn_date (end_date f))
      then (tot, Ok None)
      else
        match parse_decimal (Some amount_str) with
        | Raise e => (tot, Raise e)
        | Ok amount =>
            match le_zero amount with
            | Raise sg => (tot, Raise (DecimalException sg))
            | Ok true => (tot, Ok None)
            | Ok false =>
                let description := strip desc in
                let hay := if case_insensitive f then lower description
                           else description in
                if contains (needle f) hay then
                  match add tot amount with
                  | Raise sg => (tot, Raise (DecimalException sg))
                  | Ok tot' =>
                      (tot',
                       shown <- lift_format (format_2f heap amount) ;;
                       Ok (Some (mkMatch (isoformat txn_date) shown description)))
                  end
                else (tot, Ok None)
            end
        end
  end.

(** The text appended to [errors] by the two handlers; [str] of a
    [MemoryError] is empty. *)
Definition error_line (line_no : N) (e : PyExn) : string :=
  match e with
  | HTTPException _ detail =>
      ("Line " ++ str_of_N line_no ++ ": " ++ detail)%string
  | DecimalException sg =>
      ("Line " ++ str_of_N line_no ++ ": " ++ signal_name sg ++ ": "
       ++ signal_str sg)%string
  | CsvError msg =>
      ("Line " ++ str_of_N line_no ++ ": Error: " ++ msg)%string
  | ValueError msg =>
      ("Line " ++ str_of_N line_no ++ ": ValueError: " ++ msg)%string
  | MemoryError =>
      ("Line " ++ str_of_N line_no ++ ": MemoryError: ")%string
  end.

(** One iteration of the [for] loop. *)
Definition step (heap : N) (f : Filter) (st : LoopState) (nr : N * Row)
  : LoopState :=
  let (line_no, row) := nr in
  let (tot', outcome) := try_row heap f (total st) line_no row in
  match outcome with
  | Ok None => mkState (matches st) tot' (errors st)
  | Ok (Some m) => mkState (matches st ++ [m]) tot' (errors st)
  | Raise e => mkState (matches st) tot' (errors st ++ [error_line line_no e])
  end.

Definition init_state : LoopState := mkState [] Decimal_0 [].

Definition run_from (heap : N) (f : Filter) (st : LoopState)
           (rows : list (N * Row)) : LoopState :=
  fold_left (step heap f) rows st.

(** The whole loop over what the reader delivers. *)
Definition run (heap : N) (f : Filter) (reader : list Row) : LoopState :=
  run_from heap f init_state (iter_csv_rows reader).

(** ** The endpoint [POST /tithing] *)

Inductive Format : Type := json | csv.

(** The arguments of [tithing] after FastAPI has validated them.  [rate]
    is a float in the source and enters the computation only as
    [Decimal(str(rate))], which is [rate_dec] here, and as
    [int(rate*100)] in a column title, which is [rate_pct]. *)
Record Request : Type := mkRequest {
  file : list Byte.byte;
  start : string;
  end_ : string;
  desc_contains : string;
  rate_dec : Decimal;
  rate_pct : N;
  req_case_insensitive : bool;
  format : Format
}.

Record Filters : Type := mkFilters {
  f_start : string;
  f_end : string;
  f_desc_contains : string;
  f_rate : Decimal;
  f_case_insensitive : bool
}.

(** The dictionary given to [JSONResponse]. *)
Record JsonBody : Type := mkJson {
  filters : Filters;
  count : nat;
  total_deposits : string;
  tithe : string;
  rows : list MatchRecord;
  json_errors : list string
}.

(** A response: the JSON body, or the rows written by [csv.writer] in
    the order of the [writerow] calls. *)
Inductive Response : Type :=
| JSONResponse (body : JsonBody)
| StreamingResponse (written : list Row).

(** One [writerow] of the loop over [matches]. *)
Definition report_row (heap : N) (rate : Decimal) (r : MatchRecord)
  : result PyExn Row :=
  match Decimal_of_string (m_amount r) with
  | None => Raise (DecimalException InvalidOperation)
  | Some amt =>
      per <- lift (compute_tithe amt rate) ;;
      amt_shown <- lift_format (format_2f heap amt) ;;
      per_shown <- lift_format (format_2f heap per) ;;
      Ok [m_date r; amt_shown; m_description r; per_shown]
  end.

Fixpoint report_rows (heap : N) (rate : Decimal) (ms : list MatchRecord)
  : result PyExn (list Row) :=
  match ms with
  | [] => Ok []
  | r :: rest =>
      row <- report_row heap rate r ;;
      more <- report_rows heap rate rest ;;
      Ok (row :: more)
  end.

Definition header (pct : N) : Row :=
  ["date"; "amount"; "description";
   "tithe_" ++ str_of_N pct ++ "pct_per_row"]%string.

Definition total_row (heap : N) (tot tithe_ : Decimal) : result PyExn Row :=
  tot_shown <- lift_format (format_2f heap tot) ;;
  tithe_shown <- lift_format (format_2f heap tithe_) ;;
  Ok ["TOTAL"%string; tot_shown; EmptyString; tithe_shown].

Section Endpoint.

(** The digits the allocator grants beyond [Emax + 3]. *)
Variable heap : N.

(** [csv.reader(io.StringIO(file_bytes.decode("utf-8-sig", errors="replace")))]
    read to its end: the rows delivered and, when the reader raised
    [csv.Error] after them, its message. *)
Variable csv_reader : list Byte.byte -> list Row * option string.

(** The filter the loop works with, once the bounds are parsed. *)
Definition filter_of (rq : Request) (s e : date) : Filter :=
  mkFilter s e
    (if req_case_insensitive rq then lower (desc_contains rq)
     else desc_contains rq)
    (req_case_insensitive rq).

(** [tithing(...)]: a response, or the exception that leaves the
    function; [HTTPException 400] is the rejection of the request, any
    other exception is a failure of the server. *)
Definition tithing (rq : Request) : result PyExn Response :=
  match strptime (start rq) "%Y-%m-%d", strptime (end_ rq) "%Y-%m-%d" with
  | Some start_d, Some end_d =>
      if date_lt end_d start_d
      then Raise (HTTPException 400 "end must be on/after start")
      else
        match file rq with
        | [] => Raise (HTTPException 400 "Empty upload")
        | data =>
            let f := filter_of rq start_d end_d in
            let (reader, failure) := csv_reader data in
            let st := run heap f reader in
            match failure with
            | Some msg => Raise (CsvError msg)
            | None =>
                tithe_ <- lift (compute_tithe (total st) (rate_dec rq)) ;;
                match format rq with
                | csv =>
                    body <- report_rows heap (rate_dec rq) (matches st) ;;
                    last_row <- total_row heap (total st) tithe_ ;;
                    Ok (StreamingResponse
                          (header (rate_pct rq) :: body ++ [[]; last_row]))
                | json =>
                    tot_shown <- lift_format (format_2f heap (total st)) ;;
                    tithe_shown <- lift_format (format_2f heap tithe_) ;;
                    Ok (JSONResponse
                          (mkJson
                             (mkFilters (isoformat start_d) (isoformat end_d)
                                (desc_contains rq) (rate_dec rq)
                                (req_case_insensitive rq))
                             (List.length (matches st))
                             tot_shown
                             tithe_shown
                             (matches st)
                             (errors st)))
                end
            end
        end
  | _, _ => Raise (HTTPException 400 "Dates must be in YYYY-MM-DD format")
  end.

End Endpoint.

End App.

(* ===================================================================== *)
(** * Rounding to cents, as the specification words it *)
(* ===================================================================== *)

Module RoundSpec.

Import PyStr PyDecimal.

(** A finite decimal of coefficient [c] and exponent [e] has magnitude
    [c * 10^e]; in cents that is the fraction [c * num e / den e]. *)
Definition num (e : Z) : N := pow10 (e + 2).
Definition den (e : Z) : N := pow10 (- (e + 2)).

(** [n] cents is the magnitude rounded half up: [n <= y + 1/2 < n + 1]
    for [y] the magnitude in cents, so a tie goes to the larger
    magnitude. *)
Definition is_half_up (c : N) (e : Z) (n : N) : Prop :=
  (2 * n * den e <= 2 * c * num e + den e
   /\ 2 * c * num e + den e < (2 * n + 2) * den e)%N.

(** [n] cents is the magnitude rounded half even: [n] is nearest,
    [n - 1/2 <= y <= n + 1/2], and on a tie [n] is even. *)
Definition is_half_even (c : N) (e : Z) (n : N) : Prop :=
  (2 * n * den e <= 2 * c * num e + den e
   /\ 2 * c * num e <= (2 * n + 1) * den e
   /\ ((2 * c * num e + den e = 2 * n * den e
        \/ 2 * c * num e = (2 * n + 1) * den e) -> N.even n = true))%N.

(** An amount of [n] cents with its sign, written with two decimals. *)
Definition render_cents (s : bool) (n : N) : string :=
  (sign_str s ++ str_of_N (n / 100) ++ "." ++ zfill 2 (n mod 100))%string.

End RoundSpec.


(* ===================================================================== *)
(** * The vocabulary of the specification *)
(* ===================================================================== *)

Module Spec.

Import PyStr PyDate PyDecimal App RoundSpec.

(** The three fields of a row the pipeline consults; a field the row
    lacks reads as the empty text. *)
Definition date_text (row : Row) : string := nth 0 row EmptyString.
Definition amount_text (row : Row) : string := nth 1 row EmptyString.
Definition description_text (row : Row) : string := nth 4 row EmptyString.

(** The 1-based line number of the row that follows the rows [pre]. *)
Definition line_of (pre : list Row) : N := N.of_nat (List.length pre) + 1.

(** The date lies in the inclusive range of the filter. *)
Definition in_range (f : Filter) (d : date) : bool :=
  date_le (start_date f) d && date_le d (end_date f).

(** A strictly positive amount: a positive finite number or +Infinity. *)
Definition positive (a : Decimal) : bool :=
  match a with
  | Finite false c _ => negb (c =? 0)%N
  | Infinity false => true
  | _ => false
  end.

(** The description as it is searched: trimmed, and in lower case under
    the case-insensitive rule. *)
Definition haystack (f : Filter) (row : Row) : string :=
  let d := strip (description_text row) in
  if case_insensitive f then lower d else d.

(** A row with a date in range, a strictly positive amount and a
    description containing the needle. *)
Definition qualifies (f : Filter) (row : Row) : bool :=
  match parse_date (date_text row), parse_decimal (Some (amount_text row)) with
  | Ok d, Ok a =>
      in_range f d && positive a && contains (needle f) (haystack f row)
  | _, _ => false
  end.

(** The strictly positive amount of a row can be entered: it can be added
    to the total [t] and written with two decimals. *)
Definition enters (heap : N) (t : Decimal) (row : Row) : bool :=
  match parse_decimal (Some (amount_text row)) with
  | Ok a =>
      match add t a, format_2f heap a with
      | Ok _, Ok _ => true
      | _, _ => false
      end
  | Raise _ => false
  end.


(** The elements [x] of [rows] that satisfy [p pre x], where [pre] holds
    the elements before [x]; the order is kept. *)
Fixpoint chosen_from {A : Type} (p : list A -> A -> bool) (pre rows : list A)
  : list A :=
  match rows with
  | [] => []
  | x :: rest =>
      if p pre x then x :: chosen_from p (pre ++ [x]) rest
      else chosen_from p (pre ++ [x]) rest
  end.

Definition chosen {A : Type} (p : list A -> A -> bool) (rows : list A) : list A :=
  chosen_from p [] rows.

(** The row [row], read after the rows [pre], qualifies and its amount
    can be entered. *)
Definition entered (heap : N) (f : Filter) (pre : list Row) (row : Row) : bool :=
  qualifies f row && enters heap (total (run heap f pre)) row.

(** The match record of a row whose date and amount parse and whose amount
    can be written with two decimals. *)
Definition record_of (heap : N) (row : Row) : MatchRecord :=
  match parse_date (date_text row), parse_decimal (Some (amount_text row)) with
  | Ok d, Ok a =>
      match format_2f heap a with
      | Ok shown => mkMatch (isoformat d) shown (strip (description_text row))
      | Raise _ => mkMatch EmptyString EmptyString EmptyString
      end
  | _, _ => mkMatch EmptyString EmptyString EmptyString
  end.

(** The running total is a finite number or +Infinity. *)
Definition good_total (t : Decimal) : Prop :=
  match t with
  | Finite _ _ _ => True
  | Infinity s => s = false
  | NaN _ _ _ => False
  end.

(** A match record whose amount text is the [.2f] format of a strictly
    positive amount. *)
Definition amount_shown (heap : N) (r : MatchRecord) : Prop :=
  exists a, positive a = true /\ format_2f heap a = Ok (m_amount r).

(** The diagnostic of a row whose addition to the total overflowed. *)
Definition overflow_line (n : N) : string :=
  error_line n (DecimalException Overflow).

(** A rate in [0, 1]: a finite decimal, not negative (a negative zero is
    a zero), of magnitude at most one. *)
Definition valid_rate (r : Decimal) : bool :=
  match r with
  | Finite s c e => ((c =? 0)%N || negb s) && (c * pow10 e <=? pow10 (- e))%N
  | _ => false
  end.

(** The state of the loop when it ends, for a request whose bounds
    parse. *)
Definition final_state (heap : N)
           (csv_reader : list Byte.byte -> list Row * option string)
           (rq : Request) : option LoopState :=
  match strptime (start rq) "%Y-%m-%d", strptime (end_ rq) "%Y-%m-%d" with
  | Some s, Some e =>
      Some (run heap (filter_of rq s e) (fst (csv_reader (file rq))))
  | _, _ => None
  end.

(** The tithe and the total a response shows: the fields [tithe] and
    [total_deposits] of the JSON body, the last and the second column of
    the TOTAL row of the CSV report. *)
Definition reported_tithe (r : Response) : string :=
  match r with
  | JSONResponse b => tithe b
  | StreamingResponse w => nth 3 (last w []) EmptyString
  end.

Definition reported_total (r : Response) : string :=
  match r with
  | JSONResponse b => total_deposits b
  | StreamingResponse w => nth 1 (last w []) EmptyString
  end.

(** The rows of the CSV report between the header and the blank row. *)
Definition report_body (w : list Row) : list Row :=
  removelast (removelast (List.tl w)).

(** What a row of the detailed report is for the match record [r]: its
    amount column is the amount [q] cents that the record shows, and its
    contribution is [n] cents, the half-up rounding of the product of that
    amount and the rate as the context delivers it; [n] is the half-up
    rounding of the exact product when the coefficient of the exact product
    has at most [prec] digits. *)
Definition contribution_row (rate : Decimal) (r : MatchRecord) (row : Row)
  : Prop :=
  exists q sr cr er c e n,
    rate = Finite sr cr er
    /\ Decimal_of_string (m_amount r) = Some (Finite false q (-2))
    /\ mul (Finite false q (-2)) rate = Ok (Finite sr c e)
    /\ is_half_up c e n
    /\ (ndigits (q * cr) <= prec -> is_half_up (q * cr) (-2 + er) n)
    /\ row = [m_date r; render_cents false q; m_description r;
              render_cents sr n].

End Spec.

(* ===================================================================== *)
(** * Statements and runs used as examples *)
(* ===================================================================== *)

Module Scenario.

Import PyStr PyDate PyDecimal App.

Local Open Scope string_scope.

(** September 2025, the default needle, case-insensitive. *)
Definition september : Filter :=
  mkFilter (mkdate 2025 9 1) (mkdate 2025 9 30) "millwork dev payroll" true.

(** The same range with an empty needle. *)
Definition september_any : Filter :=
  mkFilter (mkdate 2025 9 1) (mkdate 2025 9 30) EmptyString true.

Definition header_row : Row :=
  ["Date"; "Amount"; "Type"; "Category"; "Description"].

Definition payroll_row : Row :=
  ["09/15/2025"; "1500.00"; "*"; EmptyString; "MILLWORK DEV PAYROLL #123"].

Definition debit_row : Row :=
  ["09/20/2025"; "-200.00"; "*"; EmptyString; "UNRELATED DEBIT"].

(** A deposit whose description lacks the default needle. *)
Definition other_deposit_row : Row :=
  ["09/20/2025"; "200.00"; "*"; EmptyString; "UNRELATED DEPOSIT"].

(** A deposit dated on the first day of the range. *)
Definition first_day_row : Row :=
  ["09/01/2025"; "250.00"; "*"; EmptyString; "Millwork Dev Payroll"].

(** A row whose date is not in the MM/DD/YYYY form. *)
Definition bad_date_row : Row :=
  ["2025-09-16"; "10.00"; "*"; EmptyString; "MILLWORK DEV PAYROLL"].

(** Rows whose amount is no number, dated inside and outside the range. *)
Definition bad_amount_row : Row :=
  ["09/16/2025"; "abc"; "*"; EmptyString; "MILLWORK DEV PAYROLL"].


(** A row that lacks the amount column. *)
Definition short_row : Row := ["09/15/2025"].

(** A deposit of ten to the power one million, dated on the first day of
    the range. *)
Definition huge_row : Row :=
  ["09/01/2025"; "1e1000000"; "*"; EmptyString; "MILLWORK DEV PAYROLL"].

(** Deposits of Infinity, and of ten to the power 999999999999999999,
    which the decimal constructor accepts and [format] refuses. *)
Definition infinity_row : Row :=
  ["09/15/2025"; "Infinity"; "*"; EmptyString; "MILLWORK DEV PAYROLL"].

Definition vast_row : Row :=
  ["09/01/2025"; "1e999999999999999999"; "*"; EmptyString; "MILLWORK DEV PAYROLL"].

(** A deposit of NaN. *)
Definition nan_row : Row :=
  ["09/15/2025"; "NaN"; "*"; EmptyString; "MILLWORK DEV PAYROLL"].

(** Deposits of 1234.565, of 0.125, and of 50000000000000.03. *)
Definition fraction_row : Row :=
  ["09/15/2025"; "1234.565"; "*"; EmptyString; "MILLWORK DEV PAYROLL"].

Definition eighth_row : Row :=
  ["09/15/2025"; "0.125"; "*"; EmptyString; "MILLWORK DEV PAYROLL"].

Definition trillions_row : Row :=
  ["09/15/2025"; "50000000000000.03"; "*"; EmptyString; "MILLWORK DEV PAYROLL"].

(** The statement of the specification's first scenario, after a header. *)
Definition statement : list Row := [header_row; payroll_row; debit_row].

(** A reader that delivers [rows] for any upload. *)
Definition reader_of (rows : list Row)
  : list Byte.byte -> list Row * option string :=
  fun _ => (rows, None).

(** An allocator that grants a number no more digits than the context
    needs. *)
Definition no_heap : N := 0.

(** A one-byte upload. *)
Definition upload : list Byte.byte := [Byte.x78].

(** [Decimal(str(0.1))], [Decimal(str(1/3))]. *)
Definition rate_tenth : Decimal := Finite false 1 (-1).
Definition rate_third : Decimal := Finite false 3333333333333333 (-16).

(** A request for September 2025 with the default needle. *)
Definition request (f : Format) (rate : Decimal) (pct : N) : Request :=
  mkRequest upload "2025-09-01" "2025-09-30" "MILLWORK DEV PAYROLL"
            rate pct true f.

(** The same request with an empty needle. *)
Definition any_request : Request :=
  mkRequest upload "2025-09-01" "2025-09-30" EmptyString rate_tenth 10 true json.

(** A request whose start bound is not in the YYYY-MM-DD form. *)
Definition bad_request : Request :=
  mkRequest upload "09/01/2025" "2025-09-30" "MILLWORK DEV PAYROLL"
            rate_tenth 10 true json.

End Scenario.
(* ===================================================================== *)
(** * The vocabulary of the further properties *)
(* ===================================================================== *)

Module Props.
Import PyStr PyDate PyDecimal App Spec.
Local Open Scope string_scope.
Local Open Scope list_scope.

(** A row of the reader that is not blank. *)
Definition nonblank (row : Row) : bool := negb (is_empty row).

(** A total that is neither a NaN nor negative. *)
Definition nonneg_total (t : Decimal) : Prop :=
  match t with
  | Finite s _ _ => s = false
  | Infinity s => s = false
  | NaN _ _ _ => False
  end.

(** [l] is [l'] with some elements left out, the order kept. *)
Inductive subsequence {A : Type} : list A -> list A -> Prop :=
| sub_nil : subsequence [] []
| sub_keep x l l' : subsequence l l' -> subsequence (x :: l) (x :: l')
| sub_skip x l l' : subsequence l l' -> subsequence l (x :: l').

(** The amount of the row can be written with two decimals, so that
    [record_of] is the record the loop appends for it. *)
Definition written (heap : N) (row : Row) : Prop :=
  exists a shown,
    parse_decimal (Some (amount_text row)) = Ok a
    /\ format_2f heap a = Ok shown.

(** The six forms of a diagnostic for the row on line [n]: the two
    rejections of [parse_date] and [parse_decimal], the two signals of the
    decimal context, and the two failures of [format]. *)
Definition diagnostic (n : N) (row : Row) (msg : string) : Prop :=
  (n <> 1%N
   /\ msg = "Line " ++ str_of_N n
            ++ ": Invalid date value (expected MM/DD/YYYY): "
            ++ repr (date_text row))%string
  \/ (exists t, msg = "Line " ++ str_of_N n ++ ": Invalid amount value: "
                      ++ repr t)%string
  \/ msg = ("Line " ++ str_of_N n
            ++ ": InvalidOperation: [<class 'decimal.InvalidOperation'>]")%string
  \/ msg = ("Line " ++ str_of_N n
            ++ ": Overflow: [<class 'decimal.Overflow'>]")%string
  \/ msg = ("Line " ++ str_of_N n
            ++ ": ValueError: format specification exceeds internal limits of _decimal")%string
  \/ msg = ("Line " ++ str_of_N n ++ ": MemoryError: ")%string.

(** The request with another response format. *)
Definition with_format (fmt : Format) (rq : Request) : Request :=
  mkRequest (file rq) (start rq) (end_ rq) (desc_contains rq) (rate_dec rq)
            (rate_pct rq) (req_case_insensitive rq) fmt.

(** The first three columns of a report row are those of the record. *)
Definition columns (m : MatchRecord) : Row :=
  [m_date m; m_amount m; m_description m].

(** The sum of amounts given in cents. *)
Definition sum_cents (qs : list N) : N := fold_right N.add 0%N qs.

(** The amount text of the row is a number of [q] cents written with two
    decimals. *)
Definition two_decimals (row : Row) (q : N) : Prop :=
  parse_decimal (Some (amount_text row)) = Ok (Finite false q (-2)).

(** What a match record is expected to hold under the filter: an ISO date
    inside the range, an amount with two decimals or the word Infinity, a
    trimmed description that contains the needle. *)
Definition well_formed (f : Filter) (m : MatchRecord) : Prop :=
  (exists d, strptime (m_date m) "%Y-%m-%d" = Some d /\ in_range f d = true)
  /\ (m_amount m = "Infinity"
      \/ exists q, m_amount m = RoundSpec.render_cents false q)
  /\ strip (m_description m) = m_description m
  /\ contains (needle f)
       (if case_insensitive f then lower (m_description m)
        else m_description m) = true.

(** A total the context can hold: not negative, of at most [prec] digits
    and of adjusted exponent at most [Emax]; or +Infinity. *)
Definition in_context (t : Decimal) : Prop :=
  match t with
  | Finite s c e => s = false /\ ndigits c <= prec /\ ndigits c + e - 1 <= Emax
  | Infinity s => s = false
  | NaN _ _ _ => False
  end.

(** The 256 characters. *)
Definition all_ascii : list ascii := map ascii_of_nat (seq 0 256).

End Props.

(* ===================================================================== *)
(** * Facts about the decimal arithmetic *)
(* ===================================================================== *)

Module DecimalFacts.

Import PyStr PyDecimal RoundSpec App.

Lemma pow10_pos k : (0 < pow10 k)%N.
Proof. unfold pow10. apply N.neq_0_lt_0, N.pow_nonzero. discriminate. Qed.

Lemma pow10_nonpos k : k <= 0 -> pow10 k = 1%N.
Proof.
  intros H. unfold pow10. replace (Z.to_N k) with 0%N by lia. reflexivity.
Qed.

Lemma pow10_add a b : 0 <= a -> 0 <= b -> pow10 (a + b) = (pow10 a * pow10 b)%N.
Proof.
  intros Ha Hb. unfold pow10. rewrite Z2N.inj_add by assumption.
  apply N.pow_add_r.
Qed.

Lemma pow10_succ k : 0 <= k -> pow10 (1 + k) = (10 * pow10 k)%N.
Proof. intros H. rewrite pow10_add by lia. reflexivity. Qed.

Lemma pow10_mono a b : a <= b -> (pow10 a <= pow10 b)%N.
Proof.
  intros H. unfold pow10. apply N.pow_le_mono_r; [discriminate | lia].
Qed.

Lemma ndigits_fuel_pos fuel c : 1 <= ndigits_fuel fuel c.
Proof.
  revert c. induction fuel as [|f IH]; intros c; cbn [ndigits_fuel]; [lia|].
  destruct (c <? 10)%N; [lia|]. specialize (IH (c / 10)%N). lia.
Qed.

Lemma ndigits_pos c : 1 <= ndigits c.
Proof. apply ndigits_fuel_pos. Qed.

Lemma ndigits_fuel_upper fuel c :
  (c < 2 ^ N.of_nat fuel)%N -> (c < pow10 (ndigits_fuel fuel c))%N.
Proof.
  revert c. induction fuel as [|f IH]; intros c Hc.
  - simpl in *. change (pow10 1) with 10%N. lia.
  - cbn [ndigits_fuel]. destruct (N.ltb_spec c 10) as [Hlt|Hge].
    + change (pow10 1) with 10%N. exact Hlt.
    + rewrite pow10_succ by (pose proof (ndigits_fuel_pos f (c / 10)%N); lia).
      assert (Hq : (c / 10 < 2 ^ N.of_nat f)%N).
      { rewrite Nat2N.inj_succ, N.pow_succ_r' in Hc.
        apply N.Div0.div_lt_upper_bound. lia. }
      specialize (IH _ Hq).
      pose proof (N.div_mod c 10 ltac:(discriminate)) as Hdm.
      pose proof (N.mod_lt c 10 ltac:(discriminate)) as Hm.
      lia.
Qed.

(** A coefficient is below the power of ten of its number of digits. *)
Lemma ndigits_upper c : (c < pow10 (ndigits c))%N.
Proof.
  apply ndigits_fuel_upper. rewrite N2Nat.id. apply N.size_gt.
Qed.

Lemma ndigits_bound c k : ndigits c <= k -> (c < pow10 k)%N.
Proof.
  intros H. pose proof (ndigits_upper c). pose proof (pow10_mono _ _ H). lia.
Qed.

Lemma ndigits_fuel_le fuel : forall c k,
  1 <= k -> (c < pow10 k)%N -> ndigits_fuel fuel c <= k.
Proof.
  induction fuel as [|f IH]; intros c k Hk Hc; [exact Hk|].
  cbn [ndigits_fuel]. destruct (N.ltb_spec c 10) as [Hlt|Hge]; [exact Hk|].
  assert (Hk2 : 2 <= k).
  { destruct (Z.eq_dec k 1) as [->|]; [|lia].
    change (pow10 1) with 10%N in Hc. lia. }
  replace k with (1 + (k - 1)) in Hc by lia.
  rewrite pow10_succ in Hc by lia.
  assert (Hq : (c / 10 < pow10 (k - 1))%N).
  { apply N.Div0.div_lt_upper_bound. exact Hc. }
  specialize (IH _ (k - 1) ltac:(lia) Hq). lia.
Qed.

Lemma ndigits_le c k : 1 <= k -> (c < pow10 k)%N -> ndigits c <= k.
Proof. apply ndigits_fuel_le. Qed.

Lemma ndigits_ge c k : 1 <= k -> k < ndigits c -> (pow10 k <= c)%N.
Proof.
  intros Hk H. destruct (N.le_gt_cases (pow10 k) c) as [Hle|Hgt]; [exact Hle|].
  pose proof (ndigits_le c k Hk Hgt). lia.
Qed.

(** The number of digits grows with the coefficient. *)
Lemma ndigits_mono a b : (a <= b)%N -> ndigits a <= ndigits b.
Proof.
  intros H. apply ndigits_le; [apply ndigits_pos|].
  pose proof (ndigits_upper b). lia.
Qed.

(** A coefficient other than zero is at least the power of ten below its
    number of digits. *)
Lemma ndigits_lower c : c <> 0%N -> (pow10 (ndigits c - 1) <= c)%N.
Proof.
  intros Hc. destruct (Z.eq_dec (ndigits c) 1) as [E|E].
  - rewrite E. change (pow10 (1 - 1)) with 1%N. lia.
  - pose proof (ndigits_pos c). apply ndigits_ge; lia.
Qed.

(** Appending [k] zeros to a coefficient other than zero adds [k] digits
    at the least. *)
Lemma ndigits_scale c k :
  c <> 0%N -> 0 <= k -> ndigits c + k <= ndigits (c * pow10 k).
Proof.
  intros Hc Hk.
  destruct (Z.le_gt_cases (ndigits c + k) (ndigits (c * pow10 k))) as [H|H];
    [exact H | exfalso].
  pose proof (ndigits_upper (c * pow10 k)) as Hu.
  pose proof (ndigits_lower c Hc) as Hl.
  pose proof (ndigits_pos c) as Hp.
  assert (Hm : (pow10 (ndigits (c * pow10 k)) <= pow10 (ndigits c - 1 + k))%N)
    by (apply pow10_mono; lia).
  rewrite pow10_add in Hm by lia.
  set (x := pow10 (ndigits (c * pow10 k))) in *. clearbody x.
  set (y := pow10 (ndigits c - 1)) in *. clearbody y.
  pose proof (pow10_pos k) as Hz. set (z := pow10 k) in *. clearbody z.
  nia.
Qed.

Lemma den_pos e : (0 < den e)%N.
Proof. apply pow10_pos. Qed.

Lemma num_pos e : (0 < num e)%N.
Proof. apply pow10_pos. Qed.

Lemma is_half_up_unique c e n m :
  is_half_up c e n -> is_half_up c e m -> n = m.
Proof.
  unfold is_half_up. intros [H1 H2] [H3 H4]. pose proof (den_pos e). nia.
Qed.

Lemma is_half_even_unique c e n m :
  is_half_even c e n -> is_half_even c e m -> n = m.
Proof.
  unfold is_half_even. intros (H1 & H2 & H3) (H4 & H5 & H6).
  pose proof (den_pos e) as Hd.
  destruct (N.lt_trichotomy n m) as [Hlt | [Heq | Hgt]]; [exfalso | exact Heq | exfalso].
  - assert (m = n + 1)%N by nia. subst m.
    assert (N.even n = true) by (apply H3; right; nia).
    assert (N.even (n + 1) = true) by (apply H6; left; nia).
    rewrite N.add_1_r, N.even_succ, <- N.negb_even in *. destruct (N.even n); discriminate.
  - assert (n = m + 1)%N by nia. subst n.
    assert (N.even m = true) by (apply H6; right; nia).
    assert (N.even (m + 1) = true) by (apply H3; left; nia).
    rewrite N.add_1_r, N.even_succ, <- N.negb_even in *. destruct (N.even m); discriminate.
Qed.

Lemma is_half_up_zero e n : is_half_up 0 e n <-> n = 0%N.
Proof.
  unfold is_half_up. pose proof (den_pos e). split.
  - intros [H1 H2]. nia.
  - intros ->. lia.
Qed.

Lemma rescale_cents s c e r :
  _rescale (Finite s c e) (-2) r = Finite s (cents r c e) (-2).
Proof.
  unfold _rescale, cents. destruct (c =? 0)%N; [reflexivity|].
  destruct (-2 <=? e); reflexivity.
Qed.

Lemma cents_half_up c e : is_half_up c e (cents ROUND_HALF_UP c e).
Proof.
  unfold cents. destruct (N.eqb_spec c 0) as [->|Hc].
  - apply is_half_up_zero. reflexivity.
  - unfold is_half_up, num, den. destruct (Z.leb_spec (-2) e) as [Hle|Hlt].
    + rewrite (pow10_nonpos (- (e + 2))) by lia.
      replace (e - -2) with (e + 2) by lia.
      generalize (pow10 (e + 2)); intros x; nia.
    + rewrite (pow10_nonpos (e + 2)) by lia.
      replace (- (e + 2)) with (-2 - e) by lia.
      unfold round_coef, round_up.
      pose proof (pow10_pos (-2 - e)) as Hp.
      set (p := pow10 (-2 - e)) in *; clearbody p.
      pose proof (N.div_mod c p ltac:(lia)) as Hdm.
      pose proof (N.mod_lt c p ltac:(lia)) as Hm.
      set (q := (c / p)%N) in *; clearbody q.
      set (rm := (c mod p)%N) in *; clearbody rm. subst c.
      destruct (N.leb_spec p (2 * rm)); nia.
Qed.

Lemma cents_half_even c e : is_half_even c e (cents ROUND_HALF_EVEN c e).
Proof.
  unfold cents. destruct (N.eqb_spec c 0) as [->|Hc].
  - unfold is_half_even. pose proof (den_pos e). repeat split; try lia.
  - unfold is_half_even, num, den. destruct (Z.leb_spec (-2) e) as [Hle|Hlt].
    + rewrite (pow10_nonpos (- (e + 2))) by lia.
      replace (e - -2) with (e + 2) by lia.
      generalize (pow10 (e + 2)); intros x; repeat split; try nia.
    + rewrite (pow10_nonpos (e + 2)) by lia.
      replace (- (e + 2)) with (-2 - e) by lia.
      unfold round_coef, round_up.
      pose proof (pow10_pos (-2 - e)) as Hp.
      set (p := pow10 (-2 - e)) in *; clearbody p.
      pose proof (N.div_mod c p ltac:(lia)) as Hdm.
      pose proof (N.mod_lt c p ltac:(lia)) as Hm.
      set (q := (c / p)%N) in *; clearbody q. set (rm := (c mod p)%N) in *; clearbody rm.
      subst c.
      destruct (N.ltb_spec p (2 * rm)) as [H1|H1]; cbn [orb].
      * split; [nia | split; [nia | intros [H|H]; nia]].
      * destruct (N.eqb_spec p (2 * rm)) as [H2|H2]; cbn [andb].
        -- destruct (N.odd q) eqn:Ho.
           ++ split; [nia | split; [nia | intros _]].
              rewrite N.add_1_r, N.even_succ. exact Ho.
           ++ split; [nia | split; [nia | intros _]].
              rewrite <- N.negb_odd, Ho. reflexivity.
        -- split; [nia | split; [nia | intros [H|H]; nia]].
Qed.


Lemma ctx_values :
  prec = 28 /\ Emax = 999999 /\ Emin = -999999 /\ Etiny = -1000026 /\ Etop = 999972.
Proof. repeat split. Qed.

Ltac ctx := pose proof ctx_values as (?Hprec & ?HEmax & ?HEmin & ?HEtiny & ?HEtop).

Lemma Ok_Finite_inj s c e s' c' e' :
  @Ok Signal Decimal (Finite s c e) = Ok (Finite s' c' e') ->
  s = s' /\ c = c' /\ e = e'.
Proof. intros H. inversion H. auto. Qed.

(** [_fix] leaves a number of at most [prec] digits at exponent [-2] as
    it is. *)
Lemma fix_cents s c : ndigits c <= prec -> _fix (Finite s c (-2)) = Ok (Finite s c (-2)).
Proof.
  intros Hd. unfold _fix. destruct (N.eqb_spec c 0) as [->|Hc]; [reflexivity|].
  ctx.
  destruct (Z.ltb_spec Etop (ndigits c + -2 - prec)); [lia|].
  destruct (Z.ltb_spec (-2) (Z.max (ndigits c + -2 - prec) Etiny)); [lia|].
  reflexivity.
Qed.

(** [quantize] to cents, when it returns, returns the rescaled number. *)
Lemma quantize_cents s c e r d :
  quantize (Finite s c e) Decimal_0_01 r = Ok d ->
  d = Finite s (cents r c e) (-2).
Proof.
  unfold quantize, Decimal_0_01. cbn [_check_nans].
  change (negb ((Etiny <=? -2) && (-2 <=? Emax))) with false. cbn match.
  destruct (N.eqb_spec c 0) as [->|Hc].
  - cbn. intros H. injection H as <-. reflexivity.
  - destruct (Emax <? adjusted c e); [discriminate|].
    destruct (prec <? adjusted c e - -2 + 1); [discriminate|].
    rewrite rescale_cents.
    destruct (Emax <? adjusted (cents r c e) (-2)); [discriminate|].
    destruct (Z.ltb_spec prec (ndigits (cents r c e))) as [|Hnd]; [discriminate|].
    rewrite fix_cents by assumption. intros Hq. injection Hq as <-. reflexivity.
Qed.

(** What [quantize] to cents returns has at most [prec] digits. *)
Lemma quantize_digits s c e r s' n e' :
  quantize (Finite s c e) Decimal_0_01 r = Ok (Finite s' n e') ->
  ndigits n <= prec.
Proof.
  unfold quantize, Decimal_0_01. cbn [_check_nans].
  change (negb ((Etiny <=? -2) && (-2 <=? Emax))) with false. cbn match.
  destruct (N.eqb_spec c 0) as [->|Hc].
  - cbn. intros H. injection H as <- <- <-. discriminate.
  - destruct (Emax <? adjusted c e); [discriminate|].
    destruct (prec <? adjusted c e - -2 + 1); [discriminate|].
    rewrite rescale_cents.
    destruct (Emax <? adjusted (cents r c e) (-2)); [discriminate|].
    destruct (Z.ltb_spec prec (ndigits (cents r c e))) as [|Hnd]; [discriminate|].
    rewrite fix_cents by assumption. intros Hq. injection Hq as <- <- <-.
    exact Hnd.
Qed.

(** The result of [_fix] on a finite number is finite and keeps the sign. *)
Lemma fix_finite s c e d :
  _fix (Finite s c e) = Ok d -> exists c' e', d = Finite s c' e'.
Proof.
  unfold _fix. destruct (c =? 0)%N.
  - intros H; injection H as <-. eauto.
  - destruct (Etop <? ndigits c + e - prec); [discriminate|].
    destruct (e <? Z.max (ndigits c + e - prec) Etiny).
    + match goal with |- context [if ?b then Raise _ else _] => destruct b end;
        [discriminate|].
      intros H; injection H as <-. eauto.
    + intros H; injection H as <-. eauto.
Qed.

(** A number other than zero that [_fix] accepts has an adjusted exponent
    of at most [Emax]. *)
Lemma fix_ok_fits s c e d :
  c <> 0%N -> _fix (Finite s c e) = Ok d -> ndigits c + e - 1 <= Emax.
Proof.
  intros Hc. unfold _fix. apply N.eqb_neq in Hc. rewrite Hc. ctx.
  destruct (Z.ltb_spec Etop (ndigits c + e - prec)); [discriminate|].
  intros _. lia.
Qed.

(** Far below a cent, a coefficient of at most 28 digits rounds to zero. *)
Lemma tiny_half_up c e n :
  (c <= pow10 28)%N -> e <= -100 -> (is_half_up c e n <-> n = 0%N).
Proof.
  intros Hc He. unfold is_half_up, num, den.
  rewrite (pow10_nonpos (e + 2)) by lia.
  assert (Hm : (10 * pow10 28 <= pow10 (- (e + 2)))%N).
  { rewrite <- (pow10_succ 28) by lia. apply pow10_mono. lia. }
  pose proof (pow10_pos 28) as Hp.
  revert Hc Hm Hp.
  generalize (pow10 28). generalize (pow10 (- (e + 2))).
  intros D p Hc Hm Hp. split.
  - intros [H1 H2]. nia.
  - intros ->. nia.
Qed.

Lemma round_coef_le r c k : (round_coef r c k <= c / pow10 k + 1)%N.
Proof. unfold round_coef. destruct (round_up r c k); lia. Qed.

(** When the coefficient has at most [prec] digits, what [_fix] returns
    rounds to the same number of cents as the number itself. *)
Lemma fix_exact s c e c' e' n :
  ndigits c <= prec ->
  _fix (Finite s c e) = Ok (Finite s c' e') ->
  is_half_up c' e' n -> is_half_up c e n.
Proof.
  intros Hd. unfold _fix. destruct (N.eqb_spec c 0) as [->|Hc].
  - intros H; apply Ok_Finite_inj in H as (_ & <- & <-).
    rewrite !is_half_up_zero. auto.
  - destruct (Etop <? ndigits c + e - prec); [discriminate|].
    destruct (Z.ltb_spec e (Z.max (ndigits c + e - prec) Etiny)) as [Hlt|Hge].
    + assert (He : e < Etiny) by lia.
      rewrite (Z.max_r (ndigits c + e - prec) Etiny) by lia.
      match goal with |- context [if ?b then Raise _ else _] => destruct b end;
        [discriminate|].
      intros H; apply Ok_Finite_inj in H as (_ & <- & <-).
      pose proof (ndigits_bound c 28 Hd) as Hc28.
      pose proof (round_coef_le ctx_rounding c (Etiny - e)) as Hr.
      assert (Hq' : (c / pow10 (Etiny - e) <= c)%N).
      { apply N.Div0.div_le_upper_bound. pose proof (pow10_pos (Etiny - e)). nia. }
      set (q := round_coef ctx_rounding c (Etiny - e)) in *.
      assert (Hqb : (q <= pow10 28)%N) by lia.
      assert (Hq10 : (q / 10 <= pow10 28)%N).
      { pose proof (N.Div0.div_le_upper_bound q 10 q). lia. }
      ctx.
      intros Hn. apply tiny_half_up; [lia | lia |].
      destruct (round_up ctx_rounding c (Etiny - e) && (prec <? ndigits q));
        apply tiny_half_up in Hn; auto; lia.
    + intros H; apply Ok_Finite_inj in H as (_ & <- & <-). auto.
Qed.

(** [compute_tithe] on finite operands, when it returns: the product as
    the context delivers it, rounded half up to cents; and, when the
    coefficient of the exact product has at most 28 digits, the exact
    product rounded half up to cents. *)
Lemma compute_tithe_finite sa ca ea sb cb eb d :
  compute_tithe (Finite sa ca ea) (Finite sb cb eb) = Ok d ->
  exists c e n,
    mul (Finite sa ca ea) (Finite sb cb eb) = Ok (Finite (xorb sa sb) c e)
    /\ d = Finite (xorb sa sb) n (-2)
    /\ is_half_up c e n
    /\ (ndigits (ca * cb) <= prec -> is_half_up (ca * cb) (ea + eb) n).
Proof.
  unfold compute_tithe, mul. cbn [_check_nans].
  destruct (_fix (Finite (xorb sa sb) (ca * cb) (ea + eb))) as [p|sg] eqn:Hfix;
    [|discriminate].
  destruct (fix_finite _ _ _ _ Hfix) as (c & e & ->).
  intros Hq. apply quantize_cents in Hq. subst d.
  exists c, e, (cents ROUND_HALF_UP c e).
  split; [reflexivity | split; [reflexivity | split]].
  - apply cents_half_up.
  - intros Hd. eapply fix_exact; eauto. apply cents_half_up.
Qed.

(** The tithe has at most [prec] digits. *)
Lemma compute_tithe_digits sa ca ea sb cb eb s n e :
  compute_tithe (Finite sa ca ea) (Finite sb cb eb) = Ok (Finite s n e) ->
  ndigits n <= prec.
Proof.
  unfold compute_tithe, mul. cbn [_check_nans].
  destruct (_fix (Finite (xorb sa sb) (ca * cb) (ea + eb))) as [p|sg] eqn:Hfix;
    [|discriminate].
  destruct (fix_finite _ _ _ _ Hfix) as (c & e0 & ->).
  apply quantize_digits.
Qed.

End DecimalFacts.

(* ===================================================================== *)
(** * Facts about the row decoder and the loop *)
(* ===================================================================== *)

Module LoopFacts.

Import PyStr PyDate PyDecimal RoundSpec App Spec Props DecimalFacts.

(** ** The row decoder *)

Lemma enumerate_app i a b :
  enumerate i (a ++ b) = enumerate i a ++ enumerate (i + N.of_nat (List.length a)) b.
Proof.
  revert i. induction a as [|x a IH]; intros i.
  - cbn. f_equal. lia.
  - cbn [enumerate app List.length]. rewrite IH. cbn. do 3 f_equal. lia.
Qed.

Lemma iter_numbered_app a b :
  iter_numbered (a ++ b) = iter_numbered a ++ iter_numbered b.
Proof.
  induction a as [|[i r] a IH]; [reflexivity|].
  cbn [iter_numbered app]. destruct (is_empty r); rewrite IH; reflexivity.
Qed.

Lemma iter_csv_rows_split pre row post :
  iter_csv_rows (pre ++ row :: post)
  = iter_csv_rows pre ++ iter_numbered [(line_of pre, row)]
    ++ iter_numbered (enumerate (line_of pre + 1) post).
Proof.
  unfold iter_csv_rows, line_of. rewrite enumerate_app, iter_numbered_app.
  f_equal. cbn [enumerate].
  replace (1 + N.of_nat (List.length pre))%N
    with (N.of_nat (List.length pre) + 1)%N by lia.
  cbn [iter_numbered app]. destruct (is_empty row); reflexivity.
Qed.

(** The five fields the loop takes are the first five of the row, an
    absent one being the empty text. *)
Lemma fields_of_row' row i :
  (i < 5)%nat ->
  field i (firstn 5 (row ++ repeat EmptyString 5)) = nth i row EmptyString.
Proof.
  intros Hi. unfold field.
  destruct row as [|a [|b [|c [|d [|e r]]]]];
    do 5 (destruct i as [|i]; [reflexivity|]); lia.
Qed.

(** ** The loop *)

Lemma run_from_app heap f st a b :
  run_from heap f st (a ++ b) = run_from heap f (run_from heap f st a) b.
Proof. apply fold_left_app. Qed.

Lemma step_frame heap f m t e nr :
  step heap f (mkState m t e) nr
  = mkState (m ++ matches (step heap f (mkState [] t []) nr))
            (total (step heap f (mkState [] t []) nr))
            (e ++ errors (step heap f (mkState [] t []) nr)).
Proof.
  unfold step. destruct nr as [n row]. cbn [total matches errors].
  destruct (try_row heap f t n row) as [t' [[mr|]|ex]]; cbn [total matches errors];
    rewrite ?app_nil_r; reflexivity.
Qed.

(** What the loop does from a state depends on its total alone; the
    matches and the diagnostics it finds are appended to those present. *)
Lemma run_from_frame heap f rows : forall m t e,
  run_from heap f (mkState m t e) rows
  = mkState (m ++ matches (run_from heap f (mkState [] t []) rows))
            (total (run_from heap f (mkState [] t []) rows))
            (e ++ errors (run_from heap f (mkState [] t []) rows)).
Proof.
  induction rows as [|nr rows IH]; intros m t e.
  - cbn. rewrite !app_nil_r. reflexivity.
  - change (run_from heap f ?s (nr :: rows)) with (run_from heap f (step heap f s nr) rows).
    rewrite (step_frame heap f m t e nr).
    destruct (step heap f (mkState [] t []) nr) as [m1 t1 e1]. cbn [total matches errors].
    rewrite (IH (m ++ m1) t1 (e ++ e1)), (IH m1 t1 e1).
    cbn [total matches errors]. rewrite !app_assoc. reflexivity.
Qed.

Lemma run_split heap f pre row post :
  run heap f (pre ++ row :: post)
  = run_from heap f (run_from heap f (run heap f pre) (iter_numbered [(line_of pre, row)]))
      (iter_numbered (enumerate (line_of pre + 1) post)).
Proof.
  unfold run. rewrite iter_csv_rows_split, !run_from_app. reflexivity.
Qed.

Lemma run_blank heap f pre post :
  run heap f (pre ++ [] :: post)
  = run_from heap f (run heap f pre) (iter_numbered (enumerate (line_of pre + 1) post)).
Proof. rewrite run_split. reflexivity. Qed.

Lemma run_row heap f pre row post :
  row <> [] ->
  run heap f (pre ++ row :: post)
  = run_from heap f (step heap f (run heap f pre) (line_of pre, pad row))
      (iter_numbered (enumerate (line_of pre + 1) post)).
Proof.
  intros Hrow. rewrite run_split. destruct row; [congruence | reflexivity].
Qed.

Lemma firstn_pad row :
  firstn 5 (pad row ++ repeat EmptyString 5)
  = firstn 5 (row ++ repeat EmptyString 5).
Proof.
  unfold pad. destruct row as [|a [|b [|c [|d [|e r]]]]]; reflexivity.
Qed.

Lemma try_row_pad heap f t n row : try_row heap f t n (pad row) = try_row heap f t n row.
Proof. unfold try_row. rewrite firstn_pad. reflexivity. Qed.

(** The body of the loop in the vocabulary of the specification. *)
Lemma try_row_eq heap f t n row :
  try_row heap f t n row =
  match parse_date (date_text row) with
  | Raise e => (t, if (n =? 1)%N then Ok None else Raise e)
  | Ok d =>
      if negb (in_range f d) then (t, Ok None)
      else
        match parse_decimal (Some (amount_text row)) with
        | Raise e => (t, Raise e)
        | Ok amount =>
            match le_zero amount with
            | Raise sg => (t, Raise (DecimalException sg))
            | Ok true => (t, Ok None)
            | Ok false =>
                if contains (needle f) (haystack f row) then
                  match add t amount with
                  | Raise sg => (t, Raise (DecimalException sg))
                  | Ok t' =>
                      (t',
                       shown <- lift_format (format_2f heap amount) ;;
                       Ok (Some (mkMatch (isoformat d) shown
                                   (strip (description_text row)))))
                  end
                else (t, Ok None)
            end
        end
  end.
Proof.
  unfold try_row, date_text, amount_text, description_text, haystack, in_range.
  rewrite !fields_of_row' by lia. reflexivity.
Qed.

Lemma positive_le_zero a : positive a = true <-> le_zero a = Ok false.
Proof.
  destruct a as [[|] c e|[|]|s sg p]; cbn; try (split; congruence).
  - rewrite orb_true_r. split; congruence.
  - rewrite orb_false_r. destruct (c =? 0)%N; cbn; split; congruence.
Qed.

Lemma not_positive_le_zero a :
  positive a = false -> le_zero a = Ok true \/ le_zero a = Raise InvalidOperation.
Proof.
  destruct a as [[|] c e|[|]|s sg p]; cbn; auto.
  - rewrite orb_true_r. auto.
  - rewrite orb_false_r. destruct (c =? 0)%N; cbn; auto; discriminate.
  - discriminate.
Qed.

Lemma fix_raise d sg : _fix d = Raise sg -> sg = Overflow.
Proof.
  destruct d as [s c e| |]; cbn [_fix]; try discriminate.
  destruct (c =? 0)%N; [discriminate|].
  destruct (Etop <? ndigits c + e - prec); [congruence|].
  destruct (e <? Z.max (ndigits c + e - prec) Etiny); [|discriminate].
  match goal with |- context [if ?b then Raise _ else _] => destruct b end;
    [congruence | discriminate].
Qed.

Lemma fix_good s c e d : _fix (Finite s c e) = Ok d -> good_total d.
Proof. intros H. apply fix_finite in H as (c' & e' & ->). exact I. Qed.

Lemma rescale_finite s c e e' r :
  exists c', _rescale (Finite s c e) e' r = Finite s c' e'.
Proof.
  unfold _rescale. destruct (c =? 0)%N; [eauto|]. destruct (e' <=? e); eauto.
Qed.

(** Adding a strictly positive amount to a good total gives a good total,
    or raises Overflow. *)
Lemma add_positive t a :
  good_total t -> positive a = true ->
  match add t a with
  | Ok t' => good_total t'
  | Raise sg => sg = Overflow
  end.
Proof.
  intros Ht Ha.
  destruct t as [st ct et|st|]; [| |contradiction];
    destruct a as [[|] ca ea|[|]|]; try discriminate; cbn in Ht; subst;
    try exact I; try reflexivity.
  unfold add. cbn [_check_nans].
  destruct (_normalize ct et ca ea) as [[ct' ca'] e'].
  destruct (rescale_finite false ca ea (Z.max (Z.min et ea) (ea - prec - 1))
              ctx_rounding) as (c1 & ->).
  destruct (rescale_finite st ct et (Z.max (Z.min et ea) (et - prec - 1))
              ctx_rounding) as (c2 & ->).
  repeat match goal with
  | |- context [if ?b then _ else _] => destruct b
  end;
  match goal with
  | |- match _fix ?d with _ => _ end =>
      let H := fresh "H" in destruct (_fix d) eqn:H;
      [eapply fix_good; eassumption | eapply fix_raise; eassumption]
  end.
Qed.

(** Adding a strictly positive amount keeps the total non-negative. *)
Lemma add_nonneg t a t' :
  nonneg_total t -> positive a = true -> add t a = Ok t' -> nonneg_total t'.
Proof.
  intros Ht Ha.
  destruct t as [st ct et|st|]; [| |contradiction];
    destruct a as [[|] ca ea|[|]|]; try discriminate; cbn in Ht; subst;
    try (intros H; injection H as <-; reflexivity).
  unfold add. cbn [_check_nans].
  destruct (_normalize ct et ca ea) as [[ct' ca'] e'].
  destruct (rescale_finite false ca ea (Z.max (Z.min et ea) (ea - prec - 1))
              ctx_rounding) as (c1 & ->).
  destruct (rescale_finite false ct et (Z.max (Z.min et ea) (et - prec - 1))
              ctx_rounding) as (c2 & ->).
  cbn [Bool.eqb andb].
  repeat match goal with
  | |- context [if ?b then _ else _] => destruct b
  end;
  intros H; apply fix_finite in H as (c' & e'' & ->); reflexivity.
Qed.

Lemma nonneg_good t : nonneg_total t -> good_total t.
Proof. destruct t; cbn; auto. Qed.

(** ** Writing an amount that was added *)

(** An amount other than zero that could be added to a finite total that
    is not negative has an adjusted exponent of at most [Emax]: the sum is
    at least the amount, and [_fix] accepted the sum. *)
Lemma add_fits ct et ca ea t' :
  ca <> 0%N ->
  add (Finite false ct et) (Finite false ca ea) = Ok t' ->
  ndigits ca + ea - 1 <= Emax.
Proof.
  intros Hca. unfold add. cbn [_check_nans Bool.eqb].
  apply N.eqb_neq in Hca as Hca'. rewrite Hca', andb_false_r.
  pose proof (ndigits_pos ca) as Hpa. pose proof (ndigits_pos ct) as Hpt.
  pose proof (fun k => pow10_pos k) as Hpow. ctx.
  destruct (N.eqb_spec ct 0) as [->|Hct].
  - unfold _rescale. rewrite Hca'.
    set (x := Z.max (Z.min et ea) (ea - prec - 1)).
    assert (Hx : x <= ea) by (unfold x; lia).
    destruct (Z.leb_spec x ea) as [_|Hc]; [|clearbody x; lia].
    intros H. apply fix_ok_fits in H.
    + pose proof (ndigits_scale ca (ea - x) Hca ltac:(lia)). lia.
    + specialize (Hpow (ea - x)). nia.
  - unfold _normalize.
    destruct (Z.ltb_spec et ea) as [Hlt|Hge].
    + set (x := ea + Z.min (-1) (ndigits ca - prec - 2)).
      assert (Hx : x < ea) by (unfold x; lia).
      destruct (Z.ltb_spec (ndigits ct + et - 1) x) as [Hs|Hs]; intros H;
        (apply fix_ok_fits in H; [|pose proof (Hpow (ea - x));
           pose proof (Hpow (ea - et)); nia]).
      * pose proof (ndigits_scale ca (ea - x) Hca ltac:(lia)).
        pose proof (ndigits_mono (ca * pow10 (ea - x)) (1 + ca * pow10 (ea - x))
                      ltac:(lia)). lia.
      * pose proof (ndigits_scale ca (ea - et) Hca ltac:(lia)).
        pose proof (ndigits_mono (ca * pow10 (ea - et)) (ct + ca * pow10 (ea - et))
                      ltac:(lia)). lia.
    + set (x := et + Z.min (-1) (ndigits ct - prec - 2)).
      assert (Hx : x < et) by (unfold x; lia).
      destruct (Z.ltb_spec (ndigits ca + ea - 1) x) as [Hs|Hs]; intros H;
        (apply fix_ok_fits in H; [|pose proof (Hpow (et - x));
           pose proof (Hpow (et - ea)); nia]).
      * pose proof (ndigits_scale ct (et - x) Hct ltac:(lia)).
        pose proof (ndigits_mono (ct * pow10 (et - x)) (ct * pow10 (et - x) + 1)
                      ltac:(lia)). lia.
      * pose proof (ndigits_mono ca (ct * pow10 (et - ea) + ca) ltac:(lia)). lia.
Qed.

(** A finite number whose adjusted exponent is at most [Emax] can be
    written with two decimals, whatever the allocator grants. *)
Lemma format_fits heap s c e :
  ndigits c + e - 1 <= Emax ->
  exists q,
    format_2f heap (Finite s c e)
    = Ok (sign_str s ++ str_of_N (q / 100) ++ "." ++ zfill 2 (q mod 100))%string.
Proof.
  intros H. unfold format_2f, max_digits, MPD_MAX_PREC. ctx.
  destruct (Z.ltb_spec (999999999999999999 + 1) (ndigits c + (e - -2))) as [|_];
    [lia|].
  destruct (Z.ltb_spec (Emax + 3 + Z.of_N heap) (ndigits c + (e - -2))) as [|_];
    [lia|].
  rewrite !andb_false_r.
  destruct (rescale_finite s c e (-2) ctx_rounding) as (q & ->). eauto.
Qed.

(** [format] can refuse an amount that was added only when the total was
    +Infinity, which swallows any amount. *)
Lemma format_raise_infinite heap t a t' fe :
  nonneg_total t -> positive a = true -> add t a = Ok t' ->
  format_2f heap a = Raise fe ->
  t = Infinity false /\ t' = Infinity false.
Proof.
  intros Ht Hp Ha Hf.
  destruct a as [[|] ca ea|[|]|]; try discriminate.
  - cbn in Hp. apply negb_true_iff, N.eqb_neq in Hp.
    destruct t as [st ct et|st|]; [| |contradiction]; cbn in Ht; subst.
    + apply add_fits in Ha; [|exact Hp].
      destruct (format_fits heap false ca ea Ha) as (q & E). congruence.
    + cbn in Ha. injection Ha as <-. auto.
Qed.

(** ** Induction on the rows read so far *)

Lemma step_pad heap f st n row : step heap f st (n, pad row) = step heap f st (n, row).
Proof. unfold step. rewrite try_row_pad. reflexivity. Qed.

Lemma run_snoc_blank heap f pre : run heap f (pre ++ [[]]) = run heap f pre.
Proof. rewrite run_blank. reflexivity. Qed.

Lemma run_snoc heap f pre row :
  row <> [] -> run heap f (pre ++ [row]) = step heap f (run heap f pre) (line_of pre, row).
Proof. intros H. rewrite run_row by exact H. cbn. apply step_pad. Qed.

Lemma run_ind heap f (P : list Row -> LoopState -> Prop) :
  P [] init_state ->
  (forall pre, P pre (run heap f pre) -> P (pre ++ [[]]) (run heap f pre)) ->
  (forall pre row, P pre (run heap f pre) -> row <> [] ->
     P (pre ++ [row]) (step heap f (run heap f pre) (line_of pre, row))) ->
  forall reader, P reader (run heap f reader).
Proof.
  intros H0 Hb Hs reader. induction reader as [|row pre IH] using rev_ind.
  - exact H0.
  - destruct row as [|c r].
    + rewrite run_snoc_blank. apply Hb, IH.
    + rewrite run_snoc by discriminate. apply Hs; [exact IH | discriminate].
Qed.

End LoopFacts.

(* ===================================================================== *)
(** * What the loop does with one row *)
(* ===================================================================== *)

Module RowFacts.

Import PyStr PyDate PyDecimal RoundSpec App Spec Props DecimalFacts LoopFacts.
Local Open Scope string_scope.
Local Open Scope list_scope.
Local Open Scope Z_scope.

Lemma errors_kept heap f rows st x :
  In x (errors st) -> In x (errors (run_from heap f st rows)).
Proof.
  destruct st as [m t e]. rewrite run_from_frame. cbn [errors].
  intros H. apply in_or_app. left. exact H.
Qed.

(** A row whose body raises leaves matches and total as a blank line
    does, and its diagnostic stands between those of the rows before and
    those of the rows after. *)
Lemma run_row_error heap f pre row post e :
  row <> [] ->
  try_row heap f (total (run heap f pre)) (line_of pre) row
  = (total (run heap f pre), Raise e) ->
  matches (run heap f (pre ++ row :: post)) = matches (run heap f (pre ++ [] :: post))
  /\ total (run heap f (pre ++ row :: post)) = total (run heap f (pre ++ [] :: post))
  /\ exists later,
       errors (run heap f (pre ++ row :: post))
       = errors (run heap f pre) ++ error_line (line_of pre) e :: later
       /\ errors (run heap f (pre ++ [] :: post)) = errors (run heap f pre) ++ later.
Proof.
  intros Hrow Htry. rewrite run_row by assumption. rewrite run_blank.
  unfold step. rewrite try_row_pad, Htry.
  destruct (run heap f pre) as [m t er]. cbn [matches total errors].
  rewrite (run_from_frame heap f _ m t (er ++ _)), (run_from_frame heap f _ m t er).
  cbn [matches total errors]. repeat split.
  eexists. split; [|reflexivity]. rewrite <- app_assoc. reflexivity.
Qed.

Lemma run_row_skip heap f pre row post :
  try_row heap f (total (run heap f pre)) (line_of pre) row
  = (total (run heap f pre), Ok None) ->
  run heap f (pre ++ row :: post) = run heap f (pre ++ [] :: post).
Proof.
  intros Htry. destruct row as [|x r]; [reflexivity|].
  rewrite run_row by discriminate. rewrite run_blank.
  unfold step. rewrite try_row_pad, Htry.
  destruct (run heap f pre) as [m t er]. reflexivity.
Qed.

Lemma run_row_match heap f pre row post m t' :
  row <> [] ->
  try_row heap f (total (run heap f pre)) (line_of pre) row = (t', Ok (Some m)) ->
  exists later,
    matches (run heap f (pre ++ row :: post)) = matches (run heap f pre) ++ m :: later.
Proof.
  intros Hrow Htry. rewrite run_row by assumption.
  unfold step. rewrite try_row_pad, Htry.
  destruct (run heap f pre) as [ms t er]. cbn [matches total errors].
  rewrite run_from_frame. cbn [matches]. eexists.
  rewrite <- app_assoc. reflexivity.
Qed.

Lemma parse_date_raise s e :
  parse_date s = Raise e ->
  e = HTTPException 400
        ("Invalid date value (expected MM/DD/YYYY): " ++ repr s).
Proof.
  unfold parse_date. destruct (strptime (strip s) DATE_FMT); congruence.
Qed.


Lemma line_of_not_first pre : pre <> [] -> (line_of pre =? 1)%N = false.
Proof.
  intros H. unfold line_of. destruct pre; [congruence|].
  cbn [List.length]. apply N.eqb_neq. lia.
Qed.

Lemma date_text_nil_fails :
  parse_date (date_text []) =
  Raise (HTTPException 400 "Invalid date value (expected MM/DD/YYYY): ''").
Proof. reflexivity. Qed.

Lemma qualifies_nil f : qualifies f [] = false.
Proof. reflexivity. Qed.

Lemma qualifies_pad f row : qualifies f (pad row) = qualifies f row.
Proof.
  unfold qualifies, haystack, date_text, amount_text, description_text, pad.
  destruct row as [|a [|b [|c [|d [|e r]]]]]; reflexivity.
Qed.

(** A qualifying row whose amount can be added to the total: the total
    moves on, and the record is appended unless [format] refuses the
    amount. *)
Lemma try_row_qualifies heap f t n row d a t' :
  parse_date (date_text row) = Ok d ->
  in_range f d = true ->
  parse_decimal (Some (amount_text row)) = Ok a ->
  positive a = true ->
  contains (needle f) (haystack f row) = true ->
  add t a = Ok t' ->
  try_row heap f t n row
  = (t', shown <- lift_format (format_2f heap a) ;;
         Ok (Some (mkMatch (isoformat d) shown (strip (description_text row))))).
Proof.
  intros Hd Hr Ha Hp Hc Hadd. rewrite try_row_eq, Hd, Hr. cbn [negb].
  rewrite Ha. apply positive_le_zero in Hp. rewrite Hp.
  rewrite Hc, Hadd. reflexivity.
Qed.

(** The amount of such a row can be written, unless the total is
    +Infinity already. *)
Lemma added_amount_shown heap t a t' :
  nonneg_total t -> positive a = true -> add t a = Ok t' ->
  (t = Infinity false -> exists shown, format_2f heap a = Ok shown) ->
  exists shown, format_2f heap a = Ok shown.
Proof.
  intros Ht Hp Ha Hinf. destruct (format_2f heap a) as [shown|fe] eqn:Ef; [eauto|].
  destruct (format_raise_infinite heap t a t' fe Ht Hp Ha Ef) as (E & _).
  destruct (Hinf E) as (shown & H). discriminate.
Qed.

(** The five outcomes of the body of the loop against the specification's
    notion of a qualifying row: the row is passed over; its record is
    appended and its amount added; it does not qualify and raises; its
    amount overflows the total; or, the total being +Infinity already,
    [format] refuses the amount. *)
Lemma try_row_outcome heap f t n row :
  nonneg_total t ->
  (try_row heap f t n row = (t, Ok None) /\ qualifies f row = false)
  \/ (exists a t' shown, qualifies f row = true
        /\ parse_decimal (Some (amount_text row)) = Ok a
        /\ positive a = true /\ add t a = Ok t'
        /\ format_2f heap a = Ok shown
        /\ try_row heap f t n row = (t', Ok (Some (record_of heap row))))
  \/ (exists e, qualifies f row = false
        /\ try_row heap f t n row = (t, Raise e)
        /\ diagnostic n row (error_line n e))
  \/ (exists a, qualifies f row = true
        /\ parse_decimal (Some (amount_text row)) = Ok a
        /\ positive a = true /\ add t a = Raise Overflow
        /\ try_row heap f t n row = (t, Raise (DecimalException Overflow)))
  \/ (exists a fe, qualifies f row = true
        /\ parse_decimal (Some (amount_text row)) = Ok a
        /\ positive a = true /\ t = Infinity false
        /\ format_2f heap a = Raise fe
        /\ try_row heap f t n row = (t, Raise (format_exn fe))).
Proof.
  intros Ht. rewrite try_row_eq. unfold qualifies, record_of.
  destruct (parse_date (date_text row)) as [d|e] eqn:Hd.
  2:{ destruct (n =? 1)%N eqn:Hn; [left; auto|].
      right. right. left. exists e. split; [reflexivity|]. split; [reflexivity|].
      apply parse_date_raise in Hd as ->. left.
      split; [apply N.eqb_neq; exact Hn | reflexivity]. }
  destruct (in_range f d) eqn:Hr; cbn [negb].
  2:{ left. destruct (parse_decimal (Some (amount_text row))); auto. }
  destruct (parse_decimal (Some (amount_text row))) as [a|e] eqn:Ha.
  2:{ right. right. left. exists e. split; [reflexivity|]. split; [reflexivity|].
      unfold parse_decimal in Ha.
      match type of Ha with context [Decimal_of_string ?x] =>
        destruct (Decimal_of_string x); [discriminate|];
        injection Ha as <-; right; left; exists x; reflexivity end. }
  destruct (positive a) eqn:Hp.
  - apply positive_le_zero in Hp as Hle. rewrite Hle. cbn [andb].
    destruct (contains (needle f) (haystack f row)); [|left; auto].
    pose proof (add_positive t a (nonneg_good t Ht) Hp) as Hadd.
    destruct (add t a) as [t'|sg] eqn:Ea.
    + destruct (format_2f heap a) as [shown|fe] eqn:Ef; cbn [lift_format bind].
      * right. left. exists a, t', shown. auto 10.
      * destruct (format_raise_infinite heap t a t' fe Ht Hp Ea Ef) as (-> & ->).
        do 4 right. exists a, fe. auto 10.
    + subst sg. right. right. right. left. exists a. auto 10.
  - destruct (not_positive_le_zero a Hp) as [-> | ->].
    + left. auto.
    + right. right. left. exists (DecimalException InvalidOperation).
      split; [reflexivity|]. split; [reflexivity|]. right. right. left. reflexivity.
Qed.

(** The total is never a NaN and never negative. *)
Lemma total_nonneg heap f reader : nonneg_total (total (run heap f reader)).
Proof.
  apply (run_ind heap f (fun _ st => nonneg_total (total st)));
    [reflexivity | auto |].
  intros pre row IH Hrow. unfold step.
  destruct (try_row_outcome heap f (total (run heap f pre)) (line_of pre) row IH)
    as [(-> & _) | [(a & t' & shown & _ & _ & Hp & Ha & _ & ->)
       | [(e & _ & -> & _) | [(a & _ & _ & _ & _ & ->)
       | (a & fe & _ & _ & _ & _ & _ & ->)]]]]; cbn [total]; auto.
  eapply add_nonneg; eassumption.
Qed.

(** When the body raises, the total is the one it started with. *)
Lemma try_row_raise heap f t n row e :
  nonneg_total t ->
  snd (try_row heap f t n row) = Raise e ->
  try_row heap f t n row = (t, Raise e).
Proof.
  intros Ht.
  destruct (try_row_outcome heap f t n row Ht)
    as [(-> & _) | [(a & t' & shown & _ & _ & _ & _ & _ & ->)
       | [(e' & _ & -> & _) | [(a & _ & _ & _ & _ & ->)
       | (a & fe & _ & _ & _ & _ & _ & ->)]]]]; cbn [snd];
    congruence.
Qed.

(** ** The rows that are entered *)

Lemma chosen_from_snoc {A} (p : list A -> A -> bool) l x : forall acc,
  chosen_from p acc (l ++ [x])
  = chosen_from p acc l ++ (if p (acc ++ l) x then [x] else []).
Proof.
  induction l as [|y l IH]; intros acc; cbn [chosen_from app].
  - rewrite app_nil_r. destruct (p acc x); reflexivity.
  - rewrite IH, <- app_assoc. cbn [app]. destruct (p acc y); reflexivity.
Qed.

Lemma chosen_snoc {A} (p : list A -> A -> bool) l x :
  chosen p (l ++ [x]) = chosen p l ++ (if p l x then [x] else []).
Proof. apply (chosen_from_snoc p l x []). Qed.

(** The match list holds the records of the rows that were entered, in
    the order of the rows. *)
Lemma matches_chosen heap f reader :
  matches (run heap f reader)
  = map (record_of heap) (chosen (entered heap f) reader).
Proof.
  apply (run_ind heap f (fun reader st =>
           matches st = map (record_of heap) (chosen (entered heap f) reader)));
    [reflexivity | |].
  - intros pre IH. rewrite chosen_snoc. unfold entered at 2.
    rewrite qualifies_nil, app_nil_r. exact IH.
  - intros pre row IH Hrow. rewrite chosen_snoc. unfold entered at 2, enters.
    unfold step.
    destruct (try_row_outcome heap f (total (run heap f pre)) (line_of pre) row
                (total_nonneg heap f pre))
      as [(-> & Hq) | [(a & t' & shown & Hq & Ha & _ & Hadd & Hf & ->)
         | [(e & Hq & -> & _) | [(a & Hq & Ha & _ & Hadd & ->)
         | (a & fe & Hq & Ha & _ & _ & Hf & ->)]]]]; cbn [matches]; rewrite Hq;
      cbn [andb]; rewrite ?app_nil_r; try exact IH.
    + rewrite Ha, Hadd, Hf, map_app, IH. reflexivity.
    + rewrite Ha, Hadd, app_nil_r. exact IH.
    + rewrite Ha, Hf.
      destruct (add (total (run heap f pre)) a); rewrite app_nil_r; exact IH.
Qed.

(** A qualifying row that is not entered leaves a diagnostic: that of
    Overflow, or that of a failure of [format], which happens only when
    the total is +Infinity already. *)
Lemma not_entered heap f pre row post :
  qualifies f row = true ->
  enters heap (total (run heap f pre)) row = false ->
  In (overflow_line (line_of pre)) (errors (run heap f (pre ++ row :: post)))
  \/ (total (run heap f pre) = Infinity false
      /\ exists fe,
           In (error_line (line_of pre) (format_exn fe))
              (errors (run heap f (pre ++ row :: post)))).
Proof.
  intros Hq He.
  assert (Hrow : row <> []) by (intros ->; discriminate).
  rewrite run_row by exact Hrow. unfold step. rewrite try_row_pad.
  unfold enters in He.
  destruct (try_row_outcome heap f (total (run heap f pre)) (line_of pre) row
              (total_nonneg heap f pre))
    as [(_ & Hq') | [(a & t' & shown & _ & Ha & _ & Hadd & Hf & _)
       | [(e & Hq' & _) | [(a & _ & _ & _ & _ & ->)
       | (a & fe & _ & _ & _ & Ht & _ & ->)]]]]; try congruence.
  - rewrite Ha, Hadd, Hf in He. discriminate.
  - left. apply errors_kept. cbn [errors]. apply in_or_app. right. left.
    reflexivity.
  - right. split; [exact Ht|]. exists fe.
    apply errors_kept. cbn [errors]. apply in_or_app. right. left. reflexivity.
Qed.

Lemma date_le_refl d : date_le d d = true.
Proof.
  unfold date_le. rewrite !Z.eqb_refl, Z.leb_refl, !orb_true_r. reflexivity.
Qed.

Lemma contains_empty hay : contains EmptyString hay = true.
Proof. destruct hay; reflexivity. Qed.

End RowFacts.

(* ===================================================================== *)
(** * Reading back what [format] wrote *)
(* ===================================================================== *)

Module StringFacts.

Import PyStr PyDecimal RoundSpec App Spec DecimalFacts.

Local Open Scope string_scope.

Lemma forall_chars_app p s t :
  forall_chars p (s ++ t) = forall_chars p s && forall_chars p t.
Proof.
  induction s as [|c s IH]; [reflexivity|].
  cbn. rewrite IH, andb_assoc. reflexivity.
Qed.

Lemma forall_chars_weaken (p q : ascii -> bool) s :
  (forall c, p c = true -> q c = true) ->
  forall_chars p s = true -> forall_chars q s = true.
Proof.
  intros Hpq. induction s as [|c s IH]; [reflexivity|]. cbn.
  intros H. apply andb_prop in H as [Hc Hs]. rewrite (Hpq _ Hc), IH; auto.
Qed.

Lemma all_digits_forall s : all_digits s = forall_chars isdigit s.
Proof. induction s as [|c s IH]; [reflexivity|]. cbn. rewrite IH. reflexivity. Qed.

Lemma money_char_facts c :
  money_char c = true ->
  isspace c = false /\ Ascii.eqb c "_" = false /\ Ascii.eqb c "," = false.
Proof.
  destruct c as [[] [] [] [] [] [] [] []]; cbn; intros H;
    try discriminate H; repeat split.
Qed.

Lemma digit_facts c :
  isdigit c = true ->
  lower_char c = c
  /\ Ascii.eqb c "-" = false /\ Ascii.eqb c "+" = false
  /\ Ascii.eqb c "." = false
  /\ Ascii.eqb c "i" = false /\ Ascii.eqb c "n" = false
  /\ Ascii.eqb c "s" = false /\ Ascii.eqb c "e" = false.
Proof.
  destruct c as [[] [] [] [] [] [] [] []]; cbn; intros H;
    try discriminate H; repeat split.
Qed.

Lemma lstrip_plain s :
  forall_chars (fun c => negb (isspace c)) s = true -> lstrip s = s.
Proof.
  destruct s as [|c s]; [reflexivity|]. cbn. intros H.
  apply andb_prop in H as [Hc _]. destruct (isspace c); [discriminate|reflexivity].
Qed.

Lemma rstrip_plain s :
  forall_chars (fun c => negb (isspace c)) s = true -> rstrip s = s.
Proof.
  induction s as [|c s IH]; [reflexivity|]. cbn. intros H.
  apply andb_prop in H as [Hc Hs]. rewrite (IH Hs).
  destruct s; [|reflexivity]. destruct (isspace c); [discriminate|reflexivity].
Qed.

Lemma strip_plain s :
  forall_chars (fun c => negb (isspace c)) s = true -> strip s = s.
Proof.
  intros H. unfold strip. rewrite lstrip_plain by assumption.
  apply rstrip_plain. assumption.
Qed.

Lemma remove_char_absent x s :
  forall_chars (fun c => negb (Ascii.eqb c x)) s = true -> remove_char x s = s.
Proof.
  induction s as [|c s IH]; [reflexivity|]. cbn. intros H.
  apply andb_prop in H as [Hc Hs]. rewrite (IH Hs).
  destruct (Ascii.eqb c x); [discriminate|reflexivity].
Qed.

Lemma money_strip s : forall_chars money_char s = true -> strip s = s.
Proof.
  intros H. apply strip_plain. revert H. apply forall_chars_weaken.
  intros c Hc. apply money_char_facts in Hc as (-> & _). reflexivity.
Qed.

Lemma money_remove x s :
  x = "_"%char \/ x = ","%char ->
  forall_chars money_char s = true -> remove_char x s = s.
Proof.
  intros Hx H. apply remove_char_absent. revert H. apply forall_chars_weaken.
  intros c Hc. apply money_char_facts in Hc as (_ & H1 & H2).
  destruct Hx as [-> | ->]; [rewrite H1 | rewrite H2]; reflexivity.
Qed.

(** ** Digits *)

Lemma int_of_digits_acc_app acc s t :
  int_of_digits_acc acc (s ++ t) = int_of_digits_acc (int_of_digits_acc acc s) t.
Proof.
  revert acc. induction s as [|c s IH]; intros acc; [reflexivity|].
  cbn. apply IH.
Qed.

Lemma string_of_uint_digits u : all_digits (NilEmpty.string_of_uint u) = true.
Proof. induction u; cbn; auto. Qed.

Lemma of_uint_acc_value u : forall acc,
  Npos (Pos.of_uint_acc u acc)
  = int_of_digits_acc (Npos acc) (NilEmpty.string_of_uint u).
Proof.
  induction u; intros acc; cbn [Pos.of_uint_acc NilEmpty.string_of_uint int_of_digits_acc];
    try reflexivity; rewrite IHu; f_equal;
    match goal with
    | |- context [digit_val ?c] =>
        let v := eval vm_compute in (digit_val c) in
        change (digit_val c) with v
    end; lia.
Qed.

Lemma of_uint_value u :
  N.of_uint u = int_of_digits (NilEmpty.string_of_uint u).
Proof.
  unfold int_of_digits, N.of_uint.
  induction u; cbn [Pos.of_uint NilEmpty.string_of_uint int_of_digits_acc];
    try reflexivity; try (rewrite of_uint_acc_value; reflexivity).
  exact IHu.
Qed.

Lemma str_of_N_digits n : all_digits (str_of_N n) = true.
Proof. apply string_of_uint_digits. Qed.

Lemma int_of_str_of_N n : int_of_digits (str_of_N n) = n.
Proof.
  unfold str_of_N. rewrite <- of_uint_value. apply DecimalN.Unsigned.of_to.
Qed.

Lemma str_of_N_nonempty n : exists c t, str_of_N n = String c t /\ isdigit c = true.
Proof.
  pose proof (str_of_N_digits n) as Hd. pose proof (int_of_str_of_N n) as Hv.
  destruct (str_of_N n) as [|c t] eqn:E.
  - destruct n as [|p]; [discriminate E|].
    cbn in Hv. discriminate Hv.
  - cbn in Hd. apply andb_prop in Hd as [Hc _]. eauto.
Qed.

Lemma int_of_digits_acc_shift s : forall acc,
  int_of_digits_acc acc s
  = (acc * 10 ^ N.of_nat (String.length s) + int_of_digits s)%N.
Proof.
  unfold int_of_digits.
  induction s as [|c s IH]; intros acc.
  - cbn. lia.
  - cbn [int_of_digits_acc String.length]. rewrite IH, (IH (10 * 0 + digit_val c)%N).
    rewrite Nat2N.inj_succ, N.pow_succ_r'. lia.
Qed.

Lemma zfill2_table :
  forallb (fun m => all_digits (zfill 2 m)
                    && (String.length (zfill 2 m) =? 2)%nat
                    && (int_of_digits (zfill 2 m) =? m)%N)
          (map N.of_nat (seq 0 100)) = true.
Proof. vm_compute. reflexivity. Qed.

Lemma zfill2 m :
  (m < 100)%N ->
  all_digits (zfill 2 m) = true
  /\ String.length (zfill 2 m) = 2%nat
  /\ int_of_digits (zfill 2 m) = m.
Proof.
  intros Hm. pose proof zfill2_table as T. rewrite forallb_forall in T.
  specialize (T m). rewrite in_map_iff in T.
  assert (Hin : exists x, N.of_nat x = m /\ In x (seq 0 100)).
  { exists (N.to_nat m). split; [apply N2Nat.id|]. apply in_seq. lia. }
  specialize (T Hin). apply andb_prop in T as [T T3]. apply andb_prop in T as [T1 T2].
  repeat split; [exact T1 | apply Nat.eqb_eq; exact T2 | apply N.eqb_eq; exact T3].
Qed.

Lemma span_digits_all s : all_digits s = true -> span_digits s = (s, EmptyString).
Proof.
  induction s as [|c s IH]; [reflexivity|]. cbn. intros H.
  apply andb_prop in H as [Hc Hs]. rewrite Hc, (IH Hs). reflexivity.
Qed.

Lemma span_digits_app ds c r :
  all_digits ds = true -> isdigit c = false ->
  span_digits (ds ++ String c r) = (ds, String c r).
Proof.
  intros Hd Hc. induction ds as [|d ds IH].
  - cbn. rewrite Hc. reflexivity.
  - cbn in *. apply andb_prop in Hd as [Hd1 Hd2]. rewrite Hd1, (IH Hd2).
    reflexivity.
Qed.

Lemma split_sign_digit c t :
  isdigit c = true -> split_sign (String c t) = (false, String c t).
Proof.
  destruct c as [[] [] [] [] [] [] [] []]; cbn; intros H;
    try discriminate H; reflexivity.
Qed.

Lemma parse_special_digit sg c t :
  isdigit c = true -> parse_special sg (String c t) = None.
Proof.
  destruct c as [[] [] [] [] [] [] [] []]; cbn; intros H;
    try discriminate H; reflexivity.
Qed.

(** The text of an amount in cents reads back as that amount, when it
    lies within the bounds of the constructor. *)
Lemma parse_number_cents sg q :
  parse_number sg (str_of_N (q / 100) ++ "." ++ zfill 2 (q mod 100))
  = if within_limits q (-2) then Some (Finite sg q (-2)) else None.
Proof.
  pose proof (zfill2 (q mod 100) ltac:(apply N.mod_lt; discriminate))
    as (Hz1 & Hz2 & Hz3).
  destruct (str_of_N_nonempty (q / 100)) as (c & t & Es & Hc).
  unfold parse_number.
  change (str_of_N (q / 100) ++ "." ++ zfill 2 (q mod 100))
    with (str_of_N (q / 100) ++ String "." (zfill 2 (q mod 100))).
  rewrite span_digits_app by (auto using str_of_N_digits).
  rewrite span_digits_all by assumption.
  assert (Hv : int_of_digits (str_of_N (q / 100) ++ zfill 2 (q mod 100)) = q).
  { unfold int_of_digits. rewrite int_of_digits_acc_app.
    fold (int_of_digits (str_of_N (q / 100))). rewrite int_of_str_of_N.
    rewrite int_of_digits_acc_shift, Hz2, Hz3.
    change (10 ^ N.of_nat 2)%N with 100%N.
    pose proof (N.div_mod q 100 ltac:(discriminate)). lia. }
  rewrite Hv, Hz2. rewrite Es at 1. cbn [nonempty orb]. reflexivity.
Qed.

Lemma render_money s q : forall_chars money_char (render_cents s q) = true.
Proof.
  pose proof (zfill2 (q mod 100) ltac:(apply N.mod_lt; discriminate))
    as (Hz1 & _ & _).
  pose proof (str_of_N_digits (q / 100)) as Hd.
  assert (Hw : forall x, all_digits x = true -> forall_chars money_char x = true).
  { intros x Hx. rewrite all_digits_forall in Hx. revert Hx.
    apply forall_chars_weaken. intros c Hc. unfold money_char. rewrite Hc.
    reflexivity. }
  unfold render_cents. rewrite !forall_chars_app.
  rewrite (Hw _ Hd), (Hw _ Hz1). destruct s; reflexivity.
Qed.

Lemma parse_render s q :
  Decimal_of_string (render_cents s q)
  = if within_limits q (-2) then Some (Finite s q (-2)) else None.
Proof.
  unfold Decimal_of_string.
  rewrite money_strip by apply render_money.
  rewrite money_remove by (auto using render_money).
  destruct (str_of_N_nonempty (q / 100)) as (c & t & Es & Hc).
  assert (Hsplit : split_sign (render_cents s q)
                   = (s, str_of_N (q / 100) ++ "." ++ zfill 2 (q mod 100))).
  { unfold render_cents. destruct s; cbn [sign_str append].
    - reflexivity.
    - rewrite Es. cbn [append]. apply split_sign_digit. exact Hc. }
  rewrite Hsplit, parse_number_cents.
  destruct (within_limits q (-2)); [reflexivity|].
  rewrite Es. cbn [append]. apply parse_special_digit. exact Hc.
Qed.

End StringFacts.

(* ===================================================================== *)
(** * Facts about the endpoint *)
(* ===================================================================== *)

Module EndpointFacts.

Import PyStr PyDate PyDecimal RoundSpec App Spec Props.
Import DecimalFacts LoopFacts RowFacts StringFacts.

Lemma cents_at_cents r n : cents r n (-2) = n.
Proof.
  unfold cents. destruct (N.eqb_spec n 0) as [->|Hn]; [reflexivity|].
  change (-2 <=? -2) with true. cbv iota.
  change (pow10 (-2 - -2)) with 1%N. lia.
Qed.

(** What [format] returns for a finite number, when it returns. *)
Lemma format_finite heap s c e shown :
  format_2f heap (Finite s c e) = Ok shown ->
  shown = render_cents s (cents ROUND_HALF_EVEN c e).
Proof.
  unfold format_2f. change ctx_rounding with ROUND_HALF_EVEN.
  rewrite rescale_cents.
  repeat match goal with
  | |- context [if ?b then _ else _] => destruct b
  end; try discriminate.
  intros H. injection H as <-. reflexivity.
Qed.

(** A number in the exponent range of the context can be written. *)
Lemma format_in_range heap s c e :
  ndigits c + e - 1 <= Emax ->
  format_2f heap (Finite s c e) = Ok (render_cents s (cents ROUND_HALF_EVEN c e)).
Proof.
  intros H. destruct (format_fits heap s c e H) as (q & E).
  rewrite E. f_equal. eapply format_finite, E.
Qed.

(** So can a number of cents of at most [prec] digits. *)
Lemma format_cents heap s n :
  ndigits n <= prec ->
  format_2f heap (Finite s n (-2)) = Ok (render_cents s n).
Proof.
  intros H. rewrite format_in_range by (ctx; lia).
  rewrite cents_at_cents. reflexivity.
Qed.

Lemma format_cents_inv heap s n shown :
  format_2f heap (Finite s n (-2)) = Ok shown -> shown = render_cents s n.
Proof.
  intros H. apply format_finite in H. rewrite cents_at_cents in H. exact H.
Qed.

(** ** The running total *)

Lemma step_total heap f st n row :
  total (step heap f st (n, row)) = fst (try_row heap f (total st) n row).
Proof.
  unfold step. destruct (try_row heap f (total st) n row) as [t' [[m|]|e]];
    reflexivity.
Qed.

Lemma step_good heap f st nr :
  good_total (total st) -> good_total (total (step heap f st nr)).
Proof.
  intros Ht. destruct nr as [n row]. rewrite step_total, try_row_eq.
  destruct (parse_date (date_text row)) as [d|e]; [|exact Ht].
  destruct (negb (in_range f d)); [exact Ht|].
  destruct (parse_decimal (Some (amount_text row))) as [a|e]; [|exact Ht].
  destruct (le_zero a) as [[|]|sg] eqn:Hle; try exact Ht.
  destruct (contains (needle f) (haystack f row)); [|exact Ht].
  apply positive_le_zero in Hle.
  pose proof (add_positive (total st) a Ht Hle) as Hadd.
  destruct (add (total st) a); [exact Hadd | exact Ht].
Qed.

Lemma run_from_good heap f rows : forall st,
  good_total (total st) -> good_total (total (run_from heap f st rows)).
Proof.
  induction rows as [|nr rows IH]; intros st Ht; [exact Ht|].
  change (run_from heap f st (nr :: rows)) with (run_from heap f (step heap f st nr) rows).
  apply IH, step_good, Ht.
Qed.

Lemma run_good heap f reader : good_total (total (run heap f reader)).
Proof. apply run_from_good. exact I. Qed.

Lemma qualifies_inv f row :
  qualifies f row = true ->
  exists d a,
    parse_date (date_text row) = Ok d
    /\ parse_decimal (Some (amount_text row)) = Ok a
    /\ in_range f d = true /\ positive a = true
    /\ contains (needle f) (haystack f row) = true.
Proof.
  unfold qualifies.
  destruct (parse_date (date_text row)) as [d|]; [|discriminate].
  destruct (parse_decimal (Some (amount_text row))) as [a|]; [|discriminate].
  intros H. apply andb_prop in H as [H Hc]. apply andb_prop in H as [Hr Hp].
  exists d, a. repeat split; assumption.
Qed.

(** The record of a row whose amount was written. *)
Lemma record_of_shown heap row d a shown :
  parse_date (date_text row) = Ok d ->
  parse_decimal (Some (amount_text row)) = Ok a ->
  format_2f heap a = Ok shown ->
  record_of heap row = mkMatch (isoformat d) shown (strip (description_text row)).
Proof. intros Hd Ha Hf. unfold record_of. rewrite Hd, Ha, Hf. reflexivity. Qed.

Lemma run_shown heap f reader :
  Forall (amount_shown heap) (matches (run heap f reader)).
Proof.
  apply (run_ind heap f (fun _ st => Forall (amount_shown heap) (matches st)));
    [constructor | auto |].
  intros pre row IH Hrow. unfold step.
  destruct (try_row_outcome heap f (total (run heap f pre)) (line_of pre) row
              (total_nonneg heap f pre))
    as [(-> & _) | [(a & t' & shown & Hq & Ha & Hp & _ & Hf & ->)
       | [(e & _ & -> & _) | [(a & _ & _ & _ & _ & ->)
       | (a & fe & _ & _ & _ & _ & _ & ->)]]]]; cbn [matches]; auto.
  apply Forall_app. split; [exact IH|]. constructor; [|constructor].
  apply qualifies_inv in Hq as (d & a' & Hd & Ha' & _).
  rewrite (record_of_shown heap row d a shown Hd Ha Hf).
  exists a. split; [exact Hp | exact Hf].
Qed.

(** ** The tithe *)

Lemma valid_rate_finite r :
  valid_rate r = true -> exists s c e, r = Finite s c e.
Proof. destruct r; [eauto | discriminate | discriminate]. Qed.

(** [compute_tithe] raises on an infinite total. *)
Lemma compute_tithe_total_finite t sr cr er d :
  good_total t ->
  compute_tithe t (Finite sr cr er) = Ok d ->
  exists s c e, t = Finite s c e.
Proof.
  intros Ht. destruct t as [s c e|s|]; [eauto | | contradiction].
  unfold compute_tithe, mul. cbn [_check_nans].
  destruct (cr =? 0)%N; discriminate.
Qed.

Lemma last_two {A} (l : list A) (a b d : A) : last (l ++ [a; b]) d = b.
Proof.
  change (l ++ [a; b]) with (l ++ [a] ++ [b]). rewrite app_assoc.
  apply last_last.
Qed.

(** What a response, once returned, was computed from. *)
Lemma tithing_ok heap rd rq resp :
  tithing heap rd rq = Ok resp ->
  exists st t,
    final_state heap rd rq = Some st
    /\ compute_tithe (total st) (rate_dec rq) = Ok t
    /\ format_2f heap (total st) = Ok (reported_total resp)
    /\ format_2f heap t = Ok (reported_tithe resp)
    /\ ((exists body, resp = JSONResponse body /\ rows body = matches st
                      /\ json_errors body = errors st
                      /\ count body = List.length (matches st))
        \/ (exists body last_row,
              report_rows heap (rate_dec rq) (matches st) = Ok body
              /\ total_row heap (total st) t = Ok last_row
              /\ resp = StreamingResponse
                          (header (rate_pct rq) :: body ++ [[]; last_row]))).
Proof.
  unfold tithing, final_state.
  destruct (strptime (start rq) "%Y-%m-%d") as [sd|]; [|discriminate].
  destruct (strptime (end_ rq) "%Y-%m-%d") as [ed|]; [|discriminate].
  destruct (date_lt ed sd); [discriminate|].
  destruct (file rq) as [|b data] eqn:Ef; [discriminate|].
  destruct (rd (b :: data)) as [reader failure]. cbn [fst].
  destruct failure; [discriminate|].
  set (st := run heap (filter_of rq sd ed) reader).
  destruct (compute_tithe (total st) (rate_dec rq)) as [t|sg] eqn:Ht;
    cbn [lift bind]; [|discriminate].
  destruct (format rq).
  - destruct (format_2f heap (total st)) as [ts|fe] eqn:Hts;
      cbn [lift_format bind]; [|discriminate].
    destruct (format_2f heap t) as [tt|fe] eqn:Htt;
      cbn [lift_format bind]; [|discriminate].
    intros H. injection H as <-. exists st, t.
    split; [reflexivity | split; [exact Ht | split; [exact Hts |
      split; [exact Htt | left]]]].
    eexists. split; [reflexivity | cbn; auto].
  - destruct (report_rows heap (rate_dec rq) (matches st)) as [body|e] eqn:Hb;
      cbn [bind]; [|discriminate].
    unfold total_row.
    destruct (format_2f heap (total st)) as [ts|fe] eqn:Hts;
      cbn [lift_format bind]; [|discriminate].
    destruct (format_2f heap t) as [tt|fe] eqn:Htt;
      cbn [lift_format bind]; [|discriminate].
    intros H. injection H as <-. exists st, t.
    cbn [reported_total reported_tithe].
    match goal with |- context [StreamingResponse (?h :: ?b ++ ?l)] =>
      change (h :: b ++ l) with ((h :: b) ++ l) end.
    rewrite !last_two.
    split; [reflexivity | split; [exact Ht | split; [exact Hts |
      split; [exact Htt | right]]]].
    exists body. eexists. split; [exact Hb | split; [|reflexivity]].
    unfold bind. rewrite Hts, Htt. reflexivity.
Qed.

End EndpointFacts.

(* ===================================================================== *)
(** * The claims about rows, diagnostics and matches *)
(* ===================================================================== *)

Module RowClaims.

Import PyStr PyDate PyDecimal RoundSpec App Spec Props Scenario.
Import DecimalFacts LoopFacts RowFacts StringFacts EndpointFacts.

Local Open Scope string_scope.
Local Open Scope list_scope.

(** C7. A request whose bounds do not parse, whose end date precedes its
    start date, or whose upload is empty is rejected with an
    [HTTPException] of status 400: no response is produced, and the
    rejection is the same whatever the reader would deliver, so no row is
    read or processed. *)
Theorem C7_request_rejected_before_any_row heap (rq : Request) :
  strptime (start rq) "%Y-%m-%d" = None
  \/ strptime (end_ rq) "%Y-%m-%d" = None
  \/ (exists s e, strptime (start rq) "%Y-%m-%d" = Some s
                  /\ strptime (end_ rq) "%Y-%m-%d" = Some e
                  /\ date_lt e s = true)
  \/ file rq = [] ->
  exists detail, forall csv_reader,
    tithing heap csv_reader rq = Raise (HTTPException 400 detail).
Proof.
  intros H. unfold tithing.
  destruct (strptime (start rq) "%Y-%m-%d") as [s|] eqn:Es.
  2:{ eexists. intros rd. reflexivity. }
  destruct (strptime (end_ rq) "%Y-%m-%d") as [e|] eqn:Ee.
  2:{ eexists. intros rd. reflexivity. }
  destruct (date_lt e s) eqn:El.
  { eexists. intros rd. reflexivity. }
  destruct (file rq) as [|b data] eqn:Ef.
  { eexists. intros rd. reflexivity. }
  exfalso. destruct H as [H | [H | [(s' & e' & Hs & He & Hl) | H]]];
    try discriminate H.
  injection Hs as <-. injection He as <-. congruence.
Qed.

(** An instance: the request whose end date precedes its start date is
    refused with status 400, whatever the upload holds. *)
Lemma C7_witness :
  exists detail, forall csv_reader,
    tithing no_heap csv_reader bad_request = Raise (HTTPException 400 detail).
Proof.
  apply (C7_request_rejected_before_any_row no_heap bad_request).
  left. reflexivity.
Defined.

(** C5. A row whose date does not parse: on line 1 the run is the run of
    the statement with a blank line in its place (nothing is recorded); on
    any other line matches and total are those of the run with a blank line
    in its place, and one diagnostic, carrying the line number and the
    text of the date, stands in [errors] between the diagnostics of the
    rows before and those of the rows after. *)
Theorem C5_date_failure_header_heuristic heap
        (f : Filter) (pre : list Row) (row : Row) (post : list Row) (e : PyExn) :
  row <> [] ->
  parse_date (date_text row) = Raise e ->
  (pre = [] -> run heap f (row :: post) = run heap f ([] :: post))
  /\ (pre <> [] ->
      matches (run heap f (pre ++ row :: post)) = matches (run heap f (pre ++ [] :: post))
      /\ total (run heap f (pre ++ row :: post)) = total (run heap f (pre ++ [] :: post))
      /\ exists later,
           errors (run heap f (pre ++ row :: post))
           = errors (run heap f pre)
             ++ ("Line " ++ str_of_N (line_of pre)
                 ++ ": Invalid date value (expected MM/DD/YYYY): "
                 ++ repr (date_text row))%string :: later
           /\ errors (run heap f (pre ++ [] :: post)) = errors (run heap f pre) ++ later).
Proof.
  intros Hrow Hdate. split.
  - intros _. apply (run_row_skip heap f [] row post).
    rewrite try_row_eq, Hdate. reflexivity.
  - intros Hpre.
    pose proof (parse_date_raise _ _ Hdate) as He.
    assert (Htry : try_row heap f (total (run heap f pre)) (line_of pre) row
                   = (total (run heap f pre), Raise e)).
    { rewrite try_row_eq, Hdate, line_of_not_first by assumption. reflexivity. }
    pose proof (run_row_error heap f pre row post e Hrow Htry) as (Hm & Ht & later & H1 & H2).
    split; [exact Hm | split; [exact Ht |]].
    exists later. split; [|exact H2]. subst e. exact H1.
Qed.

(** An instance: the header row on line 1 is passed over without a
    diagnostic, and a row dated 2025-09-16 on line 4 is recorded. *)
Lemma C5_witness :
  (run no_heap september (header_row :: [payroll_row; debit_row])
   = run no_heap september ([] :: [payroll_row; debit_row]))
  /\ errors (run no_heap september (header_row :: [payroll_row; debit_row])) = []
  /\ exists later,
       errors (run no_heap september (statement ++ bad_date_row :: [payroll_row]))
       = errors (run no_heap september statement)
         ++ "Line 4: Invalid date value (expected MM/DD/YYYY): '2025-09-16'"
            :: later.
Proof.
  split; [|split].
  - apply (C5_date_failure_header_heuristic no_heap september [] header_row
             [payroll_row; debit_row]
             (HTTPException 400
                "Invalid date value (expected MM/DD/YYYY): 'Date'"));
      [discriminate | reflexivity | reflexivity].
  - vm_compute. reflexivity.
  - destruct (C5_date_failure_header_heuristic no_heap september statement bad_date_row
                [payroll_row]
                (HTTPException 400
                   "Invalid date value (expected MM/DD/YYYY): '2025-09-16'")
                ltac:(discriminate) ltac:(reflexivity)) as [_ H].
    destruct (H ltac:(discriminate)) as (_ & _ & later & H1 & _).
    exists later. exact H1.
Defined.




(** C6, as the code has it.  The match list is the list of the records of
    the rows that are entered, in the order of the rows, each once: the
    rows with a date in range, a strictly positive amount and a
    description containing the needle whose amount can be added to the
    total as it stands when the row is read and can be written with two
    decimals.  A row that passes the three filters and is not entered
    leaves a diagnostic with its line number instead: that of Overflow, or
    that of a failure of the two-decimal format, and the latter only when
    the total is +Infinity already. *)
Theorem C6_matches_are_the_entered_rows heap (f : Filter) (reader : list Row) :
  matches (run heap f reader)
  = map (record_of heap) (chosen (entered heap f) reader)
  /\ forall pre row post,
       reader = pre ++ row :: post ->
       qualifies f row = true ->
       entered heap f pre row = false ->
       In (overflow_line (line_of pre)) (errors (run heap f reader))
       \/ (total (run heap f pre) = Infinity false
           /\ exists fe,
                In (error_line (line_of pre) (format_exn fe))
                   (errors (run heap f reader))).
Proof.
  split; [apply matches_chosen|].
  intros pre row post -> Hq He. unfold entered in He. rewrite Hq in He.
  apply not_entered; assumption.
Qed.

(** An instance: the statement followed by a payroll row of the first
    day gives the two matches, in the order of the rows; and in the
    statement that holds a deposit of Infinity and then one of ten to the
    power 999999999999999999, the second is not entered and leaves the
    diagnostic of [format]. *)
Lemma C6_witness :
  map m_amount (matches (run no_heap september (statement ++ [first_day_row])))
  = map m_amount
      (map (record_of no_heap)
         (chosen (entered no_heap september) (statement ++ [first_day_row])))
  /\ map m_amount (matches (run no_heap september (statement ++ [first_day_row])))
     = ["1500.00"; "250.00"]
  /\ (In (overflow_line 2) (errors (run no_heap september [infinity_row; vast_row]))
      \/ (total (run no_heap september [infinity_row]) = Infinity false
          /\ exists fe,
               In (error_line 2 (format_exn fe))
                  (errors (run no_heap september [infinity_row; vast_row])))).
Proof.
  pose proof (C6_matches_are_the_entered_rows no_heap september
                (statement ++ [first_day_row])) as [H _].
  pose proof (C6_matches_are_the_entered_rows no_heap september
                [infinity_row; vast_row]) as [_ H'].
  split; [rewrite H; reflexivity | split; [vm_compute; reflexivity|]].
  apply (H' [infinity_row] vast_row []); reflexivity.
Defined.

(** C6 as stated fails: a row with a date in range, a strictly positive
    amount and a description containing the needle whose amount overflows
    the total is recorded as a diagnostic and is absent from the match
    list; and after a deposit of Infinity, such a row whose amount
    [format] refuses is recorded as a diagnostic and is absent from the
    match list, though it is added to the total. *)
Lemma C6_counterexample :
  (qualifies september huge_row = true
   /\ matches (run no_heap september [huge_row]) = []
   /\ errors (run no_heap september [huge_row])
      = ["Line 1: Overflow: [<class 'decimal.Overflow'>]"])
  /\ (qualifies september vast_row = true
      /\ map m_amount (matches (run no_heap september [infinity_row; vast_row]))
         = ["Infinity"]
      /\ errors (run no_heap september [infinity_row; vast_row])
         = ["Line 2: ValueError: format specification exceeds internal limits of _decimal"]).
Proof. repeat split. Qed.

(** C8, as the code has it.  A row dated exactly on the start or on the
    end of a range that passed validation, with a strictly positive amount
    and a description containing the needle, is appended to the match
    list, with its amount written with two decimals, provided the addition
    of its amount to the total returns and, should the total be +Infinity
    already, its amount can be written with two decimals. *)
Theorem C8_range_is_inclusive heap
        (f : Filter) (pre : list Row) (row : Row) (post : list Row)
        (d : date) (a t' : Decimal) :
  date_le (start_date f) (end_date f) = true ->
  parse_date (date_text row) = Ok d ->
  d = start_date f \/ d = end_date f ->
  parse_decimal (Some (amount_text row)) = Ok a ->
  positive a = true ->
  contains (needle f) (haystack f row) = true ->
  add (total (run heap f pre)) a = Ok t' ->
  (total (run heap f pre) = Infinity false ->
   exists shown, format_2f heap a = Ok shown) ->
  exists shown later,
    format_2f heap a = Ok shown
    /\ matches (run heap f (pre ++ row :: post))
       = matches (run heap f pre)
         ++ mkMatch (isoformat d) shown (strip (description_text row)) :: later.
Proof.
  intros Hv Hd Hb Ha Hp Hc Hadd Hinf.
  assert (Hrow : row <> []).
  { intros ->. rewrite date_text_nil_fails in Hd. discriminate. }
  assert (Hr : in_range f d = true).
  { unfold in_range. destruct Hb as [-> | ->];
      rewrite date_le_refl, Hv; reflexivity. }
  destruct (added_amount_shown heap _ a t' (total_nonneg heap f pre) Hp Hadd Hinf)
    as (shown & Hf).
  exists shown.
  destruct (run_row_match heap f pre row post
              (mkMatch (isoformat d) shown (strip (description_text row))) t' Hrow)
    as (later & H); [|eauto].
  rewrite (try_row_qualifies heap f _ _ row d a t') by assumption.
  rewrite Hf. reflexivity.
Qed.

(** An instance: the payroll row dated on the start date is matched. *)
Lemma C8_witness :
  exists later,
    matches (run no_heap september (statement ++ first_day_row :: [bad_amount_row]))
    = matches (run no_heap september statement)
      ++ mkMatch "2025-09-01" "250.00" "Millwork Dev Payroll" :: later.
Proof.
  destruct (C8_range_is_inclusive no_heap september statement first_day_row
              [bad_amount_row] (mkdate 2025 9 1) (Finite false 25000 (-2))
              (Finite false 175000 (-2)))
    as (shown & later & Hf & H); try reflexivity.
  - left. reflexivity.
  - intros E. vm_compute in E. discriminate E.
  - vm_compute in Hf. injection Hf as <-. exists later. exact H.
Defined.

(** C8 as stated fails: a row dated on the start date that passes the
    other filter stages is absent from the match list when the addition of
    its amount overflows, and when, after a deposit of Infinity, [format]
    refuses its amount. *)
Lemma C8_counterexample :
  (parse_date (date_text huge_row) = Ok (start_date september)
   /\ (exists a, parse_decimal (Some (amount_text huge_row)) = Ok a
                 /\ positive a = true)
   /\ contains (needle september) (haystack september huge_row) = true
   /\ matches (run no_heap september (statement ++ [huge_row]))
      = matches (run no_heap september statement))
  /\ (parse_date (date_text vast_row) = Ok (start_date september)
      /\ (exists a, parse_decimal (Some (amount_text vast_row)) = Ok a
                    /\ positive a = true)
      /\ contains (needle september) (haystack september vast_row) = true
      /\ matches (run no_heap september ([infinity_row] ++ [vast_row]))
         = matches (run no_heap september [infinity_row])).
Proof.
  split; (split; [reflexivity | split; [|split; reflexivity]]);
    eexists; split; reflexivity.
Qed.

(** C9, as the code has it.  With an empty needle in the request, a row
    whose date parses and lies in the range and whose amount is strictly
    positive is appended to the match list, with its amount written with
    two decimals, provided the addition of its amount to the total returns
    and, should the total be +Infinity already, its amount can be written
    with two decimals: the substring stage rejects no row. *)
Theorem C9_empty_needle_rejects_no_row heap
        (rq : Request) (s e : date) (pre : list Row) (row : Row)
        (post : list Row) (d : date) (a t' : Decimal) :
  desc_contains rq = EmptyString ->
  parse_date (date_text row) = Ok d ->
  in_range (filter_of rq s e) d = true ->
  parse_decimal (Some (amount_text row)) = Ok a ->
  positive a = true ->
  add (total (run heap (filter_of rq s e) pre)) a = Ok t' ->
  (total (run heap (filter_of rq s e) pre) = Infinity false ->
   exists shown, format_2f heap a = Ok shown) ->
  exists shown later,
    format_2f heap a = Ok shown
    /\ matches (run heap (filter_of rq s e) (pre ++ row :: post))
       = matches (run heap (filter_of rq s e) pre)
         ++ mkMatch (isoformat d) shown (strip (description_text row)) :: later.
Proof.
  intros Hn Hd Hr Ha Hp Hadd Hinf.
  assert (Hrow : row <> []).
  { intros ->. rewrite date_text_nil_fails in Hd. discriminate. }
  assert (Hneedle : needle (filter_of rq s e) = EmptyString).
  { unfold filter_of. cbn [needle]. rewrite Hn.
    destruct (req_case_insensitive rq); reflexivity. }
  destruct (added_amount_shown heap _ a t' (total_nonneg heap _ pre) Hp Hadd Hinf)
    as (shown & Hf).
  exists shown.
  destruct (run_row_match heap (filter_of rq s e) pre row post
              (mkMatch (isoformat d) shown (strip (description_text row))) t' Hrow)
    as (later & H); [|eauto].
  rewrite (try_row_qualifies heap _ _ _ row d a t'); try assumption.
  - rewrite Hf. reflexivity.
  - rewrite Hneedle. apply contains_empty.
Qed.

(** An instance: with no needle in the request, a deposit whose
    description is unrelated is matched. *)
Lemma C9_witness :
  exists later,
    matches (run no_heap (filter_of any_request (mkdate 2025 9 1) (mkdate 2025 9 30))
               ([header_row] ++ other_deposit_row :: [payroll_row]))
    = matches (run no_heap (filter_of any_request (mkdate 2025 9 1) (mkdate 2025 9 30))
                 [header_row])
      ++ mkMatch "2025-09-20" "200.00" "UNRELATED DEPOSIT" :: later.
Proof.
  destruct (C9_empty_needle_rejects_no_row no_heap any_request (mkdate 2025 9 1)
              (mkdate 2025 9 30) [header_row]
              other_deposit_row
              [payroll_row] (mkdate 2025 9 20) (Finite false 20000 (-2))
              (Finite false 20000 (-2)))
    as (shown & later & Hf & H); try reflexivity.
  - intros E. vm_compute in E. discriminate E.
  - vm_compute in Hf. injection Hf as <-. exists later. exact H.
Defined.

(** C9 as stated fails: with an empty needle, a row that passes the date
    and amount stages is absent from the match list when the addition of
    its amount overflows, and when, after a deposit of Infinity, [format]
    refuses its amount. *)
Lemma C9_counterexample :
  needle september_any = EmptyString
  /\ ((exists d, parse_date (date_text huge_row) = Ok d
                 /\ in_range september_any d = true)
      /\ (exists a, parse_decimal (Some (amount_text huge_row)) = Ok a
                    /\ positive a = true)
      /\ matches (run no_heap september_any [huge_row]) = [])
  /\ ((exists d, parse_date (date_text vast_row) = Ok d
                 /\ in_range september_any d = true)
      /\ (exists a, parse_decimal (Some (amount_text vast_row)) = Ok a
                    /\ positive a = true)
      /\ matches (run no_heap september_any ([infinity_row] ++ [vast_row]))
         = matches (run no_heap september_any [infinity_row])).
Proof.
  split; [reflexivity|].
  split; (split; [|split; [|reflexivity]]); eexists; split; reflexivity.
Qed.

End RowClaims.

(* ===================================================================== *)
(** * The claims about amounts, totals and tithes *)
(* ===================================================================== *)

Module MoneyClaims.

Import PyStr PyDate PyDecimal RoundSpec App Spec Scenario.
Import DecimalFacts LoopFacts RowFacts StringFacts EndpointFacts.

Local Open Scope string_scope.
Local Open Scope list_scope.

Lemma final_state_good heap rd rq st :
  final_state heap rd rq = Some st ->
  good_total (total st) /\ Forall (amount_shown heap) (matches st).
Proof.
  unfold final_state.
  destruct (strptime (start rq) "%Y-%m-%d"); [|discriminate].
  destruct (strptime (end_ rq) "%Y-%m-%d"); [|discriminate].
  intros H. injection H as <-. split; [apply run_good | apply run_shown].
Qed.

(** A row of the report, once written, is what the specification says of
    the contribution of its match record. *)
Lemma report_row_contribution heap rate r row :
  valid_rate rate = true ->
  amount_shown heap r ->
  report_row heap rate r = Ok row ->
  contribution_row rate r row.
Proof.
  intros Hv (a & Hp & Hm) Hrow.
  destruct (valid_rate_finite rate Hv) as (sr & cr & er & ->).
  unfold report_row in Hrow. unfold contribution_row.
  destruct a as [[|] c e|[|]|]; try discriminate Hp.
  - apply format_finite in Hm. rewrite Hm, parse_render in *.
    set (q := cents ROUND_HALF_EVEN c e) in *.
    destruct (within_limits q (-2)); [|discriminate Hrow].
    destruct (compute_tithe (Finite false q (-2)) (Finite sr cr er))
      as [per|sg] eqn:Ht; cbn [lift bind] in Hrow; [|discriminate Hrow].
    apply compute_tithe_finite in Ht as (c0 & e0 & n & Hmul & -> & Hu & Hx).
    cbn [xorb] in *.
    destruct (format_2f heap (Finite false q (-2))) as [qs|] eqn:Eq;
      cbn [lift_format bind] in Hrow; [|discriminate Hrow].
    destruct (format_2f heap (Finite sr n (-2))) as [ns|] eqn:En;
      cbn [lift_format bind] in Hrow; [|discriminate Hrow].
    apply format_cents_inv in Eq. apply format_cents_inv in En.
    subst qs ns. injection Hrow as <-.
    exists q, sr, cr, er, c0, e0, n.
    split; [reflexivity | split; [reflexivity | split; [exact Hmul |
      split; [exact Hu | split; [exact Hx | reflexivity]]]]].
  - cbn in Hm. injection Hm as Hm. rewrite <- Hm in Hrow. exfalso. revert Hrow.
    change (Decimal_of_string "Infinity") with (Some (Infinity false)).
    unfold compute_tithe, mul. cbn [_check_nans].
    destruct (cr =? 0)%N; discriminate.
Qed.

Lemma report_rows_contribution heap rate : forall ms body,
  valid_rate rate = true ->
  Forall (amount_shown heap) ms ->
  report_rows heap rate ms = Ok body ->
  Forall2 (contribution_row rate) ms body.
Proof.
  induction ms as [|r ms IH]; intros body Hv Hs.
  - cbn. intros H. injection H as <-. constructor.
  - cbn [report_rows]. inversion Hs as [|? ? Hr Hms]; subst.
    destruct (report_row heap rate r) as [row|] eqn:Er; cbn [bind]; [|discriminate].
    destruct (report_rows heap rate ms) as [more|] eqn:Em; cbn [bind]; [|discriminate].
    intros H. injection H as <-. constructor.
    + apply (report_row_contribution heap); assumption.
    + apply IH; auto.
Qed.

Lemma report_body_written h body blank tot :
  report_body (h :: body ++ [blank; tot]) = body.
Proof.
  unfold report_body. cbn [List.tl].
  change (body ++ [blank; tot]) with (body ++ [blank] ++ [tot]).
  rewrite app_assoc, removelast_last, removelast_last. reflexivity.
Qed.

(** C1, as the code has it.  For a rate in [0, 1] and a run that returns a
    response, the tithe shown is [n] cents with the sign of the product,
    where [n] is the half-up rounding to cents of the product of total and
    rate as the decimal context delivers it (rounded half-even to 28
    significant digits); [n] is the half-up rounding of the exact product
    whenever the coefficient of the exact product has at most 28 digits. *)
Theorem C1_tithe_is_rounded_half_up heap rd rq resp :
  valid_rate (rate_dec rq) = true ->
  tithing heap rd rq = Ok resp ->
  exists st ts tc te rs rc re c e n,
    final_state heap rd rq = Some st
    /\ total st = Finite ts tc te
    /\ rate_dec rq = Finite rs rc re
    /\ mul (total st) (rate_dec rq) = Ok (Finite (xorb ts rs) c e)
    /\ is_half_up c e n
    /\ reported_tithe resp = render_cents (xorb ts rs) n
    /\ (ndigits (tc * rc) <= prec -> is_half_up (tc * rc) (te + re) n).
Proof.
  intros Hv Hok.
  destruct (tithing_ok heap rd rq resp Hok) as (st & t & Hst & Ht & _ & Htithe & _).
  destruct (final_state_good heap rd rq st Hst) as [Hg _].
  destruct (valid_rate_finite _ Hv) as (rs & rc & re & Hr).
  rewrite Hr in Ht.
  destruct (compute_tithe_total_finite _ _ _ _ _ Hg Ht) as (ts & tc & te & Htot).
  rewrite Htot in Ht.
  apply compute_tithe_finite in Ht as (c & e & n & Hmul & -> & Hu & Hx).
  exists st, ts, tc, te, rs, rc, re, c, e, n.
  apply format_cents_inv in Htithe. rewrite Htot, Hr, Htithe.
  split; [exact Hst | split; [reflexivity | split; [reflexivity |
    split; [exact Hmul | split; [exact Hu | split; [reflexivity | exact Hx]]]]]].
Qed.

(** The example of the claim: a total of 1234.565 at the rate 0.10 gives
    the tithe 123.46. *)
Lemma C1_witness :
  total (run no_heap september [fraction_row]) = Finite false 1234565 (-3)
  /\ exists resp,
       tithing no_heap (reader_of [fraction_row]) (request json rate_tenth 10) = Ok resp
       /\ reported_tithe resp = "123.46"
       /\ exists n, is_half_up (1234565 * 1) (-3 + -1) n
                    /\ reported_tithe resp = render_cents false n.
Proof.
  split; [vm_compute; reflexivity|].
  destruct (tithing no_heap (reader_of [fraction_row]) (request json rate_tenth 10))
    as [resp|] eqn:E; [|vm_compute in E; discriminate E].
  exists resp. split; [reflexivity | split].
  - vm_compute in E. injection E as <-. reflexivity.
  - destruct (C1_tithe_is_rounded_half_up no_heap (reader_of [fraction_row])
                (request json rate_tenth 10) resp eq_refl E)
      as (st & ts & tc & te & rs & rc & re & c & e & n
          & Hst & Htot & Hr & _ & _ & Hshown & Hx).
    vm_compute in Hst. injection Hst as <-.
    vm_compute in Htot. injection Htot as <- <- <-.
    vm_compute in Hr. injection Hr as <- <- <-.
    exists n. split; [apply Hx; vm_compute; discriminate | exact Hshown].
Defined.

Ltac half_up_by_computation :=
  unfold is_half_up, num, den; vm_compute; split; [discriminate | reflexivity].

(** C1 as stated fails: with the rate 0.3333333333333333 (the decimal
    text of the float 1/3) and one deposit of 50000000000000.03, the exact
    product is 16666666666666.674999999999999999, which rounds half up to
    16666666666666.67; the context first rounds the product to 28 digits,
    16666666666666.67500000000000, and the tithe shown is
    16666666666666.68. *)
Lemma C1_counterexample :
  valid_rate rate_third = true
  /\ total (run no_heap september [trillions_row]) = Finite false 5000000000000003 (-2)
  /\ is_half_up (5000000000000003 * 3333333333333333) (-2 + -16)
                1666666666666667
  /\ render_cents false 1666666666666667 = "16666666666666.67"
  /\ exists resp,
       tithing no_heap (reader_of [trillions_row]) (request json rate_third 33) = Ok resp
       /\ reported_tithe resp = "16666666666666.68".
Proof.
  split; [reflexivity | split; [vm_compute; reflexivity | split; [| split]]].
  - half_up_by_computation.
  - vm_compute. reflexivity.
  - eexists. split; vm_compute; reflexivity.
Qed.

(** C3, as the code has it.  For a rate in [0, 1] and a run that returns
    the CSV report, the rows between the header and the blank row are, in
    order, the rows of the match records, and each is determined by its
    record and the rate alone: its amount column is the two-decimal amount
    the record shows, and its contribution is the half-up rounding to
    cents of the product of that shown amount and the rate as the decimal
    context delivers it, which is the half-up rounding of the exact
    product whenever the coefficient of the exact product has at most 28
    digits. *)
Theorem C3_report_row_contribution heap rd rq written :
  valid_rate (rate_dec rq) = true ->
  tithing heap rd rq = Ok (StreamingResponse written) ->
  exists st,
    final_state heap rd rq = Some st
    /\ Forall2 (contribution_row (rate_dec rq)) (matches st)
               (report_body written).
Proof.
  intros Hv Hok.
  destruct (tithing_ok heap rd rq _ Hok) as (st & t & Hst & _ & _ & _ & Hresp).
  destruct (final_state_good heap rd rq st Hst) as [_ Hs].
  exists st. split; [exact Hst|].
  destruct Hresp as [(body & Hj & _) | (body & last_row & Hb & _ & Hw)];
    [discriminate Hj|].
  injection Hw as ->. rewrite report_body_written.
  apply (report_rows_contribution heap); assumption.
Qed.

(** An instance: the statement at the rate 0.10 gives one report row,
    whose contribution is 150.00. *)
Lemma C3_witness :
  exists written,
    tithing no_heap (reader_of statement) (request csv rate_tenth 10)
    = Ok (StreamingResponse written)
    /\ report_body written
       = [["2025-09-15"; "1500.00"; "MILLWORK DEV PAYROLL #123"; "150.00"]]
    /\ Forall2 (contribution_row rate_tenth)
         (matches (run no_heap september statement)) (report_body written).
Proof.
  destruct (tithing no_heap (reader_of statement) (request csv rate_tenth 10))
    as [[body|written]|] eqn:E;
    [vm_compute in E; discriminate E | | vm_compute in E; discriminate E].
  exists written. split; [reflexivity | split].
  - vm_compute in E. injection E as <-. reflexivity.
  - destruct (C3_report_row_contribution no_heap (reader_of statement)
                (request csv rate_tenth 10) written eq_refl E) as (st & Hst & H).
    vm_compute in Hst. injection Hst as <-. exact H.
Defined.

(** C3 as stated fails: for the deposit of 50000000000000.03 (its exact
    amount and the amount its report row shows) at the rate
    0.3333333333333333, the exact product rounds half up to
    16666666666666.67, and the contribution in the report row is
    16666666666666.68. *)
Lemma C3_counterexample :
  parse_decimal (Some (amount_text trillions_row))
  = Ok (Finite false 5000000000000003 (-2))
  /\ is_half_up (5000000000000003 * 3333333333333333) (-2 + -16)
                1666666666666667
  /\ render_cents false 1666666666666667 = "16666666666666.67"
  /\ exists written,
       tithing no_heap (reader_of [trillions_row]) (request csv rate_third 33)
       = Ok (StreamingResponse written)
       /\ report_body written
          = [["2025-09-15"; "50000000000000.03"; "MILLWORK DEV PAYROLL";
              "16666666666666.68"]].
Proof.
  split; [vm_compute; reflexivity | split; [| split]].
  - half_up_by_computation.
  - vm_compute. reflexivity.
  - eexists. split; vm_compute; reflexivity.
Qed.

(** C10. For a rate in [0, 1] and a run that returns a response, the total
    shown (the field [total_deposits] of the JSON body, the amount of the
    TOTAL row of the CSV report) is the total rounded half even to cents;
    and there is a run, of one deposit of 0.125, whose total shown, 0.12,
    is not the total rounded half up, 0.13. *)
Theorem C10_total_is_shown_half_even heap :
  (forall rd rq resp,
      valid_rate (rate_dec rq) = true ->
      tithing heap rd rq = Ok resp ->
      exists st s c e n,
        final_state heap rd rq = Some st
        /\ total st = Finite s c e
        /\ is_half_even c e n
        /\ reported_total resp = render_cents s n)
  /\ (exists resp,
        tithing heap (reader_of [eighth_row]) (request json rate_tenth 10) = Ok resp
        /\ total (run heap september [eighth_row]) = Finite false 125 (-3)
        /\ is_half_even 125 (-3) 12
        /\ is_half_up 125 (-3) 13
        /\ reported_total resp = render_cents false 12
        /\ reported_total resp <> render_cents false 13).
Proof.
  split.
  - intros rd rq resp Hv Hok.
    destruct (tithing_ok heap rd rq resp Hok) as (st & t & Hst & Ht & Htot & _ & _).
    destruct (final_state_good heap rd rq st Hst) as [Hg _].
    destruct (valid_rate_finite _ Hv) as (rs & rc & re & Hr).
    rewrite Hr in Ht.
    destruct (compute_tithe_total_finite _ _ _ _ _ Hg Ht) as (s & c & e & Hs).
    exists st, s, c, e, (cents ROUND_HALF_EVEN c e).
    split; [exact Hst | split; [exact Hs | split; [apply cents_half_even|]]].
    rewrite Hs in Htot. apply format_finite in Htot. exact Htot.
  - eexists. split; [vm_compute; reflexivity|].
    split; [vm_compute; reflexivity|].
    split; [apply (cents_half_even 125 (-3))|].
    split; [half_up_by_computation|].
    split; [vm_compute; reflexivity | vm_compute; discriminate].
Qed.

(** An instance: the total of the statement is shown as 1500.00. *)
Lemma C10_witness :
  exists resp n,
    tithing no_heap (reader_of statement) (request csv rate_tenth 10) = Ok resp
    /\ is_half_even 150000 (-2) n
    /\ reported_total resp = render_cents false n
    /\ reported_total resp = "1500.00".
Proof.
  destruct (tithing no_heap (reader_of statement) (request csv rate_tenth 10))
    as [resp|] eqn:E; [|vm_compute in E; discriminate E].
  destruct (proj1 (C10_total_is_shown_half_even no_heap) (reader_of statement)
              (request csv rate_tenth 10) resp eq_refl E)
    as (st & s & c & e & n & Hst & Htot & Hn & Hshown).
  vm_compute in Hst. injection Hst as <-.
  vm_compute in Htot. injection Htot as <- <- <-.
  exists resp, n. split; [reflexivity | split; [exact Hn | split; [exact Hshown|]]].
  vm_compute in E. injection E as <-. reflexivity.
Defined.

(** C2, which the code breaks.  [parse_decimal] returns zero for [None]
    only; the empty text, and a text of blanks, raise the invalid-amount
    error.  The loop never passes [None]: a row that lacks the amount
    column is padded with the empty text, so it is recorded as a
    diagnostic and not passed over in silence. *)
Theorem C2_empty_amount_raises heap :
  parse_decimal None = Ok Decimal_0
  /\ parse_decimal (Some EmptyString)
     = Raise (HTTPException 400 "Invalid amount value: ''")
  /\ parse_decimal (Some "   ")
     = Raise (HTTPException 400 "Invalid amount value: ''")
  /\ amount_text (pad short_row) = EmptyString
  /\ errors (run heap september [short_row]) = ["Line 1: Invalid amount value: ''"]
  /\ matches (run heap september [short_row]) = [].
Proof. repeat split. Qed.

End MoneyClaims.
(* ===================================================================== *)
(** * Further facts about the row decoder, the loop and the report *)
(* ===================================================================== *)

Module DecoderFacts.

Import PyStr PyDate PyDecimal RoundSpec App Spec Props.
Import DecimalFacts LoopFacts RowFacts StringFacts EndpointFacts.


Lemma iter_numbered_rows reader : forall i,
  map snd (iter_numbered (enumerate i reader)) = map pad (filter nonblank reader).
Proof.
  induction reader as [|row rest IH]; intros i; [reflexivity|].
  cbn [enumerate iter_numbered filter]. unfold nonblank at 1.
  destruct (is_empty row); cbn; [apply IH | f_equal; apply IH].
Qed.

Lemma in_iter_numbered reader : forall k i r,
  In (i, r) (iter_numbered (enumerate k reader)) <->
  (k <= i)%N
  /\ exists row, nth_error reader (N.to_nat (i - k)) = Some row
                 /\ row <> [] /\ r = pad row.
Proof.
  induction reader as [|row rest IH]; intros k i r.
  - cbn. split; [tauto|]. intros (_ & row & H & _).
    destruct (N.to_nat (i - k)); discriminate.
  - cbn [enumerate iter_numbered].
    assert (Hstep : (k < i)%N ->
                    N.to_nat (i - k) = S (N.to_nat (i - (k + 1)))) by lia.
    assert (Hrest : In (i, r) (iter_numbered (enumerate (k + 1) rest)) <->
                    (k < i)%N /\ exists row', nth_error (row :: rest) (N.to_nat (i - k)) = Some row'
                                   /\ row' <> [] /\ r = pad row').
    { rewrite IH. split.
      - intros (Hk & row' & Hn & Hne & Hr). split; [lia|].
        exists row'. rewrite Hstep by lia. auto.
      - intros (Hk & row' & Hn & Hne & Hr). split; [lia|].
        exists row'. rewrite Hstep in Hn by lia. auto. }
    assert (Hhead : forall row', (k <= i)%N ->
               nth_error (row :: rest) (N.to_nat (i - k)) = Some row' ->
               i = k /\ row' = row \/ (k < i)%N).
    { intros row' Hk Hn. destruct (N.eq_dec i k) as [->|Hne]; [|right; lia].
      left. replace (N.to_nat (k - k)) with 0%nat in Hn by lia.
      cbn in Hn. injection Hn as <-. auto. }
    destruct row as [|c row]; cbn [is_empty].
    + rewrite Hrest. split.
      * intros (Hk & H). split; [lia | exact H].
      * intros (Hk & row' & Hn & Hne & Hr).
        destruct (Hhead row' Hk Hn) as [(_ & ->)|Hlt]; [congruence|].
        split; [exact Hlt|]. exists row'. auto.
    + cbn [In]. rewrite Hrest. split.
      * intros [Heq | (Hk & H)].
        -- injection Heq as <- <-. split; [lia|]. exists (c :: row).
           replace (N.to_nat (k - k)) with 0%nat by lia.
           split; [reflexivity | split; [discriminate | reflexivity]].
        -- split; [lia | exact H].
      * intros (Hk & row' & Hn & Hne & Hr).
        destruct (Hhead row' Hk Hn) as [(-> & ->)|Hlt].
        -- left. congruence.
        -- right. split; [exact Hlt|]. exists row'. auto.
Qed.

Lemma fst_iter_numbered_lower reader : forall k,
  Forall (fun i => (k <= i)%N) (map fst (iter_numbered (enumerate k reader))).
Proof.
  induction reader as [|row rest IH]; intros k; [constructor|].
  cbn [enumerate iter_numbered].
  assert (H : Forall (fun i => (k <= i)%N)
                (map fst (iter_numbered (enumerate (k + 1) rest)))).
  { eapply Forall_impl; [|apply IH]. cbn. intros; lia. }
  destruct (is_empty row); [exact H|]. cbn. constructor; [lia | exact H].
Qed.

Lemma fst_iter_numbered_sorted reader : forall k,
  StronglySorted N.lt (map fst (iter_numbered (enumerate k reader))).
Proof.
  induction reader as [|row rest IH]; intros k; [constructor|].
  cbn [enumerate iter_numbered].
  destruct (is_empty row); [apply IH|]. cbn. constructor; [apply IH|].
  eapply Forall_impl; [|apply (fst_iter_numbered_lower rest (k + 1))].
  cbn. intros; lia.
Qed.

Lemma nth_pad row k : nth k (pad row) EmptyString = nth k row EmptyString.
Proof.
  unfold pad. destruct (List.length row <? 5)%nat; [|reflexivity].
  destruct (Nat.lt_ge_cases k (List.length row)) as [H|H].
  - apply app_nth1. exact H.
  - rewrite app_nth2 by exact H. rewrite (nth_overflow row) by exact H.
    apply nth_repeat.
Qed.

Lemma length_pad row : List.length (pad row) = Nat.max 5 (List.length row).
Proof.
  unfold pad. destruct (Nat.ltb_spec (List.length row) 5) as [H|H].
  - rewrite length_app, repeat_length. lia.
  - lia.
Qed.

End DecoderFacts.

Module RunFacts.

Import PyStr PyDate PyDecimal RoundSpec App Spec Props.
Import DecimalFacts LoopFacts RowFacts StringFacts EndpointFacts.
Import DecoderFacts.
Local Open Scope string_scope.
Local Open Scope list_scope.

Lemma subsequence_refl {A} (l : list A) : subsequence l l.
Proof. induction l; constructor; assumption. Qed.

Lemma subsequence_snoc_keep {A} (l l' : list A) x :
  subsequence l l' -> subsequence (l ++ [x]) (l' ++ [x]).
Proof.
  induction 1; cbn; try (constructor; assumption).
  constructor. constructor.
Qed.

Lemma subsequence_snoc_skip {A} (l l' : list A) x :
  subsequence l l' -> subsequence l (l' ++ [x]).
Proof.
  induction 1; cbn; try (constructor; assumption).
  constructor. constructor.
Qed.

Lemma filter_snoc {A} (p : A -> bool) l x :
  filter p (l ++ [x]) = if p x then filter p l ++ [x] else filter p l.
Proof.
  rewrite filter_app. cbn. destruct (p x); [reflexivity | apply app_nil_r].
Qed.

Lemma matches_only_from_rows heap f reader :
  exists kept,
    matches (run heap f reader) = map (record_of heap) kept
    /\ subsequence kept (filter (qualifies f) reader)
    /\ Forall (written heap) kept.
Proof.
  apply (run_ind heap f (fun reader st =>
           exists kept, matches st = map (record_of heap) kept
                        /\ subsequence kept (filter (qualifies f) reader)
                        /\ Forall (written heap) kept)).
  - exists []. split; [reflexivity | split; constructor].
  - intros pre (kept & Hm & Hs & Hw). exists kept. split; [exact Hm|].
    rewrite filter_snoc, qualifies_nil. auto.
  - intros pre row (kept & Hm & Hs & Hw) Hrow. unfold step. rewrite filter_snoc.
    destruct (try_row_outcome heap f (total (run heap f pre)) (line_of pre) row
                (total_nonneg heap f pre))
      as [(-> & ->) | [(a & t' & shown & -> & Ha & _ & _ & Hf & ->)
         | [(e & -> & -> & _) | [(a & -> & _ & _ & _ & ->)
         | (a & fe & -> & _ & _ & _ & _ & ->)]]]]; cbn [matches].
    + exists kept. auto.
    + exists (kept ++ [row]). rewrite map_app, Hm. split; [reflexivity|].
      split; [apply subsequence_snoc_keep, Hs|].
      apply Forall_app. split; [exact Hw|]. constructor; [|constructor].
      exists a, shown. auto.
    + exists kept. auto.
    + exists kept. split; [exact Hm|]. split; [|exact Hw].
      apply subsequence_snoc_skip, Hs.
    + exists kept. split; [exact Hm|]. split; [|exact Hw].
      apply subsequence_snoc_skip, Hs.
Qed.

Lemma run_app_from heap f pre post :
  run heap f (pre ++ post)
  = run_from heap f (run heap f pre) (iter_numbered (enumerate (line_of pre) post)).
Proof.
  unfold run, iter_csv_rows. rewrite enumerate_app, iter_numbered_app, run_from_app.
  unfold line_of. rewrite N.add_comm. reflexivity.
Qed.

(** The line number bears on the diagnostics only. *)
Lemma step_line heap f st st' n n' row :
  matches st = matches st' -> total st = total st' ->
  matches (step heap f st (n, row)) = matches (step heap f st' (n', row))
  /\ total (step heap f st (n, row)) = total (step heap f st' (n', row)).
Proof.
  intros Hm Ht. unfold step. rewrite <- Ht, !try_row_eq.
  destruct (parse_date (date_text row)) as [d|e].
  2:{ destruct (n =? 1)%N, (n' =? 1)%N; cbn; auto. }
  destruct (negb (in_range f d)); [auto|].
  destruct (parse_decimal (Some (amount_text row))) as [a|e]; [|auto].
  destruct (le_zero a) as [[|]|sg]; auto.
  destruct (contains (needle f) (haystack f row)); [|auto].
  destruct (add (total st) a) as [t'|sg]; [|auto].
  destruct (format_2f heap a) as [shown|fe]; cbn [lift_format bind matches total];
    [|auto].
  rewrite Hm. auto.
Qed.

Lemma run_from_line heap f rows : forall i j st st',
  matches st = matches st' -> total st = total st' ->
  matches (run_from heap f st (iter_numbered (enumerate i rows)))
  = matches (run_from heap f st' (iter_numbered (enumerate j rows)))
  /\ total (run_from heap f st (iter_numbered (enumerate i rows)))
     = total (run_from heap f st' (iter_numbered (enumerate j rows))).
Proof.
  induction rows as [|row rows IH]; intros i j st st' Hm Ht; [auto|].
  cbn [enumerate iter_numbered]. destruct (is_empty row); [apply IH; assumption|].
  change (run_from heap f ?s (?nr :: ?l)) with (run_from heap f (step heap f s nr) l).
  destruct (step_line heap f st st' i j (pad row) Hm Ht). apply IH; assumption.
Qed.

Lemma row_of_date row d : parse_date (date_text row) = Ok d -> row <> [].
Proof. intros H ->. rewrite date_text_nil_fails in H. discriminate. Qed.

End RunFacts.

Module ReportFacts.

Import PyStr PyDate PyDecimal RoundSpec App Spec Props.
Import DecimalFacts LoopFacts RowFacts StringFacts EndpointFacts.
Import DecoderFacts RunFacts.
Local Open Scope string_scope.
Local Open Scope list_scope.

(** The endpoint once the request is accepted and the reader has read the
    upload to its end. *)
Lemma tithing_run heap rd rq s e reader :
  strptime (start rq) "%Y-%m-%d" = Some s ->
  strptime (end_ rq) "%Y-%m-%d" = Some e ->
  date_lt e s = false ->
  file rq <> [] ->
  rd (file rq) = (reader, None) ->
  tithing heap rd rq
  = (let st := run heap (filter_of rq s e) reader in
     tithe_ <- lift (compute_tithe (total st) (rate_dec rq)) ;;
     match format rq with
     | csv =>
         body <- report_rows heap (rate_dec rq) (matches st) ;;
         last_row <- total_row heap (total st) tithe_ ;;
         Ok (StreamingResponse
               (header (rate_pct rq) :: body ++ [[]; last_row]))
     | json =>
         tot_shown <- lift_format (format_2f heap (total st)) ;;
         tithe_shown <- lift_format (format_2f heap tithe_) ;;
         Ok (JSONResponse
               (mkJson
                  (mkFilters (isoformat s) (isoformat e) (desc_contains rq)
                     (rate_dec rq) (req_case_insensitive rq))
                  (List.length (matches st)) tot_shown tithe_shown
                  (matches st) (errors st)))
     end).
Proof.
  intros Hs He Hlt Hf Hr. unfold tithing. rewrite Hs, He, Hlt.
  destruct (file rq) as [|b data] eqn:Ef; [congruence|].
  rewrite Hr. reflexivity.
Qed.

(** Once the total is +Infinity it stays so. *)
Lemma step_infinite heap f st nr :
  total st = Infinity false -> total (step heap f st nr) = Infinity false.
Proof.
  intros Ht. destruct nr as [n row]. unfold step.
  destruct (try_row_outcome heap f (total st) n row)
    as [(-> & _) | [(a & t' & shown & _ & _ & Hp & Ha & _ & ->)
       | [(e & _ & -> & _) | [(a & _ & _ & _ & _ & ->)
       | (a & fe & _ & _ & _ & _ & _ & ->)]]]]; cbn [total]; auto.
  - rewrite Ht. exact eq_refl.
  - rewrite Ht in Ha. destruct a as [[|] c e|[|]|]; try discriminate;
      cbn in Ha; congruence.
Qed.

Lemma add_infinity t :
  good_total t -> add t (Infinity false) = Ok (Infinity false).
Proof.
  destruct t as [s c e|s|]; cbn; [reflexivity | intros ->; reflexivity | contradiction].
Qed.

Lemma total_infinite heap f reader row :
  In row reader -> qualifies f row = true ->
  parse_decimal (Some (amount_text row)) = Ok (Infinity false) ->
  total (run heap f reader) = Infinity false.
Proof.
  intros Hin Hq Ha. revert Hin.
  apply (run_ind heap f (fun reader st => In row reader -> total st = Infinity false)).
  - intros [].
  - intros pre IH Hin. apply in_app_or in Hin as [Hin|[<-|[]]]; [auto|].
    rewrite qualifies_nil in Hq. discriminate.
  - intros pre row' IH Hrow Hin. apply in_app_or in Hin as [Hin|[->|[]]].
    + apply step_infinite, IH, Hin.
    + unfold step.
      destruct (try_row_outcome heap f (total (run heap f pre)) (line_of pre) row
                  (total_nonneg heap f pre))
        as [(_ & H) | [(a & t' & shown & _ & Ha' & _ & Hadd & _ & ->)
           | [(e & H & _) | [(a & _ & Ha' & _ & Hadd & _)
           | (a & fe & _ & _ & _ & Ht & _ & ->)]]]];
        try congruence.
      * rewrite Ha in Ha'. injection Ha' as <-.
        rewrite add_infinity in Hadd by apply run_good.
        cbn [total]. congruence.
      * rewrite Ha in Ha'. injection Ha' as <-.
        rewrite add_infinity in Hadd by apply run_good. discriminate.
      * exact Ht.
Qed.

Lemma compute_tithe_infinite s c e :
  compute_tithe (Infinity false) (Finite s c e) = Raise InvalidOperation.
Proof.
  unfold compute_tithe, mul. cbn [_check_nans].
  destruct (c =? 0)%N; reflexivity.
Qed.

Lemma total_zero_without_matches heap f reader :
  matches (run heap f reader) = [] -> total (run heap f reader) = Decimal_0.
Proof.
  apply (run_ind heap f (fun _ st => matches st = [] -> total st = Decimal_0));
    [reflexivity | auto |].
  intros pre row IH Hrow. unfold step.
  destruct (try_row_outcome heap f (total (run heap f pre)) (line_of pre) row
              (total_nonneg heap f pre))
    as [(-> & _) | [(a & t' & shown & _ & _ & _ & _ & _ & ->)
       | [(e & _ & -> & _) | [(a & _ & _ & _ & _ & ->)
       | (a & fe & _ & _ & _ & _ & _ & ->)]]]]; cbn [matches total]; auto.
  intros H. apply app_eq_nil in H as (_ & H). discriminate.
Qed.

Lemma subsequence_nil {A} (l : list A) : subsequence l [] -> l = [].
Proof. inversion 1. reflexivity. Qed.

Lemma no_qualifying_row heap f reader :
  filter (qualifies f) reader = [] ->
  matches (run heap f reader) = [] /\ total (run heap f reader) = Decimal_0.
Proof.
  intros H.
  assert (Hm : matches (run heap f reader) = []).
  { revert H.
    apply (run_ind heap f (fun reader st =>
             filter (qualifies f) reader = [] -> matches st = [])).
    - reflexivity.
    - intros pre IH H. rewrite filter_snoc, qualifies_nil in H. auto.
    - intros pre row IH Hrow H. rewrite filter_snoc in H. unfold step.
      destruct (try_row_outcome heap f (total (run heap f pre)) (line_of pre) row
                  (total_nonneg heap f pre))
        as [(-> & Hq) | [(a & t' & shown & Hq & _)
           | [(e & Hq & -> & _) | [(a & Hq & _)
           | (a & fe & Hq & _)]]]];
        rewrite Hq in H; cbn [matches]; auto;
        apply app_eq_nil in H as (_ & H); discriminate. }
  split; [exact Hm | apply total_zero_without_matches, Hm].
Qed.

Lemma compute_tithe_zero c e :
  compute_tithe Decimal_0 (Finite false c e) = Ok (Finite false 0 (-2)).
Proof. reflexivity. Qed.

Lemma format_shown_again heap a shown amt again :
  positive a = true ->
  format_2f heap a = Ok shown ->
  Decimal_of_string shown = Some amt ->
  format_2f heap amt = Ok again ->
  again = shown.
Proof.
  intros Hp Hf. destruct a as [[|] c e|[|]|]; try discriminate Hp.
  - apply format_finite in Hf. subst shown. rewrite parse_render.
    destruct (within_limits _ _); [|discriminate].
    intros H. injection H as <-. apply format_cents_inv.
  - cbn in Hf. injection Hf as <-.
    intros H. vm_compute in H. injection H as <-.
    intros H. cbn in H. injection H as <-. reflexivity.
Qed.

Lemma report_rows_columns heap rate : forall ms body,
  Forall (amount_shown heap) ms ->
  report_rows heap rate ms = Ok body ->
  map (firstn 3) body = map columns ms.
Proof.
  induction ms as [|r ms IH]; intros body Hs.
  - cbn. intros H. injection H as <-. reflexivity.
  - cbn [report_rows]. inversion Hs as [|? ? (a & Hp & Hm) Hms]; subst.
    unfold report_row at 1.
    destruct (Decimal_of_string (m_amount r)) as [amt|] eqn:Ea; [|discriminate].
    destruct (compute_tithe amt rate) as [per|]; cbn [lift bind]; [|discriminate].
    destruct (format_2f heap amt) as [again|] eqn:Eg;
      cbn [lift_format bind]; [|discriminate].
    destruct (format_2f heap per) as [ps|] eqn:Ep;
      cbn [lift_format bind]; [|discriminate].
    destruct (report_rows heap rate ms) as [more|] eqn:Em; cbn [bind]; [|discriminate].
    intros H. injection H as <-. rewrite !map_cons.
    refine (f_equal2 (@cons Row) _ (IH more Hms eq_refl)).
    unfold columns. cbn [firstn].
    rewrite (format_shown_again heap a (m_amount r) amt again Hp Hm Ea Eg).
    reflexivity.
Qed.

Lemma add_zero_cents q :
  q <> 0%N -> (q < pow10 prec)%N ->
  add Decimal_0 (Finite false q (-2)) = Ok (Finite false q (-2)).
Proof.
  intros Hq Hlt. unfold add, Decimal_0. cbn [_check_nans].
  apply N.eqb_neq in Hq as Hq'. cbn [N.eqb andb]. rewrite Hq'.
  unfold _rescale. rewrite Hq'. ctx.
  replace (Z.max (Z.min 0 (-2)) (-2 - prec - 1)) with (-2) by lia.
  cbn [Z.leb Z.compare Z.sub Z.add Z.opp Z.pos_sub Pos.compare Pos.compare_cont].
  change (pow10 (-2 - -2)) with 1%N. rewrite N.mul_1_r.
  apply fix_cents, ndigits_le; [lia | exact Hlt].
Qed.

Lemma add_cents T q :
  T <> 0%N -> q <> 0%N -> (T + q < pow10 prec)%N ->
  add (Finite false T (-2)) (Finite false q (-2)) = Ok (Finite false (T + q) (-2)).
Proof.
  intros HT Hq Hlt. unfold add. cbn [_check_nans].
  apply N.eqb_neq in Hq as Hq'. apply N.eqb_neq in HT as HT'.
  rewrite HT', Hq'. cbn [andb].
  unfold _normalize. rewrite Z.ltb_irrefl.
  pose proof (ndigits_pos q) as Hnq. pose proof (ndigits_pos T) as HnT.
  destruct (Z.ltb_spec (ndigits q + -2 - 1)
              (-2 + Z.min (-1) (ndigits T - prec - 2))) as [H|H]; [lia|].
  change (pow10 (-2 - -2)) with 1%N. rewrite N.mul_1_r. cbn [Bool.eqb].
  apply fix_cents, ndigits_le; [ctx; lia | exact Hlt].
Qed.

Lemma sum_cents_snoc qs q : sum_cents (qs ++ [q]) = (sum_cents qs + q)%N.
Proof.
  induction qs as [|x qs IH]; cbn; [lia|]. unfold sum_cents in IH. rewrite IH. lia.
Qed.

Lemma exact_total heap f reader : forall qs,
  Forall2 two_decimals (filter (qualifies f) reader) qs ->
  (sum_cents qs < pow10 prec)%N ->
  matches (run heap f reader) = map (record_of heap) (filter (qualifies f) reader)
  /\ ((qs = [] /\ total (run heap f reader) = Decimal_0)
      \/ (sum_cents qs <> 0%N
          /\ total (run heap f reader) = Finite false (sum_cents qs) (-2))).
Proof.
  apply (run_ind heap f (fun reader st => forall qs,
           Forall2 two_decimals (filter (qualifies f) reader) qs ->
           (sum_cents qs < pow10 prec)%N ->
           matches st = map (record_of heap) (filter (qualifies f) reader)
           /\ ((qs = [] /\ total st = Decimal_0)
               \/ (sum_cents qs <> 0%N
                   /\ total st = Finite false (sum_cents qs) (-2))))).
  - intros qs H _. inversion H. split; [reflexivity | left; auto].
  - intros pre IH qs H Hs. rewrite filter_snoc, qualifies_nil in *. auto.
  - intros pre row IH Hrow qs H Hs. rewrite filter_snoc in *. unfold step.
    destruct (try_row_outcome heap f (total (run heap f pre)) (line_of pre) row
                (total_nonneg heap f pre))
      as [(-> & Hq) | [(a & t' & shown & Hq & Ha & Hp & Hadd & _ & ->)
         | [(e & Hq & -> & _) | [(a & Hq & Ha & Hp & Hadd & _)
         | (a & fe & Hq & Ha & Hp & Hinf & _ & _)]]]];
      rewrite Hq in *; cbn [matches total]; auto.
    + apply Forall2_app_inv_l in H as (qs' & ql & Hpre & Hlast & ->).
      inversion Hlast as [|? q ? ? Hrq Hnil]; subst. inversion Hnil; subst.
      rewrite sum_cents_snoc in *. unfold two_decimals in Hrq.
      rewrite Ha in Hrq. injection Hrq as ->.
      assert (Hq0 : q <> 0%N).
      { intros ->. discriminate Hp. }
      destruct (IH qs' Hpre ltac:(lia)) as (Hm & Ht).
      rewrite map_app, Hm. split; [reflexivity|]. right. split; [lia|].
      destruct Ht as [(-> & Ht) | (Hne & Ht)]; rewrite Ht in Hadd.
      * change (sum_cents []) with 0%N in *. rewrite N.add_0_l in *.
        rewrite add_zero_cents in Hadd by lia. congruence.
      * rewrite add_cents in Hadd by lia. congruence.
    + exfalso.
      apply Forall2_app_inv_l in H as (qs' & ql & Hpre & Hlast & ->).
      inversion Hlast as [|? q ? ? Hrq Hnil]; subst. inversion Hnil; subst.
      rewrite sum_cents_snoc in *. unfold two_decimals in Hrq.
      rewrite Ha in Hrq. injection Hrq as ->.
      assert (Hq0 : q <> 0%N).
      { intros ->. discriminate Hp. }
      destruct (IH qs' Hpre ltac:(lia)) as (Hm & Ht).
      destruct Ht as [(-> & Ht) | (Hne & Ht)]; rewrite Ht in Hadd.
      * change (sum_cents []) with 0%N in *. rewrite N.add_0_l in *.
        rewrite add_zero_cents in Hadd by lia. discriminate.
      * rewrite add_cents in Hadd by lia. discriminate.
    + exfalso.
      apply Forall2_app_inv_l in H as (qs' & ql & Hpre & Hlast & ->).
      inversion Hlast as [|? q ? ? Hrq Hnil]; subst. inversion Hnil; subst.
      rewrite sum_cents_snoc in *.
      destruct (IH qs' Hpre ltac:(lia)) as (Hm & Ht).
      destruct Ht as [(-> & Ht) | (Hne & Ht)]; rewrite Ht in Hinf; discriminate.
Qed.

Lemma fix_unchanged s c e :
  ndigits c <= prec -> Etiny <= e -> e <= 0 ->
  _fix (Finite s c e) = Ok (Finite s c e).
Proof.
  intros Hd Hlo Hhi. unfold _fix. ctx.
  destruct (N.eqb_spec c 0) as [->|Hc].
  - rewrite (Z.max_l e Etiny) by lia. rewrite (Z.min_l e Emax) by lia. reflexivity.
  - destruct (Z.ltb_spec Etop (ndigits c + e - prec)); [lia|].
    destruct (Z.ltb_spec e (Z.max (ndigits c + e - prec) Etiny)); [lia|].
    reflexivity.
Qed.

Lemma cents_small r c e :
  e <= -2 -> (c < pow10 prec)%N -> (cents r c e < pow10 prec)%N.
Proof.
  intros He Hc. unfold cents. destruct (N.eqb_spec c 0) as [->|Hc0]; [apply pow10_pos|].
  destruct (Z.leb_spec (-2) e) as [Hle|Hlt].
  - replace (e - -2) with 0 by lia. change (pow10 0) with 1%N. lia.
  - pose proof (round_coef_le r c (-2 - e)) as Hr.
    assert (Hq : (c / pow10 (-2 - e) <= c / 10)%N).
    { apply N.div_le_compat_l. split; [lia|].
      change 10%N with (pow10 1). apply pow10_mono. lia. }
    assert (Hc10 : (c / 10 + 1 <= c)%N).
    { clear - Hc0. pose proof (N.div_mod c 10 ltac:(discriminate)) as Hdm.
      pose proof (N.mod_lt c 10 ltac:(discriminate)) as Hm.
      set (q := (c / 10)%N) in *. set (m := (c mod 10)%N) in *.
      clearbody q m. lia. }
    set (x := (c / pow10 (-2 - e))%N) in *. set (y := (c / 10)%N) in *.
    clearbody x y. lia.
Qed.

(** [compute_tithe] on a total in cents, when the exact product has at most
    [prec] digits: the exact product rounded half up to cents. *)
Lemma compute_tithe_exact T sr cr er :
  er <= 0 -> Etiny + 2 <= er ->
  ndigits (T * cr) <= prec ->
  compute_tithe (Finite false T (-2)) (Finite sr cr er)
  = Ok (Finite sr (cents ROUND_HALF_UP (T * cr) (-2 + er)) (-2)).
Proof.
  intros Hhi Hlo Hd. unfold compute_tithe, mul. cbn [_check_nans xorb].
  rewrite fix_unchanged by lia.
  unfold quantize, Decimal_0_01. cbn [_check_nans].
  change (negb ((Etiny <=? -2)%Z && (-2 <=? Emax)%Z)) with false. cbn match.
  set (c := (T * cr)%N) in *. set (e := -2 + er) in *.
  destruct (N.eqb_spec c 0) as [Hc|Hc].
  - rewrite Hc. reflexivity.
  - pose proof (ndigits_pos c) as Hp. unfold adjusted. ctx.
    destruct (Z.ltb_spec Emax (e + ndigits c - 1)); [lia|].
    destruct (Z.ltb_spec prec (e + ndigits c - 1 - -2 + 1)); [lia|].
    rewrite rescale_cents.
    assert (Hs : (cents ROUND_HALF_UP c e < pow10 prec)%N).
    { apply cents_small; [lia|]. apply ndigits_bound. exact Hd. }
    assert (Hn : ndigits (cents ROUND_HALF_UP c e) <= prec).
    { apply ndigits_le; [lia | exact Hs]. }
    destruct (Z.ltb_spec Emax (-2 + ndigits (cents ROUND_HALF_UP c e) - 1)); [lia|].
    destruct (Z.ltb_spec prec (ndigits (cents ROUND_HALF_UP c e))); [lia|].
    apply fix_cents. exact Hn.
Qed.

Lemma compute_tithe_none sr cr er :
  compute_tithe Decimal_0 (Finite sr cr er) = Ok (Finite sr 0 (-2)).
Proof. destruct sr; reflexivity. Qed.

End ReportFacts.

Module TextFacts.

Import PyStr PyDate PyDecimal RoundSpec App Spec Props.
Import DecimalFacts LoopFacts RowFacts StringFacts EndpointFacts.
Import DecoderFacts RunFacts ReportFacts.
Local Open Scope string_scope.
Local Open Scope list_scope.

Lemma append_empty s : (s ++ EmptyString)%string = s.
Proof. induction s as [|c s IH]; [reflexivity|]. cbn. rewrite IH. reflexivity. Qed.

(** ** [strip] *)

Lemma rstrip_cons c t :
  rstrip (String c t)
  = match rstrip t with
    | EmptyString => if isspace c then EmptyString else String c EmptyString
    | t' => String c t'
    end.
Proof. reflexivity. Qed.

Lemma rstrip_idem s : rstrip (rstrip s) = rstrip s.
Proof.
  induction s as [|c s IH]; [reflexivity|]. rewrite rstrip_cons.
  destruct (rstrip s) as [|x y] eqn:E.
  - destruct (isspace c) eqn:Ec; [reflexivity|]. cbn. rewrite Ec. reflexivity.
  - rewrite rstrip_cons, IH. reflexivity.
Qed.

Lemma lstrip_head s :
  lstrip s = EmptyString
  \/ exists c t, lstrip s = String c t /\ isspace c = false.
Proof.
  induction s as [|c s IH]; [left; reflexivity|]. cbn.
  destruct (isspace c) eqn:Ec; [exact IH|]. right. eauto.
Qed.

Lemma lstrip_rstrip_head c t :
  isspace c = false -> lstrip (rstrip (String c t)) = rstrip (String c t).
Proof.
  intros Ec. rewrite rstrip_cons. destruct (rstrip t); rewrite ?Ec; cbn [lstrip];
    rewrite Ec; reflexivity.
Qed.

Lemma strip_idem s : strip (strip s) = strip s.
Proof.
  unfold strip. destruct (lstrip_head s) as [-> | (c & t & -> & Ec)]; [reflexivity|].
  rewrite lstrip_rstrip_head by exact Ec. apply rstrip_idem.
Qed.

(** ** [repr] *)

Lemma all_ascii_complete c : In c all_ascii.
Proof.
  unfold all_ascii. rewrite <- (ascii_nat_embedding c).
  apply in_map, in_seq. pose proof (nat_ascii_bounded c). lia.
Qed.

Lemma forallb_ascii (p : ascii -> bool) :
  forallb p all_ascii = true -> forall c, p c = true.
Proof.
  intros H c. rewrite forallb_forall in H. apply H, all_ascii_complete.
Qed.

Lemma repr_char_printable q c :
  isprintable q = true -> forall_chars isprintable (repr_char q c) = true.
Proof.
  revert c. revert q.
  assert (H : forall q, (negb (isprintable q)
                || forallb (fun c => forall_chars isprintable (repr_char q c))
                     all_ascii) = true).
  { apply forallb_ascii. vm_compute. reflexivity. }
  intros q c Hq. specialize (H q). rewrite Hq in H. cbn [negb orb] in H.
  rewrite forallb_forall in H. apply H, all_ascii_complete.
Qed.

Lemma repr_body_printable q s :
  isprintable q = true -> forall_chars isprintable (repr_body q s) = true.
Proof.
  intros Hq. induction s as [|c s IH]; [reflexivity|].
  cbn [repr_body]. rewrite forall_chars_app, IH, repr_char_printable by exact Hq.
  reflexivity.
Qed.

Lemma repr_printable s : forall_chars isprintable (repr s) = true.
Proof.
  unfold repr.
  destruct (has_char squote s && negb (has_char dquote s));
    cbn [append forall_chars]; rewrite forall_chars_app, repr_body_printable;
    reflexivity.
Qed.

Lemma digits_printable s : all_digits s = true -> forall_chars isprintable s = true.
Proof.
  rewrite all_digits_forall. apply forall_chars_weaken. intros c Hc.
  pose proof (forallb_ascii (fun c => negb (isdigit c) || isprintable c)
                ltac:(vm_compute; reflexivity) c) as H.
  cbn beta in H. rewrite Hc in H. exact H.
Qed.

Lemma prefixed_printable p s :
  forall_chars isprintable p = true -> forall_chars isprintable s = true ->
  forall_chars isprintable (p ++ s) = true.
Proof. intros Hp Hs. rewrite forall_chars_app, Hp, Hs. reflexivity. Qed.

Lemma error_line_printable n e :
  match e with
  | HTTPException _ detail => forall_chars isprintable detail = true
  | DecimalException _ => True
  | CsvError msg => forall_chars isprintable msg = true
  | ValueError msg => forall_chars isprintable msg = true
  | MemoryError => True
  end ->
  forall_chars isprintable (error_line n e) = true.
Proof.
  pose proof (digits_printable _ (str_of_N_digits n)) as Hn.
  destruct e as [st detail|sg|msg|msg|]; intros H; unfold error_line;
    rewrite ?forall_chars_app, ?Hn, ?H; try reflexivity.
  destruct sg; reflexivity.
Qed.

End TextFacts.

Module DateFacts.

Import PyStr PyDate PyDecimal RoundSpec App Spec Props.
Import DecimalFacts LoopFacts RowFacts StringFacts EndpointFacts.
Import DecoderFacts RunFacts ReportFacts TextFacts.
Local Open Scope string_scope.
Local Open Scope list_scope.
Local Open Scope Z_scope.

Lemma make_date_inv y m d dt :
  make_date y m d = Some dt ->
  dt = mkdate y m d
  /\ 1 <= y <= 9999 /\ 1 <= m <= 12 /\ 1 <= d <= days_in_month y m.
Proof.
  unfold make_date.
  destruct (Z.leb_spec 1 y), (Z.leb_spec y 9999), (Z.leb_spec 1 m),
    (Z.leb_spec m 12), (Z.leb_spec 1 d), (Z.leb_spec d (days_in_month y m));
    cbn; try discriminate.
  intros E. injection E as <-. split; [reflexivity | lia].
Qed.

Lemma days_in_month_le y m : days_in_month y m <= 31.
Proof.
  unfold days_in_month.
  destruct (m =? 2); [destruct (is_leap y); lia|].
  destruct ((m =? 4) || (m =? 6) || (m =? 9) || (m =? 11)); lia.
Qed.

(** What [strptime] returns is a date of the calendar. *)
Lemma strptime_valid s fmt dt :
  strptime s fmt = Some dt ->
  make_date (year dt) (month dt) (day dt) = Some dt.
Proof.
  unfold strptime. destruct (match_format fmt s unset) as [[p [|c r]]|];
    try discriminate.
  intros H. pose proof H as H'. apply make_date_inv in H' as (-> & _).
  exact H.
Qed.

(** A year written with four digits. *)
Lemma zfill4_table :
  forallb (fun y =>
             match zfill 4 y with
             | String a (String b (String c (String d EmptyString))) =>
                 isdigit a && isdigit b && isdigit c && isdigit d
                 && (1000 * val a + 100 * val b + 10 * val c + val d =? Z.of_N y)
             | _ => false
             end)
          (map N.of_nat (seq 0 (N.to_nat 10000))) = true.
Proof. vm_compute. reflexivity. Qed.

Lemma re_Y_zfill {A} y r (k : Z -> string -> option A) :
  0 <= y <= 9999 ->
  re_Y (zfill 4 (Z.to_N y) ++ r)%string k = k y r.
Proof.
  intros Hy. pose proof zfill4_table as H. rewrite forallb_forall in H.
  specialize (H (Z.to_N y)).
  assert (Hin : In (Z.to_N y) (map N.of_nat (seq 0 (N.to_nat 10000)))).
  { apply in_map_iff. exists (Z.to_nat y). split; [lia|]. apply in_seq. lia. }
  specialize (H Hin).
  destruct (zfill 4 (Z.to_N y)) as [|a [|b [|c [|d [|x t]]]]]; try discriminate.
  cbn [append re_Y].
  destruct (isdigit a && isdigit b && isdigit c && isdigit d); [|discriminate].
  cbn [andb] in H. apply Z.eqb_eq in H. rewrite H, Z2N.id by lia. reflexivity.
Qed.

Lemma re_m_zfill {A} m r (k : Z -> string -> option A) x :
  1 <= m <= 12 -> k m r = Some x -> re_m (zfill 2 (Z.to_N m) ++ r)%string k = Some x.
Proof.
  intros Hm Hk.
  assert (H : m = 1 \/ m = 2 \/ m = 3 \/ m = 4 \/ m = 5 \/ m = 6 \/ m = 7
              \/ m = 8 \/ m = 9 \/ m = 10 \/ m = 11 \/ m = 12) by lia.
  repeat (destruct H as [->|H]; [cbv -[append]; cbn [append]; rewrite Hk; reflexivity|]).
  subst m. cbv -[append]; cbn [append]; rewrite Hk; reflexivity.
Qed.

Lemma re_d_zfill {A} d r (k : Z -> string -> option A) x :
  1 <= d <= 31 -> k d r = Some x -> re_d (zfill 2 (Z.to_N d) ++ r)%string k = Some x.
Proof.
  intros Hd Hk.
  assert (H : d = 1 \/ d = 2 \/ d = 3 \/ d = 4 \/ d = 5 \/ d = 6 \/ d = 7 \/ d = 8 \/ d = 9 \/ d = 10 \/ d = 11 \/ d = 12 \/ d = 13 \/ d = 14 \/ d = 15 \/ d = 16 \/ d = 17 \/ d = 18 \/ d = 19 \/ d = 20 \/ d = 21 \/ d = 22 \/ d = 23 \/ d = 24 \/ d = 25 \/ d = 26 \/ d = 27 \/ d = 28 \/ d = 29 \/ d = 30 \/ d = 31) by lia.
  repeat (destruct H as [->|H]; [cbv -[append]; cbn [append]; rewrite Hk; reflexivity|]).
  subst d. cbv -[append]; cbn [append]; rewrite Hk; reflexivity.
Qed.

Lemma isoformat_strptime y m d dt :
  make_date y m d = Some dt -> strptime (isoformat dt) "%Y-%m-%d" = Some dt.
Proof.
  intros H. pose proof H as Hv. apply make_date_inv in Hv as (-> & Hy & Hm & Hd).
  pose proof (days_in_month_le y m) as Hd31.
  unfold strptime, isoformat. cbn [year month day match_format].
  rewrite re_Y_zfill by lia. cbn [append re_lit Ascii.eqb Bool.eqb].
  rewrite <- (append_empty (zfill 2 (Z.to_N d))).
  erewrite re_m_zfill; [| lia |].
  2:{ cbn [append re_lit Ascii.eqb Bool.eqb].
      apply re_d_zfill; [lia | reflexivity]. }
  cbn [p_year p_month p_day unset]. exact H.
Qed.

End DateFacts.

Module AmountFacts.

Import PyStr PyDate PyDecimal RoundSpec App Spec Props.
Import DecimalFacts LoopFacts RowFacts StringFacts EndpointFacts.
Import DecoderFacts RunFacts ReportFacts TextFacts DateFacts.
Local Open Scope string_scope.
Local Open Scope list_scope.
Local Open Scope Z_scope.

Lemma render_cents_no_plus sg q : startswith "+" (render_cents sg q) = false.
Proof.
  unfold render_cents, startswith. destruct sg; [reflexivity|].
  destruct (str_of_N_nonempty (q / 100)) as (c & t & -> & Hc).
  cbn [sign_str append prefix].
  destruct (ascii_dec "+" c) as [<-|]; [discriminate | reflexivity].
Qed.

Lemma subsequence_In {A} (l l' : list A) x :
  subsequence l l' -> In x l -> In x l'.
Proof.
  induction 1; cbn; [tauto | intros [->|H']; auto | auto].
Qed.

End AmountFacts.

Module CaseFacts.

Import PyStr PyDate PyDecimal RoundSpec App Spec Props.
Import DecimalFacts LoopFacts RowFacts StringFacts EndpointFacts.
Import DecoderFacts RunFacts ReportFacts TextFacts DateFacts AmountFacts.
Local Open Scope string_scope.
Local Open Scope list_scope.
Local Open Scope Z_scope.

(** The body of the loop reads three columns of the row. *)
Lemma try_row_columns heap f t n (row row' : Row) :
  date_text row = date_text row' ->
  amount_text row = amount_text row' ->
  description_text row = description_text row' ->
  try_row heap f t n row = try_row heap f t n row'.
Proof.
  intros Hd Ha Hx. rewrite !try_row_eq. unfold haystack. rewrite Hd, Ha, Hx.
  reflexivity.
Qed.

Lemma compute_tithe_zero_rate tc te sr re d :
  compute_tithe (Finite false tc te) (Finite sr 0 re) = Ok d ->
  d = Finite sr 0 (-2).
Proof.
  intros H. apply compute_tithe_finite in H as (c & e & n & Hmul & -> & Hu & _).
  cbn [xorb]. f_equal. unfold mul in Hmul. cbn [_check_nans] in Hmul.
  rewrite N.mul_0_r in Hmul. cbn [_fix N.eqb] in Hmul.
  apply Ok_Finite_inj in Hmul as (_ & <- & _).
  apply is_half_up_zero in Hu. exact Hu.
Qed.

(** ** Letter case *)

Lemma lower_char_table :
  forallb (fun c => Bool.eqb (isspace (lower_char c)) (isspace c)
                    && Ascii.eqb (lower_char (lower_char c)) (lower_char c))
          all_ascii = true.
Proof. vm_compute. reflexivity. Qed.

Lemma lower_char_facts c :
  isspace (lower_char c) = isspace c
  /\ lower_char (lower_char c) = lower_char c.
Proof.
  pose proof (forallb_ascii _ lower_char_table c) as H. cbn beta in H.
  apply andb_true_iff in H as (H1 & H2).
  split; [apply eqb_prop, H1 | apply Ascii.eqb_eq, H2].
Qed.

Lemma lower_idem s : lower (lower s) = lower s.
Proof.
  induction s as [|c s IH]; [reflexivity|]. cbn [lower].
  rewrite IH. f_equal. apply lower_char_facts.
Qed.

Lemma lower_lstrip s : lower (lstrip s) = lstrip (lower s).
Proof.
  induction s as [|c s IH]; [reflexivity|]. cbn [lower lstrip].
  destruct (lower_char_facts c) as (-> & _).
  destruct (isspace c); [exact IH | reflexivity].
Qed.

Lemma lower_rstrip s : lower (rstrip s) = rstrip (lower s).
Proof.
  induction s as [|c s IH]; [reflexivity|]. cbn [lower]. rewrite !rstrip_cons.
  rewrite <- IH. destruct (lower_char_facts c) as (-> & _).
  destruct (rstrip s); cbn [lower]; [destruct (isspace c)|]; reflexivity.
Qed.

Lemma lower_strip s : lower (strip s) = strip (lower s).
Proof. unfold strip. rewrite lower_rstrip, lower_lstrip. reflexivity. Qed.

End CaseFacts.

Module RangeFacts.

Import PyStr PyDate PyDecimal RoundSpec App Spec Props.
Import DecimalFacts LoopFacts RowFacts StringFacts EndpointFacts.
Import DecoderFacts RunFacts ReportFacts TextFacts DateFacts AmountFacts CaseFacts.
Local Open Scope string_scope.
Local Open Scope list_scope.
Local Open Scope Z_scope.

(** What [_fix] returns fits the context: at most [prec] digits, and an
    adjusted exponent of at most [Emax]. *)
Lemma fix_in_context s c e s' c' e' :
  _fix (Finite s c e) = Ok (Finite s' c' e') ->
  ndigits c' <= prec /\ ndigits c' + e' - 1 <= Emax.
Proof.
  unfold _fix. ctx. destruct (N.eqb_spec c 0) as [->|Hc].
  - intros E. apply Ok_Finite_inj in E as (_ & <- & <-).
    change (ndigits 0) with 1. lia.
  - destruct (Z.ltb_spec Etop (ndigits c + e - prec)) as [|Htop]; [discriminate|].
    destruct (Z.ltb_spec e (Z.max (ndigits c + e - prec) Etiny)) as [Hlt|Hge].
    + set (x := Z.max (ndigits c + e - prec) Etiny) in *.
      set (k := x - e) in *.
      assert (Hk : 0 < k) by lia.
      assert (Hq : (c / pow10 k < pow10 prec)%N).
      { apply N.Div0.div_lt_upper_bound.
        pose proof (ndigits_upper c) as Hu.
        assert (Hm : (pow10 (ndigits c) <= pow10 (k + prec))%N)
          by (apply pow10_mono; lia).
        rewrite pow10_add in Hm by lia. lia. }
      unfold round_coef.
      destruct (round_up ctx_rounding c k) eqn:Hup; cbn [andb].
      * destruct (Z.ltb_spec prec (ndigits (c / pow10 k + 1))) as [Hcar|Hno].
        -- destruct (Z.ltb_spec Etop (x + 1)); [discriminate|].
           intros E. apply Ok_Finite_inj in E as (_ & <- & <-).
           assert (Hd : ndigits ((c / pow10 k + 1) / 10) <= prec).
           { apply ndigits_le; [lia|]. apply N.Div0.div_lt_upper_bound.
             rewrite Hprec in *. change (pow10 28) with (10 ^ 28)%N in *. lia. }
           lia.
        -- destruct (Z.ltb_spec Etop x); [discriminate|].
           intros E. apply Ok_Finite_inj in E as (_ & <- & <-). lia.
      * destruct (Z.ltb_spec Etop x); [discriminate|].
        intros E. apply Ok_Finite_inj in E as (_ & <- & <-).
        pose proof (ndigits_le _ prec ltac:(lia) Hq). lia.
    + intros E. apply Ok_Finite_inj in E as (_ & <- & <-). lia.
Qed.

Lemma add_in_context t a t' :
  nonneg_total t -> positive a = true -> add t a = Ok t' -> in_context t'.
Proof.
  intros Ht Ha.
  destruct t as [st ct et|st|]; [| |contradiction];
    destruct a as [[|] ca ea|[|]|]; try discriminate; cbn in Ht; subst;
    try (intros H; injection H as <-; reflexivity).
  unfold add. cbn [_check_nans].
  destruct (_normalize ct et ca ea) as [[ct' ca'] e'].
  destruct (rescale_finite false ca ea (Z.max (Z.min et ea) (ea - prec - 1))
              ctx_rounding) as (c1 & ->).
  destruct (rescale_finite false ct et (Z.max (Z.min et ea) (et - prec - 1))
              ctx_rounding) as (c2 & ->).
  cbn [Bool.eqb andb].
  repeat match goal with
  | |- context [if ?b then _ else _] => destruct b
  end;
  intros H; pose proof H as H'; apply fix_finite in H' as (c' & e'' & ->);
  apply fix_in_context in H; cbn; tauto.
Qed.

Lemma total_in_context heap f reader : in_context (total (run heap f reader)).
Proof.
  apply (run_ind heap f (fun _ st => in_context (total st))).
  - cbn. ctx. change (ndigits 0) with 1. lia.
  - auto.
  - intros pre row IH Hrow. unfold step.
    destruct (try_row_outcome heap f (total (run heap f pre)) (line_of pre) row
                (total_nonneg heap f pre))
      as [(-> & _) | [(a & t' & shown & _ & _ & Hp & Ha & _ & ->)
         | [(e & _ & -> & _) | [(a & _ & _ & _ & _ & ->)
         | (a & fe & _ & _ & _ & _ & _ & ->)]]]]; cbn [total]; auto.
    eapply add_in_context; [apply total_nonneg | eassumption | eassumption].
Qed.

Lemma valid_rate_inv s c e :
  valid_rate (Finite s c e) = true ->
  c = 0%N \/ (e <= 0 /\ (c <= pow10 (- e))%N).
Proof.
  unfold valid_rate. intros H. apply andb_true_iff in H as (_ & H).
  apply N.leb_le in H.
  destruct (N.eq_dec c 0) as [->|Hc]; [left; reflexivity | right].
  destruct (Z.le_gt_cases e 0) as [He|He].
  - rewrite (pow10_nonpos e) in H by lia. split; [exact He | lia].
  - exfalso. rewrite (pow10_nonpos (- e)) in H by lia.
    assert (Hp : (pow10 1 <= pow10 e)%N) by (apply pow10_mono; lia).
    change (pow10 1) with 10%N in Hp. nia.
Qed.

(** Under a rate in [0, 1] the product of a total the context can hold and
    the rate does not overflow. *)
Lemma mul_no_overflow tc te sr rc re sg :
  ndigits tc <= prec -> ndigits tc + te - 1 <= Emax ->
  valid_rate (Finite sr rc re) = true ->
  mul (Finite false tc te) (Finite sr rc re) = Raise sg -> False.
Proof.
  intros Hnt Hadj Hv. apply valid_rate_inv in Hv.
  unfold mul. cbn [_check_nans xorb]. unfold _fix. ctx.
  destruct (N.eqb_spec (tc * rc) 0) as [|HP]; [discriminate|].
  destruct Hv as [->|(Hre & Hrc)]; [lia|].
  set (P := (tc * rc)%N) in *. set (nt := ndigits tc) in *.
  pose proof (ndigits_pos tc) as Hnt1. fold nt in Hnt1.
  pose proof (ndigits_upper tc) as Htc. fold nt in Htc.
  set (b := pow10 (- re)) in *.
  assert (Hb : (1 <= b)%N) by (pose proof (pow10_pos (- re)); unfold b; lia).
  assert (HNb : pow10 (nt - re) = (pow10 nt * b)%N).
  { unfold b. replace (nt - re) with (nt + - re) by lia. apply pow10_add; lia. }
  assert (HPle : (P + b <= pow10 nt * b)%N).
  { unfold P. clearbody b nt. set (N := pow10 nt) in *. clearbody N. nia. }
  assert (HndP : ndigits P <= nt - re).
  { apply ndigits_le; [lia|]. rewrite HNb. lia. }
  destruct (Z.ltb_spec Etop (ndigits P + (te + re) - prec)) as [|Htop]; [lia|].
  destruct (Z.ltb_spec (te + re) (Z.max (ndigits P + (te + re) - prec) Etiny))
    as [Hlt|Hge]; [|discriminate].
  set (x := Z.max (ndigits P + (te + re) - prec) Etiny) in *.
  set (k := x - (te + re)) in *.
  destruct (round_up ctx_rounding P k && (prec <? ndigits (round_coef ctx_rounding P k)))
    eqn:Hcarry.
  2:{ destruct (Z.ltb_spec Etop x); [lia | discriminate]. }
  destruct (Z.ltb_spec Etop (x + 1)) as [Hov|]; [|discriminate].
  intros _. apply andb_true_iff in Hcarry as (Hup & Hdig).
  apply Z.ltb_lt in Hdig. unfold round_coef in Hdig. rewrite Hup in Hdig.
  assert (Hx : x = ndigits P + (te + re) - prec) by lia.
  assert (Hk : k = ndigits P - prec) by lia.
  assert (HndP' : ndigits P = nt - re) by lia.
  assert (Hkb : k <= - re) by lia.
  assert (Hk0 : 0 < k) by lia.
  set (a := pow10 k) in *.
  assert (Hab : (a <= b)%N) by (apply pow10_mono; exact Hkb).
  assert (Ha : (0 < a)%N) by apply pow10_pos.
  assert (HNa : (pow10 nt * b = pow10 prec * a)%N).
  { rewrite <- HNb. replace (nt - re) with (prec + k) by lia.
    apply pow10_add; lia. }
  apply ndigits_ge in Hdig; [|lia].
  assert (Hrem : (a <= 2 * (P mod a))%N).
  { unfold round_up, ctx_rounding in Hup. fold a in Hup.
    apply orb_true_iff in Hup as [H|H].
    - apply N.ltb_lt in H. lia.
    - apply andb_true_iff in H as (H & _). apply N.eqb_eq in H. lia. }
  pose proof (N.div_mod P a ltac:(lia)) as Hdm.
  set (q := (P / a)%N) in *. set (r := (P mod a)%N) in *.
  rewrite Hprec in *. change (pow10 28) with (10 ^ 28)%N in *.
  clearbody q r a b P. nia.
Qed.

Lemma quantize_raise s c e r sg :
  quantize (Finite s c e) Decimal_0_01 r = Raise sg -> sg = InvalidOperation.
Proof.
  unfold quantize, Decimal_0_01. cbn [_check_nans].
  change (negb ((Etiny <=? -2) && (-2 <=? Emax))) with false. cbn match.
  destruct (N.eqb_spec c 0) as [->|Hc]; [discriminate|].
  destruct (Emax <? adjusted c e); [congruence|].
  destruct (prec <? adjusted c e - -2 + 1); [congruence|].
  rewrite rescale_cents.
  destruct (Emax <? adjusted (cents r c e) (-2)); [congruence|].
  destruct (Z.ltb_spec prec (ndigits (cents r c e))) as [|Hnd]; [congruence|].
  rewrite fix_cents by assumption. discriminate.
Qed.

Lemma compute_tithe_raise t r sg :
  in_context t -> valid_rate r = true ->
  compute_tithe t r = Raise sg -> sg = InvalidOperation.
Proof.
  intros Ht Hv. destruct (valid_rate_finite r Hv) as (sr & cr & er & ->).
  destruct t as [s c e|s|]; [| |contradiction]; cbn in Ht.
  - destruct Ht as (-> & Hd & Ha). unfold compute_tithe.
    destruct (mul (Finite false c e) (Finite sr cr er)) as [p|sg'] eqn:Hm.
    + unfold mul in Hm. cbn [_check_nans] in Hm.
      apply fix_finite in Hm as (c' & e' & ->). apply quantize_raise.
    + exfalso. eapply mul_no_overflow; eassumption.
  - subst s. rewrite compute_tithe_infinite. congruence.
Qed.

End RangeFacts.

Module TitheFacts.

Import PyStr PyDate PyDecimal RoundSpec App Spec Props.
Import DecimalFacts LoopFacts RowFacts StringFacts EndpointFacts.
Import DecoderFacts RunFacts ReportFacts TextFacts DateFacts AmountFacts CaseFacts RangeFacts.
Local Open Scope string_scope.
Local Open Scope list_scope.
Local Open Scope Z_scope.

(** [quantize] to cents, when it returns: a coefficient of at most [prec]
    digits at exponent [-2]. *)
Lemma quantize_cents_digits s c e r d :
  quantize (Finite s c e) Decimal_0_01 r = Ok d ->
  exists n, d = Finite s n (-2) /\ ndigits n <= prec.
Proof.
  unfold quantize, Decimal_0_01. cbn [_check_nans].
  change (negb ((Etiny <=? -2) && (-2 <=? Emax))) with false. cbn match.
  destruct (N.eqb_spec c 0) as [->|Hc].
  - cbn. intros H. injection H as <-. exists 0%N. split; [reflexivity|].
    change (ndigits 0) with 1. unfold prec. lia.
  - destruct (Emax <? adjusted c e); [discriminate|].
    destruct (prec <? adjusted c e - -2 + 1); [discriminate|].
    rewrite rescale_cents.
    destruct (Emax <? adjusted (cents r c e) (-2)); [discriminate|].
    destruct (Z.ltb_spec prec (ndigits (cents r c e))) as [|Hnd]; [discriminate|].
    rewrite fix_cents by assumption. intros Hq. injection Hq as <-.
    exists (cents r c e). auto.
Qed.

End TitheFacts.

(* ===================================================================== *)
(** * Properties of the code beyond the claims *)
(* ===================================================================== *)

Module DecoderProps.

Import PyStr PyDate PyDecimal RoundSpec App Spec Props.
Import DecimalFacts LoopFacts RowFacts StringFacts EndpointFacts.
Import DecoderFacts RunFacts ReportFacts TextFacts DateFacts AmountFacts CaseFacts RangeFacts TitheFacts.


(** X1: the rows yielded are the rows of the reader that are not blank, in
    the order of the reader and each padded, with strictly increasing line
    numbers. *)
Theorem iter_csv_rows_keeps_order reader :
  map snd (iter_csv_rows reader) = map pad (filter nonblank reader)
  /\ StronglySorted N.lt (map fst (iter_csv_rows reader)).
Proof.
  split; [apply iter_numbered_rows | apply fst_iter_numbered_sorted].
Qed.

(** X2: a pair is yielded exactly when its number is the 1-based position of
    a row of the reader that is not blank, blank rows included in the count,
    and its row is that row padded. *)
Theorem iter_csv_rows_line_numbers reader i r :
  In (i, r) (iter_csv_rows reader) <->
  (1 <= i)%N
  /\ exists row, nth_error reader (N.to_nat (i - 1)) = Some row
                 /\ row <> [] /\ r = pad row.
Proof. unfold iter_csv_rows. apply in_iter_numbered. Qed.

(** X3: every row yielded has at least five fields, and each column of it
    reads as the same column of the row of the reader, an absent column
    reading as the empty text. *)
Theorem iter_csv_rows_pads_to_five reader :
  Forall (fun nr => (5 <= List.length (snd nr))%nat
                    /\ exists row, In row reader
                         /\ List.length (snd nr) = Nat.max 5 (List.length row)
                         /\ forall k, nth k (snd nr) EmptyString
                                      = nth k row EmptyString)
         (iter_csv_rows reader).
Proof.
  apply Forall_forall. intros [i r] Hin. cbn [snd].
  apply in_iter_numbered in Hin as (_ & row & Hn & _ & ->).
  rewrite length_pad. split; [lia|].
  exists row. split; [eapply nth_error_In; exact Hn|].
  split; [reflexivity | apply nth_pad].
Qed.

End DecoderProps.

Module LoopProps.

Import PyStr PyDate PyDecimal RoundSpec App Spec Props.
Import DecimalFacts LoopFacts RowFacts StringFacts EndpointFacts.
Import DecoderFacts RunFacts ReportFacts TextFacts DateFacts AmountFacts CaseFacts RangeFacts TitheFacts.
Local Open Scope string_scope.
Local Open Scope list_scope.

(** X4: the matches are records of qualifying rows, in the order of the
    rows, whatever else happens in the run. *)
Theorem matches_only_from_qualifying_rows heap f reader :
  exists kept,
    matches (run heap f reader) = map (record_of heap) kept
    /\ subsequence kept (filter (qualifies f) reader)
    /\ Forall (written heap) kept.
Proof. apply matches_only_from_rows. Qed.

(** X5: a row gives at most one match or one diagnostic. *)
Theorem one_outcome_per_row heap f reader :
  (List.length (matches (run heap f reader)) + List.length (errors (run heap f reader))
   <= List.length (filter nonblank reader))%nat.
Proof.
  apply (run_ind heap f (fun reader st =>
           (List.length (matches st) + List.length (errors st)
            <= List.length (filter nonblank reader))%nat)).
  - cbn. lia.
  - intros pre IH. rewrite filter_snoc. exact IH.
  - intros pre row IH Hrow. rewrite filter_snoc.
    replace (nonblank row) with true by (destruct row; [congruence|reflexivity]).
    rewrite length_app. cbn [List.length]. unfold step.
    destruct (try_row heap f (total (run heap f pre)) (line_of pre) row)
      as [t' [[m|]|e]];
      cbn [matches errors]; rewrite ?length_app; cbn [List.length]; lia.
Qed.

(** X6: every diagnostic has one of six forms, and carries the line number
    of a row of the reader that is not blank. *)
Theorem diagnostics_have_six_forms heap f reader :
  Forall (fun msg => exists n row,
            nth_error reader (N.to_nat (n - 1)) = Some row
            /\ (1 <= n)%N /\ row <> [] /\ diagnostic n row msg)
         (errors (run heap f reader)).
Proof.
  apply (run_ind heap f (fun reader st =>
           Forall (fun msg => exists n row,
                     nth_error reader (N.to_nat (n - 1)) = Some row
                     /\ (1 <= n)%N /\ row <> [] /\ diagnostic n row msg)
                  (errors st))).
  - constructor.
  - intros pre IH. eapply Forall_impl; [|exact IH]. cbn.
    intros msg (n & row & Hn & H). exists n, row. split; [|exact H].
    rewrite nth_error_app1; [exact Hn|]. apply nth_error_Some. congruence.
  - intros pre row IH Hrow.
    assert (IH' : Forall (fun msg => exists n row0,
                     nth_error (pre ++ [row]) (N.to_nat (n - 1)) = Some row0
                     /\ (1 <= n)%N /\ row0 <> [] /\ diagnostic n row0 msg)
                    (errors (run heap f pre))).
    { eapply Forall_impl; [|exact IH]. cbn.
      intros msg (n & row0 & Hn & H). exists n, row0. split; [|exact H].
      rewrite nth_error_app1; [exact Hn|]. apply nth_error_Some. congruence. }
    assert (Hhere : forall msg, diagnostic (line_of pre) row msg ->
              Forall (fun msg => exists n row0,
                        nth_error (pre ++ [row]) (N.to_nat (n - 1)) = Some row0
                        /\ (1 <= n)%N /\ row0 <> [] /\ diagnostic n row0 msg)
                     (errors (run heap f pre) ++ [msg])).
    { intros msg Hd. apply Forall_app. split; [exact IH'|].
      constructor; [|constructor].
      exists (line_of pre), row. unfold line_of in *.
      replace (N.to_nat (N.of_nat (List.length pre) + 1 - 1))
        with (List.length pre) by lia.
      rewrite nth_error_app2, Nat.sub_diag by lia.
      split; [reflexivity|]. split; [lia|]. split; [exact Hrow | exact Hd]. }
    unfold step.
    destruct (try_row_outcome heap f (total (run heap f pre)) (line_of pre) row
                (total_nonneg heap f pre))
      as [(-> & _) | [(a & t' & shown & _ & _ & _ & _ & _ & ->)
         | [(e & _ & -> & Hd) | [(a & _ & _ & _ & _ & ->)
         | (a & fe & _ & _ & _ & _ & _ & ->)]]]]; cbn [errors]; auto.
    + apply Hhere. right. right. right. left. reflexivity.
    + apply Hhere. destruct fe.
      * do 4 right. left. reflexivity.
      * do 5 right. reflexivity.
Qed.

(** X7: blank rows bear on the line numbers only. *)
Theorem blank_rows_change_no_result heap f (pre post : list Row) :
  matches (run heap f (pre ++ [] :: post)) = matches (run heap f (pre ++ post))
  /\ total (run heap f (pre ++ [] :: post)) = total (run heap f (pre ++ post)).
Proof.
  rewrite run_blank, run_app_from. apply run_from_line; reflexivity.
Qed.

(** X8: what the rows read so far have given is kept when more rows are
    read. *)
Theorem later_rows_only_append heap f (pre post : list Row) :
  exists ms es,
    matches (run heap f (pre ++ post)) = matches (run heap f pre) ++ ms
    /\ errors (run heap f (pre ++ post)) = errors (run heap f pre) ++ es.
Proof.
  rewrite run_app_from. destruct (run heap f pre) as [m t e].
  rewrite run_from_frame. cbn [matches errors]. eauto.
Qed.

(** X9: a row dated in the range whose amount is a NaN is recorded as an
    InvalidOperation, whatever its description, and gives no match. *)
Theorem nan_amount_is_recorded heap f (pre : list Row) (row : Row) post d s sg p :
  parse_date (date_text row) = Ok d ->
  in_range f d = true ->
  parse_decimal (Some (amount_text row)) = Ok (NaN s sg p) ->
  matches (run heap f (pre ++ row :: post)) = matches (run heap f (pre ++ [] :: post))
  /\ total (run heap f (pre ++ row :: post)) = total (run heap f (pre ++ [] :: post))
  /\ exists later,
       errors (run heap f (pre ++ row :: post))
       = errors (run heap f pre)
         ++ ("Line " ++ str_of_N (line_of pre)
             ++ ": InvalidOperation: [<class 'decimal.InvalidOperation'>]")%string
         :: later.
Proof.
  intros Hd Hr Ha.
  assert (Ht : try_row heap f (total (run heap f pre)) (line_of pre) row
               = (total (run heap f pre),
                  Raise (DecimalException InvalidOperation))).
  { rewrite try_row_eq, Hd, Hr, Ha. reflexivity. }
  destruct (run_row_error heap f pre row post _ (row_of_date row d Hd) Ht)
    as (Hm & Htot & later & He & _).
  split; [exact Hm|]. split; [exact Htot|]. exists later. exact He.
Qed.

(** An instance: a deposit of NaN on line 4 is recorded. *)
Lemma nan_amount_witness :
  exists later,
    errors (run Scenario.no_heap Scenario.september (Scenario.statement ++ Scenario.nan_row :: [Scenario.payroll_row]))
    = errors (run Scenario.no_heap Scenario.september Scenario.statement)
      ++ "Line 4: InvalidOperation: [<class 'decimal.InvalidOperation'>]"%string
      :: later.
Proof.
  apply (nan_amount_is_recorded Scenario.no_heap Scenario.september Scenario.statement Scenario.nan_row
           [Scenario.payroll_row] (mkdate 2025 9 15) false false 0);
    reflexivity.
Defined.

End LoopProps.

Module EndpointProps.

Import PyStr PyDate PyDecimal RoundSpec App Spec Props.
Import DecimalFacts LoopFacts RowFacts StringFacts EndpointFacts.
Import DecoderFacts RunFacts ReportFacts TextFacts DateFacts AmountFacts CaseFacts RangeFacts TitheFacts.
Local Open Scope string_scope.
Local Open Scope list_scope.

(** X10: a qualifying row whose amount is an infinity makes the endpoint
    raise InvalidOperation for every finite rate, for either format and
    whatever the other rows are. *)
Theorem infinite_amount_fails_the_request heap rd rq s e reader row sr cr er :
  strptime (start rq) "%Y-%m-%d" = Some s ->
  strptime (end_ rq) "%Y-%m-%d" = Some e ->
  date_lt e s = false ->
  file rq <> [] ->
  rd (file rq) = (reader, None) ->
  rate_dec rq = Finite sr cr er ->
  In row reader ->
  qualifies (filter_of rq s e) row = true ->
  parse_decimal (Some (amount_text row)) = Ok (Infinity false) ->
  tithing heap rd rq = Raise (DecimalException InvalidOperation).
Proof.
  intros Hs He Hlt Hf Hr Hrate Hin Hq Ha.
  rewrite (tithing_run heap rd rq s e reader) by assumption. cbv zeta.
  rewrite (total_infinite heap _ reader row Hin Hq Ha), Hrate, compute_tithe_infinite.
  reflexivity.
Qed.

(** An instance: the statement followed by a deposit of Infinity. *)
Lemma infinite_amount_witness :
  tithing Scenario.no_heap (Scenario.reader_of (Scenario.statement ++ [Scenario.infinity_row]))
    (Scenario.request json Scenario.rate_tenth 10)
  = Raise (DecimalException InvalidOperation).
Proof.
  apply (infinite_amount_fails_the_request Scenario.no_heap _ _ (mkdate 2025 9 1) (mkdate 2025 9 30)
           (Scenario.statement ++ [Scenario.infinity_row]) Scenario.infinity_row false 1 (-1));
    try reflexivity.
  - discriminate.
  - cbn. auto.
Defined.

(** X11: when no row qualifies, the response for a finite rate of positive
    sign shows no match, a total of 0.00 and a tithe of 0.00, the
    diagnostics being kept. *)
Theorem no_qualifying_row_gives_zero heap rd rq s e reader rc re :
  strptime (start rq) "%Y-%m-%d" = Some s ->
  strptime (end_ rq) "%Y-%m-%d" = Some e ->
  date_lt e s = false ->
  file rq <> [] ->
  rd (file rq) = (reader, None) ->
  rate_dec rq = Finite false rc re ->
  filter (qualifies (filter_of rq s e)) reader = [] ->
  tithing heap rd rq
  = Ok (match format rq with
        | json =>
            JSONResponse
              (mkJson
                 (mkFilters (isoformat s) (isoformat e) (desc_contains rq)
                    (rate_dec rq) (req_case_insensitive rq))
                 0 "0.00" "0.00" []
                 (errors (run heap (filter_of rq s e) reader)))
        | csv =>
            StreamingResponse
              [header (rate_pct rq); []; ["TOTAL"; "0.00"; EmptyString; "0.00"]]
        end).
Proof.
  intros Hs He Hlt Hf Hr Hrate Hq.
  rewrite (tithing_run heap rd rq s e reader) by assumption. cbv zeta.
  destruct (no_qualifying_row heap _ reader Hq) as (-> & ->).
  rewrite Hrate, compute_tithe_zero. destruct (format rq); reflexivity.
Qed.

(** An instance: a header, a debit and a row whose amount is no number. *)
Lemma no_qualifying_row_witness :
  tithing Scenario.no_heap (Scenario.reader_of [Scenario.header_row; Scenario.debit_row;
                               Scenario.bad_amount_row])
    (Scenario.request json Scenario.rate_tenth 10)
  = Ok (JSONResponse
          (mkJson
             (mkFilters "2025-09-01" "2025-09-30" "MILLWORK DEV PAYROLL"
                Scenario.rate_tenth true)
             0 "0.00" "0.00" []
             ["Line 3: Invalid amount value: 'abc'"])).
Proof.
  apply (no_qualifying_row_gives_zero Scenario.no_heap _ (Scenario.request json Scenario.rate_tenth 10)
           (mkdate 2025 9 1) (mkdate 2025 9 30)
           [Scenario.header_row; Scenario.debit_row; Scenario.bad_amount_row]
           1 (-1));
    try reflexivity.
  discriminate.
Defined.

(** X12: the detailed report shows what the JSON body shows: when the request
    succeeds with the CSV format it succeeds with the JSON format, the
    report has a header, one row for each row of the body with the same
    date, amount and description, a blank row and a TOTAL row with the
    total and the tithe of the body. *)
Theorem csv_report_agrees_with_json heap rd rq written :
  tithing heap rd (with_format csv rq) = Ok (StreamingResponse written) ->
  exists body more,
    tithing heap rd (with_format json rq) = Ok (JSONResponse body)
    /\ written = header (rate_pct rq) :: more
                 ++ [[]; ["TOTAL"; total_deposits body; EmptyString; tithe body]]
    /\ List.length more = count body
    /\ map (firstn 3) more = map columns (rows body).
Proof.
  unfold tithing, with_format.
  cbn [file start end_ desc_contains rate_dec rate_pct req_case_insensitive format].
  destruct (strptime (start rq) "%Y-%m-%d") as [s|]; [|discriminate].
  destruct (strptime (end_ rq) "%Y-%m-%d") as [e|]; [|discriminate].
  destruct (date_lt e s); [discriminate|].
  destruct (file rq) as [|b data]; [discriminate|].
  destruct (rd (b :: data)) as [reader [msg|]]; [discriminate|].
  change (filter_of (mkRequest ?a ?b ?c ?d ?r ?p ?i ?f) s e)
    with (filter_of rq s e).
  set (st := run heap (filter_of rq s e) reader).
  destruct (compute_tithe (total st) (rate_dec rq)) as [t|]; cbn [lift bind];
    [|discriminate].
  destruct (report_rows heap (rate_dec rq) (matches st)) as [more|] eqn:Em;
    cbn [bind]; [|discriminate].
  unfold total_row.
  destruct (format_2f heap (total st)) as [ts|]; cbn [lift_format bind];
    [|discriminate].
  destruct (format_2f heap t) as [tt|]; cbn [lift_format bind]; [|discriminate].
  intros H. injection H as <-. eexists. exists more.
  split; [reflexivity|]. cbn [total_deposits tithe count rows].
  split; [reflexivity|].
  pose proof (report_rows_columns heap _ _ _ (run_shown heap _ reader) Em) as Hc.
  split; [|exact Hc].
  apply (f_equal (@List.length _)) in Hc. rewrite !length_map in Hc. exact Hc.
Qed.

(** An instance: the report of the statement at the rate 0.10. *)
Lemma csv_report_witness :
  exists body more,
    tithing Scenario.no_heap (Scenario.reader_of Scenario.statement)
      (with_format json (Scenario.request json Scenario.rate_tenth 10))
    = Ok (JSONResponse body)
    /\ [header 10; ["2025-09-15"; "1500.00"; "MILLWORK DEV PAYROLL #123"; "150.00"];
        []; ["TOTAL"; "1500.00"; EmptyString; "150.00"]]
       = header 10 :: more
         ++ [[]; ["TOTAL"; total_deposits body; EmptyString; tithe body]]
    /\ List.length more = count body
    /\ map (firstn 3) more = map columns (rows body).
Proof.
  apply (csv_report_agrees_with_json Scenario.no_heap (Scenario.reader_of Scenario.statement)
           (Scenario.request json Scenario.rate_tenth 10)).
  vm_compute. reflexivity.
Defined.

(** X13: when the amounts of the qualifying rows are written with two
    decimals and their sum is below ten to the power 28 cents, every
    qualifying row is matched and the total shown is their exact sum. *)
Theorem total_is_the_exact_sum heap f reader qs :
  Forall2 two_decimals (filter (qualifies f) reader) qs ->
  (sum_cents qs < pow10 prec)%N ->
  matches (run heap f reader) = map (record_of heap) (filter (qualifies f) reader)
  /\ format_2f heap (total (run heap f reader))
     = Ok (render_cents false (sum_cents qs))
  /\ (qs <> [] -> total (run heap f reader) = Finite false (sum_cents qs) (-2)).
Proof.
  intros H Hs. destruct (exact_total heap f reader qs H Hs) as (Hm & Ht).
  split; [exact Hm|].
  destruct Ht as [(-> & ->) | (Hne & ->)].
  - split; [reflexivity | congruence].
  - split; [|reflexivity]. apply format_cents, ndigits_le; [ctx; lia | exact Hs].
Qed.

(** An instance: deposits of 1500.00 and 250.00 give 1750.00. *)
Lemma total_is_the_exact_sum_witness :
  matches (run Scenario.no_heap Scenario.september (Scenario.statement ++ [Scenario.first_day_row]))
  = map (record_of Scenario.no_heap) (filter (qualifies Scenario.september)
                     (Scenario.statement ++ [Scenario.first_day_row]))
  /\ format_2f Scenario.no_heap (total (run Scenario.no_heap Scenario.september
                         (Scenario.statement ++ [Scenario.first_day_row])))
     = Ok "1750.00"
  /\ ([150000; 25000]%N <> [] ->
      total (run Scenario.no_heap Scenario.september (Scenario.statement ++ [Scenario.first_day_row]))
      = Finite false 175000 (-2)).
Proof.
  apply (total_is_the_exact_sum Scenario.no_heap Scenario.september
           (Scenario.statement ++ [Scenario.first_day_row]) [150000; 25000]%N).
  - repeat constructor.
  - vm_compute. reflexivity.
Defined.

(** X14: for a statement whose qualifying amounts are written with two
    decimals, with a sum below ten to the power 28 cents and a product of
    sum and rate of at most 28 digits, the request succeeds, every
    qualifying row is matched, the total shown is the exact sum and the
    tithe shown is the exact product rounded half up to cents. *)
Theorem ordinary_statement_is_exact heap rd rq s e reader qs sr cr er :
  strptime (start rq) "%Y-%m-%d" = Some s ->
  strptime (end_ rq) "%Y-%m-%d" = Some e ->
  date_lt e s = false ->
  file rq <> [] ->
  rd (file rq) = (reader, None) ->
  format rq = json ->
  rate_dec rq = Finite sr cr er ->
  -1000 <= er <= 0 ->
  Forall2 two_decimals (filter (qualifies (filter_of rq s e)) reader) qs ->
  (sum_cents qs < pow10 prec)%N ->
  ndigits (sum_cents qs * cr) <= prec ->
  exists n,
    is_half_up (sum_cents qs * cr) (-2 + er) n
    /\ tithing heap rd rq
       = Ok (JSONResponse
               (mkJson
                  (mkFilters (isoformat s) (isoformat e) (desc_contains rq)
                     (rate_dec rq) (req_case_insensitive rq))
                  (List.length qs)
                  (render_cents false (sum_cents qs))
                  (render_cents sr n)
                  (map (record_of heap) (filter (qualifies (filter_of rq s e)) reader))
                  (errors (run heap (filter_of rq s e) reader)))).
Proof.
  intros Hs He Hlt Hf Hr Hfmt Hrate Her Hq Hsum Hd.
  exists (cents ROUND_HALF_UP (sum_cents qs * cr) (-2 + er)).
  split; [apply cents_half_up|].
  rewrite (tithing_run heap rd rq s e reader) by assumption. cbv zeta.
  destruct (exact_total heap _ reader qs Hq Hsum) as (Hm & Ht).
  rewrite Hfmt, Hrate, Hm, length_map, (Forall2_length Hq).
  destruct Ht as [(-> & ->) | (Hne & ->)].
  - rewrite compute_tithe_none. reflexivity.
  - ctx.
    pose proof (compute_tithe_exact (sum_cents qs) sr cr er ltac:(lia) ltac:(lia) Hd)
      as Ht.
    rewrite Ht. cbn [lift bind].
    rewrite !format_cents;
      [reflexivity | eapply compute_tithe_digits, Ht
       | apply ndigits_le; [lia | exact Hsum]].
Qed.

(** An instance: deposits of 1500.00 and 250.00 at the rate 0.10. *)
Lemma ordinary_statement_witness :
  exists n,
    is_half_up (175000 * 1) (-2 + -1) n
    /\ tithing Scenario.no_heap (Scenario.reader_of (Scenario.statement ++ [Scenario.first_day_row]))
         (Scenario.request json Scenario.rate_tenth 10)
       = Ok (JSONResponse
               (mkJson
                  (mkFilters "2025-09-01" "2025-09-30" "MILLWORK DEV PAYROLL"
                     Scenario.rate_tenth true)
                  2 "1750.00" (render_cents false n)
                  [mkMatch "2025-09-15" "1500.00" "MILLWORK DEV PAYROLL #123";
                   mkMatch "2025-09-01" "250.00" "Millwork Dev Payroll"]
                  [])).
Proof.
  apply (ordinary_statement_is_exact Scenario.no_heap
           (Scenario.reader_of (Scenario.statement ++ [Scenario.first_day_row]))
           (Scenario.request json Scenario.rate_tenth 10)
           (mkdate 2025 9 1) (mkdate 2025 9 30)
           (Scenario.statement ++ [Scenario.first_day_row])
           [150000; 25000]%N false 1 (-1));
    try reflexivity.
  - discriminate.
  - lia.
  - repeat constructor.
  - vm_compute. discriminate.
Defined.

End EndpointProps.

Module TextProps.

Import PyStr PyDate PyDecimal RoundSpec App Spec Props.
Import DecimalFacts LoopFacts RowFacts StringFacts EndpointFacts.
Import DecoderFacts RunFacts ReportFacts TextFacts DateFacts AmountFacts CaseFacts RangeFacts TitheFacts.
Local Open Scope string_scope.
Local Open Scope list_scope.

(** X15: no diagnostic holds a control character or a line break, whatever
    the fields of the rows hold. *)
Theorem diagnostics_are_printable heap f reader :
  Forall (fun msg => forall_chars isprintable msg = true) (errors (run heap f reader)).
Proof.
  apply (run_ind heap f (fun _ st =>
           Forall (fun msg => forall_chars isprintable msg = true) (errors st)));
    [constructor | auto |].
  intros pre row IH Hrow. unfold step.
  destruct (try_row heap f (total (run heap f pre)) (line_of pre) row)
    as [t' [[m|]|e]] eqn:Et; cbn [errors]; auto.
  apply Forall_app. split; [exact IH|]. constructor; [|constructor].
  apply error_line_printable. rewrite try_row_eq in Et.
  destruct (parse_date (date_text row)) as [d|e0] eqn:Hd.
  - destruct (negb (in_range f d)); [discriminate|].
    destruct (parse_decimal (Some (amount_text row))) as [a|e1] eqn:Ha.
    + destruct (le_zero a) as [[|]|sg]; try discriminate.
      * destruct (contains (needle f) (haystack f row)); [|discriminate].
        destruct (add (total (run heap f pre)) a).
        -- destruct (format_2f heap a) as [shown|[|]];
             cbn [lift_format bind format_exn] in Et; [discriminate| |];
             injection Et as _ <-; [reflexivity | exact I].
        -- injection Et as _ <-. exact I.
      * injection Et as _ <-. exact I.
    + injection Et as _ <-. unfold parse_decimal in Ha.
      match type of Ha with context [Decimal_of_string ?x] =>
        destruct (Decimal_of_string x); [discriminate|]; injection Ha as <-;
        exact (prefixed_printable "Invalid amount value: " _ eq_refl
                 (repr_printable x)) end.
  - destruct (line_of pre =? 1)%N; [discriminate|]. injection Et as _ <-.
    apply parse_date_raise in Hd as ->.
    exact (prefixed_printable "Invalid date value (expected MM/DD/YYYY): " _
             eq_refl (repr_printable _)).
Qed.

End TextProps.

Module DateProps.

Import PyStr PyDate PyDecimal RoundSpec App Spec Props.
Import DecimalFacts LoopFacts RowFacts StringFacts EndpointFacts.
Import DecoderFacts RunFacts ReportFacts TextFacts DateFacts AmountFacts CaseFacts RangeFacts TitheFacts.
Local Open Scope string_scope.
Local Open Scope list_scope.
Local Open Scope Z_scope.

(** X16: the ISO form of a date of the calendar parses back to the date. *)
Theorem isoformat_parses_back y m d dt :
  make_date y m d = Some dt -> strptime (isoformat dt) "%Y-%m-%d" = Some dt.
Proof. apply isoformat_strptime. Qed.

(** An instance: the 29th of February 2024. *)
Lemma isoformat_parses_back_witness :
  strptime (isoformat (mkdate 2024 2 29)) "%Y-%m-%d" = Some (mkdate 2024 2 29).
Proof. apply (isoformat_parses_back 2024 2 29). reflexivity. Defined.

(** X17: the bounds echoed in the filters of the JSON body parse to the
    bounds the request was run with. *)
Theorem echoed_bounds_parse_back heap rd rq body :
  tithing heap rd rq = Ok (JSONResponse body) ->
  strptime (f_start (filters body)) "%Y-%m-%d" = strptime (start rq) "%Y-%m-%d"
  /\ strptime (f_end (filters body)) "%Y-%m-%d" = strptime (end_ rq) "%Y-%m-%d".
Proof.
  unfold tithing.
  destruct (strptime (start rq) "%Y-%m-%d") as [s|] eqn:Hs; [|discriminate].
  destruct (strptime (end_ rq) "%Y-%m-%d") as [e|] eqn:He; [|discriminate].
  destruct (date_lt e s); [discriminate|].
  destruct (file rq) as [|b data]; [discriminate|].
  destruct (rd (b :: data)) as [reader [msg|]]; [discriminate|].
  destruct (compute_tithe _ _) as [t|]; cbn [lift bind]; [|discriminate].
  destruct (format rq).
  - destruct (format_2f heap (total _)); cbn [lift_format bind]; [|discriminate].
    destruct (format_2f heap t); cbn [lift_format bind]; [|discriminate].
    intros H. injection H as <-. cbn [filters f_start f_end].
    split; eapply isoformat_strptime, strptime_valid; eassumption.
  - destruct (report_rows heap _ _); cbn [bind]; [|discriminate].
    destruct (total_row heap _ _); cbn [bind]; discriminate.
Qed.

(** An instance: bounds written without leading zeros are echoed with
    them, and parse to the same dates. *)
Lemma echoed_bounds_witness :
  exists body,
    tithing Scenario.no_heap (Scenario.reader_of Scenario.statement)
      (mkRequest Scenario.upload "2025-9-1" "2025-9-30" "MILLWORK DEV PAYROLL"
         Scenario.rate_tenth 10 true json)
    = Ok (JSONResponse body)
    /\ f_start (filters body) = "2025-09-01"
    /\ strptime (f_start (filters body)) "%Y-%m-%d" = strptime "2025-9-1" "%Y-%m-%d"
    /\ strptime (f_end (filters body)) "%Y-%m-%d" = strptime "2025-9-30" "%Y-%m-%d".
Proof.
  eexists. split; [reflexivity|]. split; [reflexivity|].
  apply (echoed_bounds_parse_back Scenario.no_heap (Scenario.reader_of Scenario.statement)
           (mkRequest Scenario.upload "2025-9-1" "2025-9-30" "MILLWORK DEV PAYROLL"
              Scenario.rate_tenth 10 true json)).
  reflexivity.
Defined.

End DateProps.

Module AmountProps.

Import PyStr PyDate PyDecimal RoundSpec App Spec Props.
Import DecimalFacts LoopFacts RowFacts StringFacts EndpointFacts.
Import DecoderFacts RunFacts ReportFacts TextFacts DateFacts AmountFacts CaseFacts RangeFacts TitheFacts.
Local Open Scope string_scope.
Local Open Scope list_scope.
Local Open Scope Z_scope.

(** X18: an amount written with two decimals, with or without thousands
    separators, surrounding blanks and a leading plus sign, is read as the
    exact number of cents. *)
Theorem parse_decimal_reads_money u sg q :
  (remove_char "," (strip u) = render_cents sg q
   \/ remove_char "," (strip u) = String "+" (render_cents sg q)) ->
  within_limits q (-2) = true ->
  parse_decimal (Some u) = Ok (Finite sg q (-2)).
Proof.
  intros [H|H] Hq; unfold parse_decimal; rewrite H.
  - rewrite render_cents_no_plus, parse_render, Hq. reflexivity.
  - cbn [startswith prefix tail]. destruct (ascii_dec "+" "+"); [|congruence].
    replace (prefix EmptyString (render_cents sg q)) with true
      by (destruct (render_cents sg q); reflexivity).
    rewrite parse_render, Hq. reflexivity.
Qed.

(** An instance: 1,234,567.89 with blanks and a plus sign. *)
Lemma parse_decimal_reads_money_witness :
  parse_decimal (Some "  +1,234,567.89 ") = Ok (Finite false 123456789 (-2)).
Proof.
  apply (parse_decimal_reads_money "  +1,234,567.89 " false 123456789).
  - right. reflexivity.
  - reflexivity.
Defined.

(** X19: every match record holds an ISO date inside the range, an amount with
    two decimals (or the word Infinity), and a trimmed description that
    contains the needle. *)
Theorem matches_are_well_formed heap f reader :
  Forall (well_formed f) (matches (run heap f reader)).
Proof.
  apply (run_ind heap f (fun _ st => Forall (well_formed f) (matches st)));
    [constructor | auto |].
  intros pre row IH Hrow. unfold step.
  destruct (try_row_outcome heap f (total (run heap f pre)) (line_of pre) row
              (total_nonneg heap f pre))
    as [(-> & _) | [(a & t' & shown & Hq & Ha & Hp & _ & Hf & ->)
       | [(e & _ & -> & _) | [(a & _ & _ & _ & _ & ->)
       | (a & fe & _ & _ & _ & _ & _ & ->)]]]]; cbn [matches]; auto.
  apply Forall_app. split; [exact IH|]. constructor; [|constructor].
  apply qualifies_inv in Hq as (d & a' & Hd & Ha' & Hr & _ & Hc).
  rewrite (record_of_shown heap row d a shown Hd Ha Hf).
  unfold well_formed. cbn [m_date m_amount m_description].
  split; [|split; [|split]].
  - exists d. split; [|exact Hr]. unfold parse_date in Hd.
    destruct (strptime (strip (date_text row)) DATE_FMT) as [d'|] eqn:E;
      [|discriminate]. injection Hd as ->.
    eapply isoformat_strptime, strptime_valid, E.
  - destruct a as [[|] c e|[|]|]; try discriminate Hp.
    + right. eexists. eapply format_finite, Hf.
    + left. cbn in Hf. injection Hf as <-. reflexivity.
  - apply strip_idem.
  - exact Hc.
Qed.

End AmountProps.

Module RowProps.

Import PyStr PyDate PyDecimal RoundSpec App Spec Props.
Import DecimalFacts LoopFacts RowFacts StringFacts EndpointFacts.
Import DecoderFacts RunFacts ReportFacts TextFacts DateFacts AmountFacts CaseFacts RangeFacts TitheFacts.
Local Open Scope string_scope.
Local Open Scope list_scope.
Local Open Scope Z_scope.

(** X20: only the first, the second and the fifth column of a row are read:
    two rows that agree on them, neither blank, give the same run. *)
Theorem only_three_columns_are_read heap f (pre : list Row) (row row' : Row) post :
  row <> [] -> row' <> [] ->
  date_text row = date_text row' ->
  amount_text row = amount_text row' ->
  description_text row = description_text row' ->
  run heap f (pre ++ row :: post) = run heap f (pre ++ row' :: post).
Proof.
  intros Hr Hr' Hd Ha Hx. rewrite !run_row by assumption. rewrite !step_pad.
  unfold step. rewrite (try_row_columns heap f _ _ row row') by assumption.
  reflexivity.
Qed.

(** An instance: other third and fourth columns, and a sixth column. *)
Lemma only_three_columns_witness :
  run Scenario.no_heap Scenario.september
    ([Scenario.header_row]
     ++ ["09/15/2025"; "1500.00"; "X"; "Y"; "MILLWORK DEV PAYROLL #123"; "Z"]
     :: [Scenario.debit_row])
  = run Scenario.no_heap Scenario.september
      ([Scenario.header_row] ++ Scenario.payroll_row :: [Scenario.debit_row]).
Proof.
  apply (only_three_columns_are_read Scenario.no_heap Scenario.september [Scenario.header_row]
           ["09/15/2025"; "1500.00"; "X"; "Y"; "MILLWORK DEV PAYROLL #123"; "Z"]
           Scenario.payroll_row [Scenario.debit_row]);
    try reflexivity; discriminate.
Defined.

(** X21: a row whose date parses and whose amount is a finite number that is
    zero or negative is passed over without a match and without a
    diagnostic, whether its date is in the range or not and whatever its
    description. *)
Theorem debits_are_passed_over heap f (pre : list Row) (row : Row) post d s c e :
  parse_date (date_text row) = Ok d ->
  parse_decimal (Some (amount_text row)) = Ok (Finite s c e) ->
  s = true \/ c = 0%N ->
  run heap f (pre ++ row :: post) = run heap f (pre ++ [] :: post).
Proof.
  intros Hd Ha Hs. apply run_row_skip. rewrite try_row_eq, Hd, Ha.
  destruct (negb (in_range f d)); [reflexivity|]. cbn [le_zero].
  replace ((c =? 0)%N || s) with true; [reflexivity|].
  destruct Hs as [->| ->]; [rewrite orb_true_r|]; reflexivity.
Qed.

(** An instance: the debit of 200.00 of the statement. *)
Lemma debits_witness :
  run Scenario.no_heap Scenario.september
    ([Scenario.header_row; Scenario.payroll_row] ++ Scenario.debit_row :: [])
  = run Scenario.no_heap Scenario.september
      ([Scenario.header_row; Scenario.payroll_row] ++ [] :: []).
Proof.
  apply (debits_are_passed_over Scenario.no_heap Scenario.september
           [Scenario.header_row; Scenario.payroll_row] Scenario.debit_row []
           (mkdate 2025 9 20) true 20000 (-2)); try reflexivity.
  left. reflexivity.
Defined.

(** X22: with a rate of zero the tithe shown is zero whatever the total is:
    0.00, and -0.00 when the rate is the negative zero. *)
Theorem zero_rate_gives_zero_tithe heap rd rq resp sr re :
  rate_dec rq = Finite sr 0 re ->
  tithing heap rd rq = Ok resp ->
  reported_tithe resp = (sign_str sr ++ "0.00")%string.
Proof.
  intros Hrate H. apply tithing_ok in H as (st & t & Hst & Ht & _ & Hshown & _).
  unfold final_state in Hst.
  destruct (strptime (start rq) "%Y-%m-%d") as [s|]; [|discriminate].
  destruct (strptime (end_ rq) "%Y-%m-%d") as [e|]; [|discriminate].
  injection Hst as <-. rewrite Hrate in Ht.
  pose proof (total_nonneg heap (filter_of rq s e) (fst (rd (file rq)))) as Hn.
  destruct (total _) as [ts tc te|ts|]; cbn in Hn; [subst ts| subst ts|contradiction].
  - apply compute_tithe_zero_rate in Ht as ->.
    apply format_cents_inv in Hshown. rewrite Hshown. destruct sr; reflexivity.
  - discriminate Ht.
Qed.

(** An instance: the statement at the rate -0.0. *)
Lemma zero_rate_witness :
  exists resp,
    tithing Scenario.no_heap (Scenario.reader_of Scenario.statement)
      (Scenario.request json (Finite true 0 (-1)) 0) = Ok resp
    /\ reported_tithe resp = "-0.00".
Proof.
  eexists. split; [reflexivity|].
  apply (zero_rate_gives_zero_tithe Scenario.no_heap (Scenario.reader_of Scenario.statement)
           (Scenario.request json (Finite true 0 (-1)) 0) _ true (-1));
    reflexivity.
Defined.

(** X23: under the case-insensitive rule, whether a row qualifies depends on
    its description only up to letter case. *)
Theorem letter_case_is_ignored f (row row' : Row) :
  case_insensitive f = true ->
  date_text row = date_text row' ->
  amount_text row = amount_text row' ->
  lower (description_text row) = lower (description_text row') ->
  qualifies f row = qualifies f row'.
Proof.
  intros Hci Hd Ha Hx. unfold qualifies, haystack.
  rewrite Hci, Hd, Ha, !lower_strip, Hx. reflexivity.
Qed.

(** An instance: the payroll row with a description in mixed case. *)
Lemma letter_case_witness :
  qualifies Scenario.september Scenario.payroll_row
  = qualifies Scenario.september
      ["09/15/2025"; "1500.00"; "*"; EmptyString; "Millwork Dev PayRoll #123"].
Proof.
  apply (letter_case_is_ignored Scenario.september Scenario.payroll_row
           ["09/15/2025"; "1500.00"; "*"; EmptyString; "Millwork Dev PayRoll #123"]);
    reflexivity.
Defined.

End RowProps.

Module RangeProps.

Import PyStr PyDate PyDecimal RoundSpec App Spec Props.
Import DecimalFacts LoopFacts RowFacts StringFacts EndpointFacts.
Import DecoderFacts RunFacts ReportFacts TextFacts DateFacts AmountFacts CaseFacts RangeFacts TitheFacts.
Local Open Scope string_scope.
Local Open Scope list_scope.
Local Open Scope Z_scope.

(** X24: the total fits the decimal context at every point of the run: it has
    at most 28 digits and an adjusted exponent of at most 999999, or it is
    +Infinity. *)
Theorem total_fits_the_context heap f reader :
  in_context (total (run heap f reader)).
Proof. apply total_in_context. Qed.

(** X25: a request for the JSON body with a rate in [0, 1] fails in five ways
    only: one of the three rejections with status 400, a failure of the
    reader, or InvalidOperation from the computation of the tithe, which
    never overflows. *)
Theorem json_request_failures heap rd rq e :
  valid_rate (rate_dec rq) = true ->
  format rq = json ->
  tithing heap rd rq = Raise e ->
  e = HTTPException 400 "Dates must be in YYYY-MM-DD format"
  \/ e = HTTPException 400 "end must be on/after start"
  \/ e = HTTPException 400 "Empty upload"
  \/ (exists msg, e = CsvError msg)
  \/ e = DecimalException InvalidOperation.
Proof.
  intros Hv Hf. unfold tithing.
  destruct (strptime (start rq) "%Y-%m-%d") as [s|].
  2:{ intros H. left. destruct (strptime (end_ rq) "%Y-%m-%d"); congruence. }
  destruct (strptime (end_ rq) "%Y-%m-%d") as [d|]; [|intros H; left; congruence].
  destruct (date_lt d s); [intros H; right; left; congruence|].
  destruct (file rq) as [|b data]; [intros H; right; right; left; congruence|].
  destruct (rd (b :: data)) as [reader [msg|]].
  { intros H. right. right. right. left. exists msg. congruence. }
  rewrite Hf.
  destruct (compute_tithe _ _) as [t|sg] eqn:Ht; cbn [lift bind].
  - intros H. exfalso. revert Ht H.
    pose proof (total_in_context heap (filter_of rq s d) reader) as Hc.
    destruct (valid_rate_finite _ Hv) as (sr & cr & er & ->).
    destruct (total _) as [ts tc te|ts|]; cbn in Hc; [|subst ts|contradiction].
    + destruct Hc as (-> & _ & Hadj). intros Ht.
      rewrite (format_in_range heap false tc te Hadj). cbn [lift_format bind].
      pose proof Ht as Ht'.
      apply compute_tithe_finite in Ht' as (c0 & e0 & n & _ & -> & _).
      rewrite format_cents by (eapply compute_tithe_digits, Ht).
      discriminate.
    + rewrite compute_tithe_infinite. discriminate.
  - apply compute_tithe_raise in Ht; [| apply total_in_context | exact Hv].
    intros H. right. right. right. right. congruence.
Qed.

(** An instance: the failure on a deposit of Infinity is the last of the
    five. *)
Lemma json_request_failures_witness :
  tithing Scenario.no_heap (Scenario.reader_of (Scenario.statement ++ [Scenario.infinity_row]))
    (Scenario.request json Scenario.rate_tenth 10)
  = Raise (DecimalException InvalidOperation)
  /\ (DecimalException InvalidOperation
        = HTTPException 400 "Dates must be in YYYY-MM-DD format"
      \/ DecimalException InvalidOperation
         = HTTPException 400 "end must be on/after start"
      \/ DecimalException InvalidOperation = HTTPException 400 "Empty upload"
      \/ (exists msg, DecimalException InvalidOperation = CsvError msg)
      \/ DecimalException InvalidOperation = DecimalException InvalidOperation).
Proof.
  split; [reflexivity|].
  apply (json_request_failures Scenario.no_heap
           (Scenario.reader_of (Scenario.statement ++ [Scenario.infinity_row]))
           (Scenario.request json Scenario.rate_tenth 10));
    reflexivity.
Defined.

End RangeProps.

Module TitheProps.

Import PyStr PyDate PyDecimal RoundSpec App Spec Props.
Import DecimalFacts LoopFacts RowFacts StringFacts EndpointFacts.
Import DecoderFacts RunFacts ReportFacts TextFacts DateFacts AmountFacts CaseFacts RangeFacts TitheFacts.
Local Open Scope string_scope.
Local Open Scope list_scope.
Local Open Scope Z_scope.

(** X26: what [compute_tithe] returns is a finite number of exponent [-2] and
    of at most 28 digits, with the sign of the product, or a quiet NaN when
    an operand is a quiet NaN; it never returns an infinity or a signaling
    NaN. *)
Theorem compute_tithe_returns_cents a b d :
  compute_tithe a b = Ok d ->
  (exists sa ca ea sb cb eb n,
     a = Finite sa ca ea /\ b = Finite sb cb eb
     /\ d = Finite (xorb sa sb) n (-2) /\ ndigits n <= prec)
  \/ (exists s p, d = NaN s false p
        /\ ((exists q, a = NaN s false q) \/ (exists q, b = NaN s false q))).
Proof.
  unfold compute_tithe.
  destruct a as [sa ca ea|sa|sa [|] pa], b as [sb cb eb|sb|sb [|] pb];
    unfold mul; cbn [_check_nans]; try discriminate.
  - destruct (_fix (Finite (xorb sa sb) (ca * cb) (ea + eb))) as [p|] eqn:Hp;
      [|discriminate].
    apply fix_finite in Hp as (c' & e' & ->). intros H.
    apply quantize_cents_digits in H as (n & -> & Hn).
    left. exists sa, ca, ea, sb, cb, eb, n. auto.
  - destruct (ca =? 0)%N; discriminate.
  - intros H. injection H as <-. right. eexists _, _. split; [reflexivity|].
    right. eauto.
  - destruct (cb =? 0)%N; discriminate.
  - intros H. injection H as <-. right. eexists _, _. split; [reflexivity|].
    right. eauto.
  - intros H. injection H as <-. right. eexists _, _. split; [reflexivity|].
    left. eauto.
  - intros H. injection H as <-. right. eexists _, _. split; [reflexivity|].
    left. eauto.
  - intros H. injection H as <-. right. eexists _, _. split; [reflexivity|].
    left. eauto.
Qed.

(** An instance: 1500.00 at the rate 0.10. *)
Lemma compute_tithe_returns_cents_witness :
  (exists sa ca ea sb cb eb n,
     Finite false 150000 (-2) = Finite sa ca ea
     /\ Scenario.rate_tenth = Finite sb cb eb
     /\ Finite false 15000 (-2) = Finite (xorb sa sb) n (-2) /\ ndigits n <= prec)
  \/ (exists s p, Finite false 15000 (-2) = NaN s false p
        /\ ((exists q, Finite false 150000 (-2) = NaN s false q)
            \/ (exists q, Scenario.rate_tenth = NaN s false q))).
Proof.
  apply (compute_tithe_returns_cents (Finite false 150000 (-2)) Scenario.rate_tenth).
  reflexivity.
Defined.

(** X27: the detailed report keeps no trace of a row that ended in a
    diagnostic: the response is the one the same upload gives with the row
    left blank. *)
Theorem csv_report_drops_diagnostics heap rd rd' rq s d (pre : list Row) (row : Row) post e :
  format rq = csv ->
  strptime (start rq) "%Y-%m-%d" = Some s ->
  strptime (end_ rq) "%Y-%m-%d" = Some d ->
  rd (file rq) = (pre ++ row :: post, None) ->
  rd' (file rq) = (pre ++ [] :: post, None) ->
  row <> [] ->
  snd (try_row heap (filter_of rq s d) (total (run heap (filter_of rq s d) pre))
         (line_of pre) row)
  = Raise e ->
  tithing heap rd rq = tithing heap rd' rq.
Proof.
  intros Hf Hs Hd Hr Hr' Hrow Ht.
  apply try_row_raise in Ht; [|apply total_nonneg].
  destruct (date_lt d s) eqn:Hlt.
  { unfold tithing. rewrite Hs, Hd, Hlt. reflexivity. }
  destruct (file rq) as [|b data] eqn:Hfile.
  { unfold tithing. rewrite Hs, Hd, Hlt, Hfile. reflexivity. }
  assert (Hne : file rq <> []) by congruence. rewrite <- Hfile in Hr, Hr'.
  rewrite (tithing_run heap rd rq s d _ Hs Hd Hlt Hne Hr).
  rewrite (tithing_run heap rd' rq s d _ Hs Hd Hlt Hne Hr'). cbv zeta.
  rewrite Hf. destruct (run_row_error heap _ pre row post e Hrow Ht) as (Hm & Htot & _).
  unfold Row in *. rewrite Hm, Htot. reflexivity.
Qed.

(** An instance: the row dated 2025-09-16 after the statement. *)
Lemma csv_report_drops_diagnostics_witness :
  tithing Scenario.no_heap (Scenario.reader_of (Scenario.statement ++ Scenario.bad_date_row :: []))
    (Scenario.request csv Scenario.rate_tenth 10)
  = tithing Scenario.no_heap (Scenario.reader_of (Scenario.statement ++ [] :: []))
      (Scenario.request csv Scenario.rate_tenth 10).
Proof.
  apply (csv_report_drops_diagnostics Scenario.no_heap _ _ (Scenario.request csv Scenario.rate_tenth 10)
           (mkdate 2025 9 1) (mkdate 2025 9 30) Scenario.statement
           Scenario.bad_date_row []
           (HTTPException 400
              "Invalid date value (expected MM/DD/YYYY): '2025-09-16'"));
    try reflexivity.
  discriminate.
Defined.

End TitheProps.
